(** * Kalze channel client: connection lifecycle, reconnection and dispatch

    A shallow embedding of [KalzeChannel] (the TypeScript client module and
    the compiled [dist/client.js] build) as state-passing functions over a
    [World]: the fields of the channel object, the [Set] objects its listener
    map points to, the host's sockets and timers, and a trace of what the
    channel did to the outside (events emitted, callbacks invoked, sockets
    opened, frames sent, timers armed).

    The numeric options and the close codes are integers ([Z]; the attempt
    counter, which only counts up from zero, is a [nat]); the reconnect
    delay, which the code computes in double precision, is a [number]: an
    integer, an infinity or NaN.  A frame is an event name and a payload; the
    payload of the handshake can have any shape, since the code reads it
    without checking it.  Application callbacks are opaque: calling one is
    recorded in the trace and may throw; the one callback the library builds
    itself, the [once] wrapper, is modelled exactly. *)

From stdpp Require Import base gmap strings list pretty.

Open Scope Z_scope.

(** ** Data model *)

Inductive ConnectionState := disconnected | connecting | connected | reconnecting.

Global Instance ConnectionState_eq_dec : EqDecision ConnectionState.
Proof. solve_decision. Defined.

(** [KalzeOptions] as the application passes it: all but [key] and
    [subdomain] may be left out. *)
Record KalzeOptions := {
  opt_key : string;
  opt_subdomain : string;
  opt_wsUrl : option string;
  opt_autoReconnect : option bool;
  opt_maxReconnectAttempts : option Z;
  opt_reconnectDelay : option Z;
  opt_debug : option bool
}.

(** [Required<KalzeOptions>]: the options once the constructor has filled in
    the defaults. *)
Record RequiredOptions := {
  key : string;
  subdomain : string;
  wsUrl : string;
  autoReconnect : bool;
  maxReconnectAttempts : Z;
  reconnectDelay : Z;
  debug : bool
}.

Definition DEFAULT_WS_URL : string := "wss://ws.websocket.cl".

Record ConnectionEstablished := {
  socketId_of : string;
  channel_of : string;
  subdomain_of : string;
  timestamp_of : Z
}.

(** Application payloads: JSON values. *)
#[local] Unset Elimination Schemes.
Inductive Json :=
| JNull
| JBool (b : bool)
| JNum (n : Z)
| JStr (s : string)
| JArr (items : list Json)
| JObj (fields : list (string * Json)).
#[local] Set Elimination Schemes.

(** What a field of the channel can hold once it has been assigned a
    property of a parsed payload: [undefined] (the property is not there),
    or a JSON value. *)
Inductive JsValue := undefined | parsed (j : Json).

Definition null : JsValue := parsed JNull.

(** A JavaScript number as far as the reconnect delay needs one: an integer
    that a double holds exactly, an infinity, or NaN. *)
Inductive number := finite (z : Z) | Infinity | NegInfinity | NaN.

Coercion finite : Z >-> number.

(** The values handed to [emit] and on to the callbacks. *)
Inductive Data :=
| DJson (payload : Json)
| DEstablished (d : ConnectionEstablished)
| DError (code : option Z) (message : string)
| DState (s : ConnectionState)
| DDisconnected (code : Z) (reason : string)
| DReconnecting (attempt : nat) (delay : number)
| DReconnectFailed (attempts : nat)
| DEnvelope (event : string) (data : Data)
| DUndefined.

(** An inbound frame after [JSON.parse], at the type [ServerMessage];
    [DUndefined] is the payload of a frame without a [data] property. *)
Record ServerMessage := {
  event : string;
  data : Data
}.

(** What [trigger] and the heartbeat hand to [JSON.stringify]; a field that
    is not there is [None]. *)
Record Envelope := {
  env_event : string;
  env_data : option Json
}.

(** An application function: its identity, and whether it throws when it is
    called. *)
Record AppFn := {
  fn_id : nat;
  fn_throws : bool
}.

(** [EventCallback]s held in the listener sets: an application function as
    passed to [on], or a wrapper closure built by [once] (one fresh closure
    per call of [once], told apart by [wrapper_id]). *)
Inductive EventCallback :=
| Plain (f : AppFn)
| OnceWrapper (wrapper_id : nat) (event : string) (callback : AppFn).

Global Instance AppFn_eq_dec : EqDecision AppFn.
Proof. solve_decision. Defined.

Global Instance EventCallback_eq_dec : EqDecision EventCallback.
Proof. solve_decision. Defined.

(** The application function a registered callback ends up calling. *)
Definition target (cb : EventCallback) : AppFn :=
  match cb with
  | Plain f => f
  | OnceWrapper _ _ f => f
  end.

(** The scalar fields of a [KalzeChannel] object.  [ws] is a reference to one
    of the host's sockets, the two timer fields hold the handles returned by
    [setTimeout] and [setInterval]. *)
Record KalzeChannel := {
  name : string;
  options : RequiredOptions;
  ws : option nat;
  socketId : JsValue;
  state : ConnectionState;
  reconnectAttempts : nat;
  reconnectTimeout : option nat;
  heartbeatInterval : option nat
}.

Inductive ReadyState := CONNECTING | OPEN | CLOSING | CLOSED.

Global Instance ReadyState_eq_dec : EqDecision ReadyState.
Proof. solve_decision. Defined.

Record WebSocket := {
  url : string;
  readyState : ReadyState
}.

(** The host: every socket this channel ever opened (a socket's reference is
    its position), the one-shot timers still pending and the periodic timers
    still running (handle to delay), and the next fresh timer handle.  Handles
    start at 1, so a handle is always truthy. *)
Record Host := {
  sockets : list WebSocket;
  timeouts : gmap nat number;
  intervals : gmap nat Z;
  handles : nat
}.

(** What the channel does to the outside, in order. *)
Inductive Obs :=
| Emit (ev : string) (d : Data)
| Invoke (f : nat) (arg : Data)
| Console (msg : string)
| NewWebSocket (sock : nat) (address : string)
| Send (sock : nat) (frame : Envelope)
| Close (sock : nat) (code : Z) (reason : string)
| SetTimeout (h : nat) (delay : number)
| ClearTimeout (h : nat)
| SetInterval (h : nat) (period : Z)
| ClearInterval (h : nat).

(** A [Set<EventCallback>] object, as ECMAScript keeps it: the entries in
    insertion order, a deleted entry leaving a hole so that a running
    iteration keeps its place. *)
Abbreviation SetData := (list (option EventCallback)).

(** [eventListeners] is the channel's [Map<string, Set<EventCallback>>]: it
    maps an event name to the address of a [Set] object in [heap].
    [closures] numbers the wrappers built by [once]. *)
Record World := {
  this : KalzeChannel;
  eventListeners : gmap string nat;
  heap : list SetData;
  closures : nat;
  host : Host;
  trace : list Obs
}.

(** ** Field updates *)

Definition set_ws (v : option nat) (c : KalzeChannel) : KalzeChannel :=
  {| name := name c; options := options c; ws := v; socketId := socketId c;
     state := state c; reconnectAttempts := reconnectAttempts c;
     reconnectTimeout := reconnectTimeout c;
     heartbeatInterval := heartbeatInterval c |}.

Definition set_socketId (v : JsValue) (c : KalzeChannel) : KalzeChannel :=
  {| name := name c; options := options c; ws := ws c; socketId := v;
     state := state c; reconnectAttempts := reconnectAttempts c;
     reconnectTimeout := reconnectTimeout c;
     heartbeatInterval := heartbeatInterval c |}.

Definition set_state (v : ConnectionState) (c : KalzeChannel) : KalzeChannel :=
  {| name := name c; options := options c; ws := ws c; socketId := socketId c;
     state := v; reconnectAttempts := reconnectAttempts c;
     reconnectTimeout := reconnectTimeout c;
     heartbeatInterval := heartbeatInterval c |}.

Definition set_reconnectAttempts (v : nat) (c : KalzeChannel) : KalzeChannel :=
  {| name := name c; options := options c; ws := ws c; socketId := socketId c;
     state := state c; reconnectAttempts := v;
     reconnectTimeout := reconnectTimeout c;
     heartbeatInterval := heartbeatInterval c |}.

Definition set_reconnectTimeout (v : option nat) (c : KalzeChannel) : KalzeChannel :=
  {| name := name c; options := options c; ws := ws c; socketId := socketId c;
     state := state c; reconnectAttempts := reconnectAttempts c;
     reconnectTimeout := v;
     heartbeatInterval := heartbeatInterval c |}.

Definition set_heartbeatInterval (v : option nat) (c : KalzeChannel) : KalzeChannel :=
  {| name := name c; options := options c; ws := ws c; socketId := socketId c;
     state := state c; reconnectAttempts := reconnectAttempts c;
     reconnectTimeout := reconnectTimeout c;
     heartbeatInterval := v |}.

Definition upd_this (f : KalzeChannel → KalzeChannel) (w : World) : World :=
  {| this := f (this w); eventListeners := eventListeners w; heap := heap w;
     closures := closures w; host := host w; trace := trace w |}.

Definition upd_host (f : Host → Host) (w : World) : World :=
  {| this := this w; eventListeners := eventListeners w; heap := heap w;
     closures := closures w; host := f (host w); trace := trace w |}.

Definition upd_listeners (f : gmap string nat → gmap string nat) (w : World) : World :=
  {| this := this w; eventListeners := f (eventListeners w); heap := heap w;
     closures := closures w; host := host w; trace := trace w |}.

Definition upd_heap (f : list SetData → list SetData) (w : World) : World :=
  {| this := this w; eventListeners := eventListeners w; heap := f (heap w);
     closures := closures w; host := host w; trace := trace w |}.

Definition upd_closures (f : nat → nat) (w : World) : World :=
  {| this := this w; eventListeners := eventListeners w; heap := heap w;
     closures := f (closures w); host := host w; trace := trace w |}.

Definition say (o : Obs) (w : World) : World :=
  {| this := this w; eventListeners := eventListeners w; heap := heap w;
     closures := closures w; host := host w; trace := trace w ++ [o] |}.

(** ** The host's primitives *)

(** [new Set()]: a fresh empty set object; its address is returned. *)
Definition new_Set (w : World) : nat * World :=
  (length (heap w), upd_heap (λ h, h ++ [[]]) w).

(** [Set.prototype.add]: appends unless the value is already an entry. *)
Definition set_add (cb : EventCallback) (entries : SetData) : SetData :=
  if decide (Some cb ∈ entries) then entries else entries ++ [Some cb].

(** [Set.prototype.delete]: the entry becomes a hole. *)
Definition set_delete (cb : EventCallback) (entries : SetData) : SetData :=
  (λ e, if decide (e = Some cb) then None else e) <$> entries.

(** [Set.prototype.size]: the entries that are not holes. *)
Definition set_size (entries : SetData) : nat :=
  length (omap id entries).

(** A timer handle is fresh and truthy. *)
Definition setTimeout (delay : number) (w : World) : nat * World :=
  let h := handles (host w) in
  (h, say (SetTimeout h delay)
        (upd_host (λ e, {| sockets := sockets e;
                           timeouts := <[h := delay]> (timeouts e);
                           intervals := intervals e;
                           handles := S h |}) w)).

Definition clearTimeout (h : nat) (w : World) : World :=
  say (ClearTimeout h)
    (upd_host (λ e, {| sockets := sockets e;
                       timeouts := delete h (timeouts e);
                       intervals := intervals e;
                       handles := handles e |}) w).

Definition setInterval (period : Z) (w : World) : nat * World :=
  let h := handles (host w) in
  (h, say (SetInterval h period)
        (upd_host (λ e, {| sockets := sockets e;
                           timeouts := timeouts e;
                           intervals := <[h := period]> (intervals e);
                           handles := S h |}) w)).

Definition clearInterval (h : nat) (w : World) : World :=
  say (ClearInterval h)
    (upd_host (λ e, {| sockets := sockets e;
                       timeouts := timeouts e;
                       intervals := delete h (intervals e);
                       handles := handles e |}) w).

Definition set_readyState (s : nat) (r : ReadyState) (e : Host) : Host :=
  {| sockets := alter (λ sock, {| url := url sock; readyState := r |}) s (sockets e);
     timeouts := timeouts e;
     intervals := intervals e;
     handles := handles e |}.

(** [ws.readyState === WebSocket.OPEN] on the socket behind a reference. *)
Definition is_open (s : nat) (w : World) : bool :=
  match sockets (host w) !! s with
  | Some sock => bool_decide (readyState sock = OPEN)
  | None => false
  end.

(** [ws.send(frame)]; the callers check [is_open] first. *)
Definition ws_send (s : nat) (frame : Envelope) (w : World) : World :=
  say (Send s frame) w.

(** [ws.close(code, reason)]: starts the closing handshake of a socket that
    is connecting or open, and does nothing to one that is closing or closed.
    The socket's [close] event comes later, from the host. *)
Definition ws_close (s : nat) (code : Z) (reason : string) (w : World) : World :=
  match sockets (host w) !! s with
  | Some sock =>
      match readyState sock with
      | CONNECTING | OPEN =>
          say (Close s code reason) (upd_host (set_readyState s CLOSING) w)
      | CLOSING | CLOSED => say (Close s code reason) w
      end
  | None => w
  end.

(** ** Dispatch: [off], [on], [once], [emit] *)

(** [log]: prints only in debug mode. *)
Definition log (message : string) (w : World) : World :=
  if debug (options (this w))
  then say (Console ("[Kalze:" +:+ name (this w) +:+ "] " +:+ message)) w
  else w.

(** [off(event, callback?)]: without a callback the whole entry of the map
    goes; with one, it is deleted from the event's set, and the entry goes
    when that leaves the set empty. *)
Definition off (ev : string) (callback : option EventCallback) (w : World) : World :=
  match callback with
  | None => upd_listeners (delete ev) w
  | Some cb =>
      match eventListeners w !! ev with
      | Some a =>
          let w := upd_heap (alter (set_delete cb) a) w in
          if decide (set_size (default [] (heap w !! a)) = 0%nat)
          then upd_listeners (delete ev) w
          else w
      | None => w
      end
  end.

(** The closure [() => this.off(event, callback)] that [on] returns. *)
Record Unsubscribe := {
  unsub_event : string;
  unsub_callback : EventCallback
}.

Definition call_unsubscribe (u : Unsubscribe) (w : World) : World :=
  off (unsub_event u) (Some (unsub_callback u)) w.

Definition on (ev : string) (cb : EventCallback) (w : World) : Unsubscribe * World :=
  let w := match eventListeners w !! ev with
           | Some _ => w
           | None => let '(a, w) := new_Set w in upd_listeners (<[ev := a]>) w
           end in
  let w := match eventListeners w !! ev with
           | Some a => upd_heap (alter (set_add cb) a) w
           | None => w
           end in
  ({| unsub_event := ev; unsub_callback := cb |}, w).

(** [once]: a fresh wrapper closure is what gets registered. *)
Definition once (ev : string) (callback : AppFn) (w : World) : Unsubscribe * World :=
  let wrapper := OnceWrapper (closures w) ev callback in
  on ev wrapper (upd_closures S w).

(** Calling an application function: whether it threw, and the world. *)
Definition call (f : AppFn) (arg : Data) (w : World) : bool * World :=
  (fn_throws f, say (Invoke (fn_id f) arg) w).

(** Calling a registered callback.  The [once] wrapper is
    [(data) => { this.off(event, wrapper); callback(data) }]. *)
Definition invoke (cb : EventCallback) (arg : Data) (w : World) : bool * World :=
  match cb with
  | Plain f => call f arg w
  | OnceWrapper _ ev f => call f arg (off ev (Some cb) w)
  end.

(** [for (const callback of listeners) body]: the iterator of a [Set] walks
    the live entry list by position, skipping holes, and stops at its end.
    [n] bounds the number of positions visited; no callback of the model adds
    an entry, so the length of the list at the start is enough. *)
Fixpoint forOf (n : nat) (a i : nat) (body : EventCallback → World → World)
    (w : World) : World :=
  match n with
  | O => w
  | S n' =>
      match heap w !! a with
      | Some entries =>
          match entries !! i with
          | Some (Some cb) => forOf n' a (S i) body (body cb w)
          | Some None => forOf n' a (S i) body w
          | None => w
          end
      | None => w
      end
  end.

(** One turn of either loop of [emit]: [try { callback(arg) } catch { log }]. *)
Definition deliver (arg : Data) (complaint : string) (cb : EventCallback)
    (w : World) : World :=
  let '(threw, w) := invoke cb arg w in
  if threw then log complaint w else w.

Definition for_listeners (ev : string) (arg : Data) (complaint : string)
    (w : World) : World :=
  match eventListeners w !! ev with
  | Some a =>
      forOf (length (default [] (heap w !! a))) a 0 (deliver arg complaint) w
  | None => w
  end.

(** [emit(event, data)]: the event's own listeners first, then the wildcard
    listeners, which get the pair of event and data.  The call itself is
    entered in the trace. *)
Definition emit (ev : string) (d : Data) (w : World) : World :=
  let w := say (Emit ev d) w in
  let w := for_listeners ev d ("Error in event listener for " +:+ ev) w in
  for_listeners "*" (DEnvelope ev d) "Error in wildcard listener" w.

(** ** Heartbeat *)

Definition stopHeartbeat (w : World) : World :=
  match heartbeatInterval (this w) with
  | Some h => upd_this (set_heartbeatInterval None) (clearInterval h w)
  | None => w
  end.

Definition ping : Envelope := {| env_event := "ping"; env_data := None |}.

(** The body of the periodic callback armed by [startHeartbeat]. *)
Definition heartbeat (w : World) : World :=
  match ws (this w) with
  | Some s => if is_open s w then ws_send s ping w else w
  | None => w
  end.

Definition startHeartbeat (w : World) : World :=
  let w := stopHeartbeat w in
  let '(h, w) := setInterval 25000 w in
  upd_this (set_heartbeatInterval (Some h)) w.

(** ** Reconnection *)

(** The integers a double holds exactly: those with at most 53 significant
    bits.  The numeric options are such integers. *)
Definition is_double (z : Z) : Prop :=
  ∃ m e, 0 ≤ e ∧ Z.abs m < 2 ^ 53 ∧ z = m * 2 ^ e.

(** [Math.pow(2, exponent)] for a natural exponent: the power itself up to
    2^1023, the largest power of two a double holds, and [Infinity] beyond. *)
Definition Math_pow2 (exponent : nat) : number :=
  if decide (exponent ≤ 1023)%nat then finite (2 ^ Z.of_nat exponent) else Infinity.

(** [base * x] in double precision, for an integer [base] that a double
    holds exactly and [x] a power of two or an infinity.  Multiplying by a
    power of two changes the exponent only, so the product is exact as long
    as it is below 2^1024 in magnitude and overflows to an infinity of its
    sign from there on; zero times an infinity is NaN. *)
Definition times (base : Z) (x : number) : number :=
  match x with
  | finite p =>
      if decide (Z.abs (base * p) < 2 ^ 1024) then finite (base * p)
      else if decide (0 < base * p) then Infinity else NegInfinity
  | Infinity =>
      if decide (base = 0) then NaN
      else if decide (0 < base) then Infinity else NegInfinity
  | NegInfinity =>
      if decide (base = 0) then NaN
      else if decide (0 < base) then NegInfinity else Infinity
  | NaN => NaN
  end.

(** [reconnectDelay * Math.pow(2, reconnectAttempts - 1)], [attempt] being
    the counter after its increment (so at least 1). *)
Definition backoff (base : Z) (attempt : nat) : number :=
  times base (Math_pow2 (attempt - 1)).

(** The delay in a template literal. *)
Definition number_to_string (x : number) : string :=
  match x with
  | finite z => pretty z
  | Infinity => "Infinity"
  | NegInfinity => "-Infinity"
  | NaN => "NaN"
  end.

Definition scheduleReconnect (w : World) : World :=
  if negb (autoReconnect (options (this w))) then w
  else if bool_decide (maxReconnectAttempts (options (this w))
                         ≤ Z.of_nat (reconnectAttempts (this w)))
  then
    let w := log "Max reconnect attempts reached" w in
    emit "reconnect:failed" (DReconnectFailed (reconnectAttempts (this w))) w
  else
    let w := upd_this (set_reconnectAttempts (S (reconnectAttempts (this w)))) w in
    let delay := backoff (reconnectDelay (options (this w)))
                         (reconnectAttempts (this w)) in
    let w := log ("Scheduling reconnect attempt "
                    +:+ pretty (reconnectAttempts (this w))
                    +:+ " in " +:+ number_to_string delay +:+ "ms") w in
    let w := emit "reconnecting"
                  (DReconnecting (reconnectAttempts (this w)) delay) w in
    let '(h, w) := setTimeout delay w in
    upd_this (set_reconnectTimeout (Some h)) w.

(** ** Key format and close codes *)

Fixpoint strip_prefix (p s : string) : option string :=
  match p with
  | EmptyString => Some s
  | String c p' =>
      match s with
      | String c' s' => if decide (c = c') then strip_prefix p' s' else None
      | EmptyString => None
      end
  end.

Fixpoint all_chars (ok : Ascii.ascii → bool) (s : string) : bool :=
  match s with
  | EmptyString => true
  | String c s' => ok c && all_chars ok s'
  end.

(** The character class [[A-Za-z0-9_-]]. *)
Definition url_safe (c : Ascii.ascii) : bool :=
  let n := Ascii.N_of_ascii c in
  ((65 <=? n) && (n <=? 90) || (97 <=? n) && (n <=? 122)
   || (48 <=? n) && (n <=? 57) || (n =? 95) || (n =? 45))%N.

(** [/^wpk_live_[A-Za-z0-9_-]{43}$/.test(key)] *)
Definition isValidPublicKey (k : string) : bool :=
  match strip_prefix "wpk_live_" k with
  | Some token => bool_decide (String.length token = 43%nat) && all_chars url_safe token
  | None => false
  end.

(** [string | null], the empty reason being falsy. *)
Definition getCloseReasonMessage (code : Z) (reason : string) : option string :=
  if negb (bool_decide (reason = "")) then Some reason
  else if code =? 4401 then Some "Missing API key (?key=...)"
  else if code =? 4403 then Some "Invalid API key"
  else if code =? 4408 then Some "Connection limit exceeded"
  else if code =? 4000 then Some "Invalid path. Expected /c/:subdomain/:channel"
  else if 4000 <=? code then Some ("Connection rejected (" +:+ pretty code +:+ ")")
  else None.

(** The close codes after which [handleClose] does not reconnect. *)
Definition no_reconnect (code : Z) : bool :=
  (code =? 4000) || (code =? 4001) || (code =? 4002) || (code =? 4401)
  || (code =? 4403) || (code =? 4408) || (code =? 4999).

(** The same test in the compiled [dist/client.js]. *)
Definition dist_no_reconnect (code : Z) : bool :=
  (code =? 4000) || (code =? 4001) || (code =? 4002) || (code =? 4999).

(** ** Connection lifecycle *)

Section Lifecycle.

(** The addresses on which the host's [new WebSocket(url)] throws. *)
Variable rejects : string → bool.

Definition new_WebSocket (address : string) (w : World) : option (nat * World) :=
  if rejects address then None
  else
    let s := length (sockets (host w)) in
    Some (s, say (NewWebSocket s address)
               (upd_host (λ e, {| sockets := sockets e
                                      ++ [{| url := address; readyState := CONNECTING |}];
                                  timeouts := timeouts e;
                                  intervals := intervals e;
                                  handles := handles e |}) w)).

Definition address_of (c : KalzeChannel) : string :=
  wsUrl (options c) +:+ "/c/" +:+ subdomain (options c) +:+ "/" +:+ name c
    +:+ "?key=" +:+ key (options c).

(** What [connect] does once it has decided to open the transport; shared by
    the source module and the compiled build.  The four handlers set on the
    new socket are the same closures over the channel for every socket, so
    they are not stored: an event of any socket of this channel runs the
    handler of its kind (see [step]). *)
Definition open_transport (w : World) : World :=
  let w := upd_this (set_state (if decide (0 < reconnectAttempts (this w))%nat
                                then reconnecting else connecting)) w in
  let w := emit "state:change" (DState (state (this w))) w in
  let address := address_of (this w) in
  let w := log ("Connecting to " +:+ address) w in
  match new_WebSocket address w with
  | Some (s, w) => upd_this (set_ws (Some s)) w
  | None =>
      let w := log "Connection error" w in
      let w := emit "error" (DError None "Failed to connect") w in
      scheduleReconnect w
  end.

Definition connect (w : World) : World :=
  if bool_decide (state (this w) = connecting ∨ state (this w) = connected) then w
  else if negb (isValidPublicKey (key (options (this w)))) then
    emit "error"
      (DError (Some 4403) "Invalid public API key format. Expected wpk_live_*") w
  else open_transport w.

(** [connect] of [dist/client.js]: no check of the key. *)
Definition dist_connect (w : World) : World :=
  if bool_decide (state (this w) = connecting ∨ state (this w) = connected) then w
  else open_transport w.

(** A JSON value in a template literal. *)
Fixpoint Json_to_string (j : Json) : string :=
  match j with
  | JNull => "null"
  | JBool b => if b then "true" else "false"
  | JNum n => pretty n
  | JStr s => s
  | JArr items =>
      String.concat ","
        (List.map (λ x, match x with JNull => "" | _ => Json_to_string x end) items)
  | JObj _ => "[object Object]"
  end.

Definition JsValue_to_string (v : JsValue) : string :=
  match v with
  | undefined => "undefined"
  | parsed j => Json_to_string j
  end.

(** [object[k]] on a parsed object: [JSON.parse] keeps the last of the
    members that share a key. *)
Fixpoint property (k : string) (fields : list (string * Json)) : JsValue :=
  match fields with
  | [] => undefined
  | (k', v) :: rest =>
      match property k rest with
      | undefined => if decide (k' = k) then parsed v else undefined
      | found => found
      end
  end.

(** [data.socketId] on a payload of any shape.  Reading the property throws
    when the payload is [null] or [undefined] ([None]); a primitive, an array
    and an object without the key give [undefined]. *)
Definition socketId_property (payload : Data) : option JsValue :=
  match payload with
  | DEstablished d => Some (parsed (JStr (socketId_of d)))
  | DJson JNull | DUndefined => None
  | DJson (JObj fields) => Some (property "socketId" fields)
  | _ => Some undefined
  end.

(** The body of [handleConnectionEstablished] on the payload as it is at run
    time, [id] being what [data.socketId] evaluated to: the cast of
    [message.data] to [ConnectionEstablished] checks nothing. *)
Definition established (id : JsValue) (payload : Data) (w : World) : World :=
  let w := upd_this (set_socketId id) w in
  let w := upd_this (set_state connected) w in
  let w := upd_this (set_reconnectAttempts 0) w in
  let w := startHeartbeat w in
  let w := emit "connected" payload w in
  let w := emit "state:change" (DState (state (this w))) w in
  log ("Connected with socket ID: " +:+ JsValue_to_string (socketId (this w))) w.

(** [handleConnectionEstablished] on a payload of its declared type. *)
Definition handleConnectionEstablished (d : ConnectionEstablished) (w : World) : World :=
  established (parsed (JStr (socketId_of d))) (DEstablished d) w.

(** [handleMessage]: [None] is a frame on which [JSON.parse] throws.  The
    handshake's payload goes to [handleConnectionEstablished] whatever its
    shape; reading [data.socketId] of [null] or [undefined] throws inside the
    [try], before any field is assigned. *)
Definition handleMessage (raw : option ServerMessage) (w : World) : World :=
  match raw with
  | None => log "Failed to parse message" w
  | Some message =>
      let w := log "Received:" w in
      if decide (event message = "connection:established") then
        match socketId_property (data message) with
        | Some id => established id (data message) w
        | None => log "Failed to parse message" w
        end
      else if decide (event message = "pong") then w
      else emit (event message) (data message) w
  end.

(** The part of [handleClose] after the error event, up to the decision to
    reconnect; shared by the source module and the compiled build. *)
Definition close_transition (code : Z) (reason : string) (w : World) : World :=
  let w := stopHeartbeat w in
  let w := upd_this (set_ws None) w in
  let w := upd_this (set_socketId null) w in
  let w := upd_this (set_state disconnected) w in
  let w := emit "disconnected" (DDisconnected code reason) w in
  emit "state:change" (DState (state (this w))) w.

Definition handleClose (code : Z) (reason : string) (w : World) : World :=
  let w := log ("Connection closed: " +:+ pretty code +:+ " - " +:+ reason) w in
  let w := match getCloseReasonMessage code reason with
           | Some mappedMessage =>
               if decide (mappedMessage = "") then w
               else emit "error" (DError (Some code) mappedMessage) w
           | None => w
           end in
  let w := close_transition code reason w in
  if no_reconnect code then log "Not reconnecting due to error code" w
  else scheduleReconnect w.

(** [handleClose] of [dist/client.js]: no error event, fewer final codes. *)
Definition dist_handleClose (code : Z) (reason : string) (w : World) : World :=
  let w := log ("Connection closed: " +:+ pretty code +:+ " - " +:+ reason) w in
  let w := close_transition code reason w in
  if dist_no_reconnect code then log "Not reconnecting due to error code" w
  else scheduleReconnect w.

(** ** Public API *)

Definition client_event (payload : Json) : Envelope :=
  {| env_event := "client:event"; env_data := Some payload |}.

Definition trigger (payload : Json) (w : World) : World :=
  match ws (this w) with
  | Some s =>
      if is_open s w then ws_send s (client_event payload) w
      else log "Cannot trigger event: not connected" w
  | None => log "Cannot trigger event: not connected" w
  end.

Definition disconnect (w : World) : World :=
  let w := match reconnectTimeout (this w) with
           | Some h => upd_this (set_reconnectTimeout None) (clearTimeout h w)
           | None => w
           end in
  let w := stopHeartbeat w in
  let w := match ws (this w) with
           | Some s => upd_this (set_ws None) (ws_close s 1000 "Client disconnect" w)
           | None => w
           end in
  let w := upd_this (set_socketId null) w in
  let w := upd_this (set_state disconnected) w in
  upd_listeners (λ _, ∅) w.

Definition isConnected (w : World) : bool :=
  bool_decide (state (this w) = connected).

Definition getSocketId (w : World) : JsValue := socketId (this w).

Definition getState (w : World) : ConnectionState := state (this w).

(** ** Construction *)

Definition resolve (o : KalzeOptions) : RequiredOptions :=
  {| key := opt_key o;
     subdomain := opt_subdomain o;
     wsUrl := match opt_wsUrl o with
              | Some u => if decide (u = "") then DEFAULT_WS_URL else u
              | None => DEFAULT_WS_URL
              end;
     autoReconnect := default true (opt_autoReconnect o);
     maxReconnectAttempts := default 10 (opt_maxReconnectAttempts o);
     reconnectDelay := default 1000 (opt_reconnectDelay o);
     debug := default false (opt_debug o) |}.

(** The object before the constructor calls [connect], in a host that has
    no socket and no timer of this channel yet. *)
Definition fresh (channelName : string) (o : KalzeOptions) : World :=
  {| this := {| name := channelName; options := resolve o; ws := None;
                socketId := null; state := disconnected;
                reconnectAttempts := 0; reconnectTimeout := None;
                heartbeatInterval := None |};
     eventListeners := ∅;
     heap := [];
     closures := 0;
     host := {| sockets := []; timeouts := ∅; intervals := ∅; handles := 1 |};
     trace := [] |}.

Definition new_KalzeChannel (channelName : string) (o : KalzeOptions) : World :=
  connect (fresh channelName o).

Definition dist_new_KalzeChannel (channelName : string) (o : KalzeOptions) : World :=
  dist_connect (fresh channelName o).

(** ** The event loop

    Everything that can happen to a channel after its construction: the host
    delivers an event of one of its sockets or fires one of its timers, or
    the application calls a public method.  Each action runs to completion
    before the next one starts. *)

Inductive Action :=
| SocketOpen (s : nat)
| SocketMessage (s : nat) (raw : option ServerMessage)
| SocketError (s : nat)
| SocketClose (s : nat) (code : Z) (reason : string)
| TimeoutFires (h : nat)
| IntervalFires (h : nat)
| CallOn (ev : string) (callback : AppFn)
| CallOnce (ev : string) (callback : AppFn)
| CallOff (ev : string) (callback : option EventCallback)
| CallTrigger (payload : Json)
| CallDisconnect.

Definition socket_state (s : nat) (w : World) : option ReadyState :=
  readyState <$> sockets (host w) !! s.

(** The host delivers [open] to a connecting socket, [message] to an open
    one, [error] and [close] to one that is not closed yet (it is closed when
    its [close] handler runs); a one-shot timer fires once and is gone.
    [None]: the action cannot happen in this world. *)
Definition step (a : Action) (w : World) : option World :=
  match a with
  | SocketOpen s =>
      match socket_state s w with
      | Some CONNECTING =>
          Some (log "Connection opened" (upd_host (set_readyState s OPEN) w))
      | _ => None
      end
  | SocketMessage s raw =>
      match socket_state s w with
      | Some OPEN => Some (handleMessage raw w)
      | _ => None
      end
  | SocketError s =>
      match socket_state s w with
      | Some CLOSED | None => None
      | Some _ =>
          Some (emit "error" (DError None "WebSocket error") (log "WebSocket error" w))
      end
  | SocketClose s code reason =>
      match socket_state s w with
      | Some CLOSED | None => None
      | Some _ => Some (handleClose code reason (upd_host (set_readyState s CLOSED) w))
      end
  | TimeoutFires h =>
      match timeouts (host w) !! h with
      | Some _ =>
          Some (connect (upd_host (λ e, {| sockets := sockets e;
                                           timeouts := delete h (timeouts e);
                                           intervals := intervals e;
                                           handles := handles e |}) w))
      | None => None
      end
  | IntervalFires h =>
      match intervals (host w) !! h with
      | Some _ => Some (heartbeat w)
      | None => None
      end
  | CallOn ev f => Some (on ev (Plain f) w).2
  | CallOnce ev f => Some (once ev f w).2
  | CallOff ev cb => Some (off ev cb w)
  | CallTrigger payload => Some (trigger payload w)
  | CallDisconnect => Some (disconnect w)
  end.

Fixpoint run (actions : list Action) (w : World) : option World :=
  match actions with
  | [] => Some w
  | a :: rest =>
      match step a w with
      | Some w' => run rest w'
      | None => None
      end
  end.

(** The worlds a channel built by the constructor can be in. *)
Definition reachable (w : World) : Prop :=
  ∃ channelName o actions, run actions (new_KalzeChannel channelName o) = Some w.

(** ** Reading the trace *)

Definition emitted (t : list Obs) : list (string * Data) :=
  omap (λ o, match o with Emit ev d => Some (ev, d) | _ => None end) t.

Definition invoked (t : list Obs) : list (nat * Data) :=
  omap (λ o, match o with Invoke f arg => Some (f, arg) | _ => None end) t.

Definition armed (t : list Obs) : list (nat * number) :=
  omap (λ o, match o with SetTimeout h delay => Some (h, delay) | _ => None end) t.

Definition opened (t : list Obs) : list (nat * string) :=
  omap (λ o, match o with NewWebSocket s address => Some (s, address) | _ => None end) t.

Definition sent (t : list Obs) : list (nat * Envelope) :=
  omap (λ o, match o with Send s frame => Some (s, frame) | _ => None end) t.

(** What a dispatch leaves alone: the scalar fields, the host, and every
    kind of trace entry but callback invocations and console lines. *)
Definition outside (w : World) :=
  (this w, host w, closures w, emitted (trace w), armed (trace w),
   opened (trace w), sent (trace w)).

End Lifecycle.

(** ** Vocabulary of the properties *)

(** The close codes that end the channel for good, in the order normal
    closure, going-away, protocol-error, unauthorized, forbidden, timeout,
    custom terminal code (all in the server's reserved range). *)
Definition terminal_codes : list Z := [4000; 4001; 4002; 4401; 4403; 4408; 4999].

(** The error event that precedes [disconnected], if any. *)
Definition close_error (code : Z) (reason : string) : list (string * Data) :=
  match getCloseReasonMessage code reason with
  | Some message => [("error", DError (Some code) message)]
  | None => []
  end.

Definition disconnected_events (code : Z) (reason : string) : list (string * Data) :=
  [("disconnected", DDisconnected code reason); ("state:change", DState disconnected)].

(** [handleClose] up to its decision to reconnect. *)
Definition closing (code : Z) (reason : string) (w : World) : World :=
  let w := log ("Connection closed: " +:+ pretty code +:+ " - " +:+ reason) w in
  let w := match getCloseReasonMessage code reason with
           | Some mappedMessage =>
               if decide (mappedMessage = "") then w
               else emit "error" (DError (Some code) mappedMessage) w
           | None => w
           end in
  close_transition code reason w.

(** No identifier: [null], or [undefined]. *)
Definition nullish (v : JsValue) : Prop := v = null ∨ v = undefined.

(** The session identifier is there exactly while the channel is connected. *)
Definition session_inv (w : World) : Prop :=
  ¬ nullish (socketId (this w)) ↔ state (this w) = connected.

Definition session (w : World) : JsValue * ConnectionState :=
  (socketId (this w), state (this w)).

(** A frame that, if it is a handshake, carries an identifier: its
    [socketId] is neither [null] nor missing.  A payload of the declared type
    [ConnectionEstablished] always does. *)
Definition identifies (raw : option ServerMessage) : Prop :=
  ∀ message id,
    raw = Some message → event message = "connection:established" →
    socketId_property (data message) = Some id → ¬ nullish id.

(** The methods of the channel, private and public, as one type. *)
Inductive Operation :=
| Connect
| HandleMessage (raw : option ServerMessage)
| HandleConnectionEstablished (d : ConnectionEstablished)
| HandleClose (code : Z) (reason : string)
| ScheduleReconnect
| StartHeartbeat
| StopHeartbeat
| Heartbeat
| EmitEvent (ev : string) (d : Data)
| On (ev : string) (cb : EventCallback)
| Once (ev : string) (callback : AppFn)
| Off (ev : string) (cb : option EventCallback)
| Trigger (payload : Json)
| Disconnect.

Definition perform (rejects : string → bool) (op : Operation) (w : World) : World :=
  match op with
  | Connect => connect rejects w
  | HandleMessage raw => handleMessage raw w
  | HandleConnectionEstablished d => handleConnectionEstablished d w
  | HandleClose code reason => handleClose code reason w
  | ScheduleReconnect => scheduleReconnect w
  | StartHeartbeat => startHeartbeat w
  | StopHeartbeat => stopHeartbeat w
  | Heartbeat => heartbeat w
  | EmitEvent ev d => emit ev d w
  | On ev cb => (on ev cb w).2
  | Once ev f => (once ev f w).2
  | Off ev cb => off ev cb w
  | Trigger payload => trigger payload w
  | Disconnect => disconnect w
  end.

(** The callbacks registered for an event, in insertion order. *)
Definition members (ev : string) (w : World) : list EventCallback :=
  match eventListeners w !! ev with
  | Some a => omap id (default [] (heap w !! a))
  | None => []
  end.

(** Every [Set] object of the heap holds a value at most once. *)
Definition sets_ok (w : World) : Prop :=
  ∀ a entries, heap w !! a = Some entries → NoDup (omap id entries).

(** The listener map as [on], [once] and [off] build it: no two events
    share a [Set] object, and a [once] wrapper sits in the set of the event
    it was made for. *)
Definition registry_ok (w : World) : Prop :=
  ∀ ev a, eventListeners w !! ev = Some a →
    (∀ ev', eventListeners w !! ev' = Some a → ev' = ev)
    ∧ (∀ entries wid ev' f, heap w !! a = Some entries →
         Some (OnceWrapper wid ev' f) ∈ entries → ev' = ev).

Definition well_formed (w : World) : Prop := sets_ok w ∧ registry_ok w.

(** What the loop over the set of [ev] at address [a] keeps of a world: the
    entry of any other event in the map, every other set object, and that
    the wrappers in the set are those of [ev]. *)
Definition loop_frame (w0 : World) (ev : string) (a : nat) (w : World) : Prop :=
  (∀ ev', ev' ≠ ev → eventListeners w !! ev' = eventListeners w0 !! ev')
  ∧ (∀ a', a' ≠ a → heap w !! a' = heap w0 !! a')
  ∧ (eventListeners w !! ev = Some a ∨ eventListeners w !! ev = None)
  ∧ (∀ entries wid ev' f, heap w !! a = Some entries →
       Some (OnceWrapper wid ev' f) ∈ entries → ev' = ev).

(** One call of the application function behind each callback, in order. *)
Definition deliveries (arg : Data) (cbs : list EventCallback) : list (nat * Data) :=
  (λ cb, (fn_id (target cb), arg)) <$> cbs.

(** The sockets that are not closed yet. *)
Definition live_count (socks : list WebSocket) : nat :=
  length (filter (λ sock, readyState sock ≠ CLOSED) socks).

(** What can still call back into the channel to make it connect: a socket
    that will close, or a reconnect timer that will fire. *)
Definition in_flight (w : World) : nat :=
  (live_count (sockets (host w)) + size (timeouts (host w)))%nat.

(** Nothing is left that could call back: every socket is closed and no
    timer is pending. *)
Definition quiescent (w : World) : Prop :=
  live_count (sockets (host w)) = 0%nat ∧ timeouts (host w) = ∅.

Definition flight (w : World) : list WebSocket * gmap nat number :=
  (sockets (host w), timeouts (host w)).

(** What a channel with a malformed key stays in for good. *)
Definition refused (w : World) : Prop :=
  isValidPublicKey (key (options (this w))) = false
  ∧ state (this w) = disconnected
  ∧ reconnectAttempts (this w) = 0%nat
  ∧ opened (trace w) = []
  ∧ quiescent w.


(** ** Sample inputs for the concrete runs *)

(** A host whose [WebSocket] constructor accepts every address. *)
Definition accepts : string → bool := λ _, false.

Definition sample_key : string := "wpk_live_ABCDEFGHIJKLMNOPQRSTUVWXYZabcdefghijklmnopq".

(** [{ key, subdomain }] with a well-formed key: every default applies. *)
Definition sample_options : KalzeOptions :=
  {| opt_key := sample_key; opt_subdomain := "acme"; opt_wsUrl := None;
     opt_autoReconnect := None; opt_maxReconnectAttempts := None;
     opt_reconnectDelay := None; opt_debug := None |}.

(** The same with the key ["bad-key"]. *)
Definition bad_key_options : KalzeOptions :=
  {| opt_key := "bad-key"; opt_subdomain := "acme"; opt_wsUrl := None;
     opt_autoReconnect := None; opt_maxReconnectAttempts := None;
     opt_reconnectDelay := None; opt_debug := None |}.

(** [{ autoReconnect: false, maxReconnectAttempts: 0 }] *)
Definition no_retry_options : KalzeOptions :=
  {| opt_key := sample_key; opt_subdomain := "acme"; opt_wsUrl := None;
     opt_autoReconnect := Some false; opt_maxReconnectAttempts := Some 0;
     opt_reconnectDelay := None; opt_debug := None |}.

Definition sample_address : string :=
  "wss://ws.websocket.cl/c/acme/room?key=wpk_live_ABCDEFGHIJKLMNOPQRSTUVWXYZabcdefghijklmnopq".

Definition sample_established : ConnectionEstablished :=
  {| socketId_of := "sock-1"; channel_of := "room"; subdomain_of := "acme";
     timestamp_of := 1700000000000 |}.

Definition established_frame : option ServerMessage :=
  Some {| event := "connection:established"; data := DEstablished sample_established |}.

(** [{ maxReconnectAttempts: 0 }]: reconnection on, no attempt allowed. *)
Definition exhausted_options : KalzeOptions :=
  {| opt_key := sample_key; opt_subdomain := "acme"; opt_wsUrl := None;
     opt_autoReconnect := None; opt_maxReconnectAttempts := Some 0;
     opt_reconnectDelay := None; opt_debug := None |}.

(** The channel [new KalzeChannel("room", o)] after a run of the event loop. *)
Definition after (o : KalzeOptions) (actions : list Action) : option World :=
  run accepts actions (new_KalzeChannel accepts "room" o).

(** The same for the compiled build, just constructed. *)
Definition dist_channel (o : KalzeOptions) : World :=
  dist_new_KalzeChannel accepts "room" o.

Definition first_fn : AppFn := {| fn_id := 1; fn_throws := false |}.
Definition second_fn : AppFn := {| fn_id := 2; fn_throws := true |}.
Definition third_fn : AppFn := {| fn_id := 3; fn_throws := false |}.
Definition wild_fn : AppFn := {| fn_id := 4; fn_throws := false |}.

(** A channel with three listeners of ["foo"], the second one registered
    with [once], and a wildcard listener. *)
Definition listening : list Action :=
  [CallOn "foo" first_fn; CallOnce "foo" second_fn; CallOn "foo" third_fn;
   CallOn "*" wild_fn].

(** Every entry of the listener map points to a [Set] object that exists. *)
Definition allocated (w : World) : Prop :=
  ∀ ev a, eventListeners w !! ev = Some a → is_Some (heap w !! a).

(** What [on], [once], [off] and the dispatch keep of the listener map. *)
Definition registry_inv (w : World) : Prop := well_formed w ∧ allocated w.

(** The callbacks that can be registered for an event through the public
    API: any application function, and the wrappers [once] made for it. *)
Definition fits (ev : string) (cb : EventCallback) : Prop :=
  match cb with
  | Plain _ => True
  | OnceWrapper _ ev' _ => ev' = ev
  end.


(** ** The client: a registry of channels

    [Kalze] holds a [Map<string, KalzeChannel>].  The channel objects live in
    [objects] (an object's reference is its position, and each object is the
    world of that channel, with its own sockets and timers); [channels] is the
    map, in insertion order, from a channel name to a reference. *)

Record Kalze := {
  kalze_options : KalzeOptions;
  channels : list (string * nat);
  objects : list World
}.

(** [Map.prototype.get] *)
Fixpoint Map_get (k : string) (m : list (string * nat)) : option nat :=
  match m with
  | [] => None
  | (k', v) :: rest => if decide (k' = k) then Some v else Map_get k rest
  end.

(** [Map.prototype.delete] *)
Definition Map_delete (k : string) (m : list (string * nat)) : list (string * nat) :=
  filter (λ entry, entry.1 ≠ k) m.

(** The constructor; [inl] is the message of the [Error] it throws. *)
Definition new_Kalze (o : KalzeOptions) : string + Kalze :=
  if decide (opt_key o = "") then inl "API key is required"
  else if decide (opt_subdomain o = "") then inl "Subdomain is required"
  else inr {| kalze_options := o; channels := []; objects := [] |}.

(** [subscribe] returns the reference of the channel. [Map.prototype.set] is
    only reached for a name that is not in the map, where it appends. *)
Definition subscribe (rejects : string → bool) (channelName : string) (k : Kalze)
    : nat * Kalze :=
  match Map_get channelName (channels k) with
  | Some channel => (channel, k)
  | None =>
      let channel := length (objects k) in
      (channel,
       {| kalze_options := kalze_options k;
          channels := channels k ++ [(channelName, channel)];
          objects := objects k
                       ++ [new_KalzeChannel rejects channelName (kalze_options k)] |})
  end.

Definition unsubscribe (channelName : string) (k : Kalze) : Kalze :=
  match Map_get channelName (channels k) with
  | Some channel =>
      {| kalze_options := kalze_options k;
         channels := Map_delete channelName (channels k);
         objects := alter disconnect channel (objects k) |}
  | None => k
  end.

Definition getChannels (k : Kalze) : list string := (channels k).*1.

Definition getChannel (channelName : string) (k : Kalze) : option nat :=
  Map_get channelName (channels k).

Definition disconnectAll (k : Kalze) : Kalze :=
  {| kalze_options := kalze_options k;
     channels := [];
     objects := foldl (λ objs entry, alter disconnect entry.2 objs)
                      (objects k) (channels k) |}.

(** An action of the event loop on one of the channel objects. *)
Definition channel_step (rejects : string → bool) (channel : nat) (a : Action)
    (k : Kalze) : option Kalze :=
  match objects k !! channel with
  | Some w =>
      match step rejects a w with
      | Some w' =>
          Some {| kalze_options := kalze_options k;
                  channels := channels k;
                  objects := <[channel := w']> (objects k) |}
      | None => None
      end
  | None => None
  end.

(** What the methods of the client keep: every name is in the map once,
    every reference is of an object that exists, and no two names share an
    object. *)
Definition client_ok (k : Kalze) : Prop :=
  NoDup (channels k).*1
  ∧ NoDup (channels k).*2
  ∧ ∀ channelName channel, (channelName, channel) ∈ channels k →
      (channel < length (objects k))%nat.

(** What [disconnect] leaves of a channel object. *)
Definition torn_down (w : World) : Prop :=
  state (this w) = disconnected
  ∧ ws (this w) = None
  ∧ socketId (this w) = null
  ∧ reconnectTimeout (this w) = None
  ∧ heartbeatInterval (this w) = None
  ∧ eventListeners w = ∅.

(** ** More vocabulary *)

(** The periodic timers of the host are exactly the heartbeat the channel
    remembers, and it remembers one exactly while it is connected. *)
Definition heartbeat_inv (w : World) : Prop :=
  intervals (host w)
  = match heartbeatInterval (this w) with
    | Some h => {[h := 25000]}
    | None => ∅
    end
  ∧ (heartbeatInterval (this w) ≠ None ↔ state (this w) = connected).

(** The attempt counter is within [maxReconnectAttempts]. *)
Definition attempts_bounded (w : World) : Prop :=
  Z.of_nat (reconnectAttempts (this w))
  ≤ Z.max 0 (maxReconnectAttempts (options (this w))).

(** The name and the options of a channel. *)
Definition identity (w : World) : string * RequiredOptions :=
  (name (this w), options (this w)).

Definition is_plain (cb : EventCallback) : Prop :=
  match cb with
  | Plain _ => True
  | OnceWrapper _ _ _ => False
  end.

Global Instance is_plain_dec cb : Decision (is_plain cb).
Proof. destruct cb; cbn; apply _. Defined.

(** A host whose [WebSocket] constructor throws on every address. *)
Definition refuses : string → bool := λ _, true.

(** A channel in good order: it still has the name and options it was
    built with, its counter is within bounds and its heartbeat is as its
    state says. *)
Definition steady (channelName : string) (o : RequiredOptions) (w : World) : Prop :=
  identity w = (channelName, o) ∧ attempts_bounded w ∧ heartbeat_inv w.

(** A client with the channels ["room"] and ["lobby"]. *)
Definition sample_client : Kalze :=
  (subscribe accepts "lobby"
     (subscribe accepts "room"
        {| kalze_options := sample_options; channels := []; objects := [] |}).2).2.

(** The channel cannot become active again: it has no socket, and either no
    timer is pending or the one that is will find the state [connecting]. *)
Definition stalled (w : World) : Prop :=
  sockets (host w) = []
  ∧ (state (this w) = connecting ∨ state (this w) = disconnected)
  ∧ (timeouts (host w) = ∅
     ∨ (state (this w) = connecting
        ∧ ∃ h delay, reconnectTimeout (this w) = Some h
                     ∧ timeouts (host w) = {[h := delay]})).


(** The operations and the actions of the event loop in which every
    handshake that is handled carries an identifier. *)
Definition admissible (op : Operation) : Prop :=
  match op with
  | HandleMessage raw => identifies raw
  | _ => True
  end.

Definition identified (a : Action) : Prop :=
  match a with
  | SocketMessage _ raw => identifies raw
  | _ => True
  end.

(** Two handshakes that a server can send and that carry no identifier:
    [{socketId: null}] and [{}]. *)
Definition null_handshake : option ServerMessage :=
  Some {| event := "connection:established";
          data := DJson (JObj [("socketId", JNull)]) |}.

Definition empty_handshake : option ServerMessage :=
  Some {| event := "connection:established"; data := DJson (JObj []) |}.

(** [{ reconnectDelay: 2 ** 1023, maxReconnectAttempts: 10 }]: the base
    delay is the largest power of two a double holds. *)
Definition huge_delay_options : KalzeOptions :=
  {| opt_key := sample_key; opt_subdomain := "acme"; opt_wsUrl := None;
     opt_autoReconnect := None; opt_maxReconnectAttempts := None;
     opt_reconnectDelay := Some (2 ^ 1023); opt_debug := None |}.

(** * Properties *)

(** ** Reading the trace, one entry at a time *)

Lemma emitted_app t1 t2 : emitted (t1 ++ t2) = emitted t1 ++ emitted t2.
Proof. apply omap_app. Qed.

Lemma invoked_app t1 t2 : invoked (t1 ++ t2) = invoked t1 ++ invoked t2.
Proof. apply omap_app. Qed.

Lemma armed_app t1 t2 : armed (t1 ++ t2) = armed t1 ++ armed t2.
Proof. apply omap_app. Qed.

Lemma opened_app t1 t2 : opened (t1 ++ t2) = opened t1 ++ opened t2.
Proof. apply omap_app. Qed.

Lemma sent_app t1 t2 : sent (t1 ++ t2) = sent t1 ++ sent t2.
Proof. apply omap_app. Qed.

(** ** What [log] and the dispatch loops leave alone *)

Lemma log_cases message w :
  log message w = w
  ∨ log message w = say (Console ("[Kalze:" +:+ name (this w) +:+ "] " +:+ message)) w.
Proof. unfold log. destruct (debug _); auto. Qed.

Lemma log_outside message w : outside (log message w) = outside w.
Proof.
  destruct (log_cases message w) as [-> | ->]; [done |].
  unfold outside, say; simpl.
  by rewrite emitted_app, armed_app, opened_app, sent_app, !app_nil_r.
Qed.

Lemma log_heap message w : heap (log message w) = heap w.
Proof. by destruct (log_cases message w) as [-> | ->]. Qed.

Lemma log_listeners message w : eventListeners (log message w) = eventListeners w.
Proof. by destruct (log_cases message w) as [-> | ->]. Qed.

Lemma log_invoked message w : invoked (trace (log message w)) = invoked (trace w).
Proof.
  destruct (log_cases message w) as [-> | ->]; [done |].
  simpl. by rewrite invoked_app, app_nil_r.
Qed.

Lemma off_outside ev cb w : outside (off ev cb w) = outside w.
Proof.
  unfold off. destruct cb as [cb |]; [| done].
  destruct (eventListeners w !! ev); [| done].
  by case_decide.
Qed.

Lemma off_trace ev cb w : trace (off ev cb w) = trace w.
Proof.
  unfold off. destruct cb as [cb |]; [| done].
  destruct (eventListeners w !! ev); [| done].
  by case_decide.
Qed.

Lemma invoke_outside cb arg w : outside (invoke cb arg w).2 = outside w.
Proof.
  destruct cb as [f | wid ev f]; simpl.
  - unfold outside; simpl.
    by rewrite emitted_app, armed_app, opened_app, sent_app, !app_nil_r.
  - rewrite <- (off_outside ev (Some (OnceWrapper wid ev f)) w).
    unfold outside; simpl.
    by rewrite emitted_app, armed_app, opened_app, sent_app, !app_nil_r.
Qed.

Lemma deliver_outside arg complaint cb w :
  outside (deliver arg complaint cb w) = outside w.
Proof.
  unfold deliver. pose proof (invoke_outside cb arg w) as H.
  destruct (invoke cb arg w) as [threw w']; simpl in H.
  destruct threw; [by rewrite log_outside | done].
Qed.

(** A property that every turn of the loop keeps is kept by the loop. *)
Lemma forOf_preserves (P : World → Prop) body :
  (∀ cb w, P w → P (body cb w)) →
  ∀ n a i w, P w → P (forOf n a i body w).
Proof.
  intros Hbody n a. induction n as [| n IH]; intros i w Hw; simpl; [done |].
  destruct (heap w !! a) as [entries |]; [| done].
  destruct (entries !! i) as [[cb |] |]; auto.
Qed.

Lemma for_listeners_outside ev arg complaint w :
  outside (for_listeners ev arg complaint w) = outside w.
Proof.
  unfold for_listeners. destruct (eventListeners w !! ev) as [a |]; [| done].
  apply (forOf_preserves (λ w', outside w' = outside w)); [| done].
  intros cb w' Hw'. by rewrite deliver_outside.
Qed.

Lemma emit_outside ev d w :
  outside (emit ev d w)
  = (this w, host w, closures w, emitted (trace w) ++ [(ev, d)],
     armed (trace w), opened (trace w), sent (trace w)).
Proof.
  unfold emit. rewrite !for_listeners_outside.
  unfold outside; simpl.
  by rewrite emitted_app, armed_app, opened_app, sent_app, !app_nil_r.
Qed.

Lemma log_this message w : this (log message w) = this w.
Proof. pose proof (log_outside message w) as H. unfold outside in H. by simplify_eq. Qed.

Lemma log_host message w : host (log message w) = host w.
Proof. pose proof (log_outside message w) as H. unfold outside in H. by simplify_eq. Qed.

Lemma log_emitted message w : emitted (trace (log message w)) = emitted (trace w).
Proof. pose proof (log_outside message w) as H. unfold outside in H. by simplify_eq. Qed.

Lemma log_armed message w : armed (trace (log message w)) = armed (trace w).
Proof. pose proof (log_outside message w) as H. unfold outside in H. by simplify_eq. Qed.

Lemma log_opened message w : opened (trace (log message w)) = opened (trace w).
Proof. pose proof (log_outside message w) as H. unfold outside in H. by simplify_eq. Qed.

Lemma log_sent message w : sent (trace (log message w)) = sent (trace w).
Proof. pose proof (log_outside message w) as H. unfold outside in H. by simplify_eq. Qed.

Lemma emit_this ev d w : this (emit ev d w) = this w.
Proof. pose proof (emit_outside ev d w) as H. unfold outside in H. by simplify_eq. Qed.

Lemma emit_host ev d w : host (emit ev d w) = host w.
Proof. pose proof (emit_outside ev d w) as H. unfold outside in H. by simplify_eq. Qed.

Lemma emit_emitted ev d w :
  emitted (trace (emit ev d w)) = emitted (trace w) ++ [(ev, d)].
Proof. pose proof (emit_outside ev d w) as H. unfold outside in H. by simplify_eq. Qed.

Lemma emit_armed ev d w : armed (trace (emit ev d w)) = armed (trace w).
Proof. pose proof (emit_outside ev d w) as H. unfold outside in H. by simplify_eq. Qed.

Lemma emit_opened ev d w : opened (trace (emit ev d w)) = opened (trace w).
Proof. pose proof (emit_outside ev d w) as H. unfold outside in H. by simplify_eq. Qed.

Lemma emit_sent ev d w : sent (trace (emit ev d w)) = sent (trace w).
Proof. pose proof (emit_outside ev d w) as H. unfold outside in H. by simplify_eq. Qed.

Lemma emitted_snoc t o :
  emitted (t ++ [o]) = emitted t ++ match o with Emit ev d => [(ev, d)] | _ => [] end.
Proof. rewrite emitted_app. by destruct o. Qed.

Lemma armed_snoc t o :
  armed (t ++ [o])
  = armed t ++ match o with SetTimeout h delay => [(h, delay)] | _ => [] end.
Proof. rewrite armed_app. by destruct o. Qed.

Lemma opened_snoc t o :
  opened (t ++ [o])
  = opened t ++ match o with NewWebSocket s u => [(s, u)] | _ => [] end.
Proof. rewrite opened_app. by destruct o. Qed.

Lemma sent_snoc t o :
  sent (t ++ [o]) = sent t ++ match o with Send s frame => [(s, frame)] | _ => [] end.
Proof. rewrite sent_app. by destruct o. Qed.

Create Rewrite HintDb frame.

#[local] Hint Rewrite log_this log_host log_emitted log_armed log_opened log_sent
  emit_this emit_host emit_emitted emit_armed emit_opened emit_sent
  emitted_snoc armed_snoc opened_snoc sent_snoc : frame.

(** Simplifies the scalar fields, the host and the readings of the trace of
    a world built from [log], [emit], [say] and field updates. *)
Ltac frame :=
  repeat (progress
    (cbn [this eventListeners heap closures host trace
          upd_this upd_host upd_listeners upd_heap upd_closures say
          name options ws socketId state reconnectAttempts reconnectTimeout
          heartbeatInterval set_ws set_socketId set_state set_reconnectAttempts
          set_reconnectTimeout set_heartbeatInterval
          sockets timeouts intervals handles fst snd];
     autorewrite with frame)).

(** ** Heartbeat and reconnect scheduling, step by step *)

Lemma stopHeartbeat_this w :
  this (stopHeartbeat w) = set_heartbeatInterval None (this w).
Proof.
  unfold stopHeartbeat. destruct (heartbeatInterval (this w)) eqn:E; [done |].
  destruct (this w); simpl in *; subst; reflexivity.
Qed.

Lemma stopHeartbeat_emitted w : emitted (trace (stopHeartbeat w)) = emitted (trace w).
Proof.
  unfold stopHeartbeat. destruct (heartbeatInterval (this w));
    unfold clearInterval; frame; by rewrite ?app_nil_r.
Qed.

Lemma stopHeartbeat_armed w : armed (trace (stopHeartbeat w)) = armed (trace w).
Proof.
  unfold stopHeartbeat. destruct (heartbeatInterval (this w));
    unfold clearInterval; frame; by rewrite ?app_nil_r.
Qed.

Lemma stopHeartbeat_opened w : opened (trace (stopHeartbeat w)) = opened (trace w).
Proof.
  unfold stopHeartbeat. destruct (heartbeatInterval (this w));
    unfold clearInterval; frame; by rewrite ?app_nil_r.
Qed.

Lemma stopHeartbeat_sent w : sent (trace (stopHeartbeat w)) = sent (trace w).
Proof.
  unfold stopHeartbeat. destruct (heartbeatInterval (this w));
    unfold clearInterval; frame; by rewrite ?app_nil_r.
Qed.

Lemma stopHeartbeat_sockets w : sockets (host (stopHeartbeat w)) = sockets (host w).
Proof. unfold stopHeartbeat. by destruct (heartbeatInterval (this w)). Qed.

Lemma stopHeartbeat_timeouts w : timeouts (host (stopHeartbeat w)) = timeouts (host w).
Proof. unfold stopHeartbeat. by destruct (heartbeatInterval (this w)). Qed.

Lemma stopHeartbeat_handles w : handles (host (stopHeartbeat w)) = handles (host w).
Proof. unfold stopHeartbeat. by destruct (heartbeatInterval (this w)). Qed.

Lemma stopHeartbeat_intervals w :
  intervals (host (stopHeartbeat w))
  = match heartbeatInterval (this w) with
    | Some h => delete h (intervals (host w))
    | None => intervals (host w)
    end.
Proof. unfold stopHeartbeat. by destruct (heartbeatInterval (this w)). Qed.

#[local] Hint Rewrite stopHeartbeat_this stopHeartbeat_emitted stopHeartbeat_armed
  stopHeartbeat_opened stopHeartbeat_sent stopHeartbeat_sockets
  stopHeartbeat_timeouts stopHeartbeat_handles : frame.

Lemma scheduleReconnect_disabled w :
  autoReconnect (options (this w)) = false → scheduleReconnect w = w.
Proof. unfold scheduleReconnect. by intros ->. Qed.

Lemma scheduleReconnect_exhausted w :
  autoReconnect (options (this w)) = true →
  maxReconnectAttempts (options (this w)) ≤ Z.of_nat (reconnectAttempts (this w)) →
  scheduleReconnect w
  = emit "reconnect:failed" (DReconnectFailed (reconnectAttempts (this w)))
      (log "Max reconnect attempts reached" w).
Proof.
  unfold scheduleReconnect. intros -> Hmax. simpl.
  rewrite bool_decide_eq_true_2 by done. by rewrite log_this.
Qed.

(** The world in which [scheduleReconnect] arms its timer. *)
Lemma scheduleReconnect_arms w :
  autoReconnect (options (this w)) = true →
  Z.of_nat (reconnectAttempts (this w)) < maxReconnectAttempts (options (this w)) →
  let attempt := S (reconnectAttempts (this w)) in
  let delay := backoff (reconnectDelay (options (this w))) attempt in
  let h := handles (host w) in
  this (scheduleReconnect w)
  = set_reconnectTimeout (Some h) (set_reconnectAttempts attempt (this w))
  ∧ host (scheduleReconnect w)
    = {| sockets := sockets (host w);
         timeouts := <[h := delay]> (timeouts (host w));
         intervals := intervals (host w);
         handles := S h |}
  ∧ emitted (trace (scheduleReconnect w))
    = emitted (trace w) ++ [("reconnecting", DReconnecting attempt delay)]
  ∧ armed (trace (scheduleReconnect w)) = armed (trace w) ++ [(h, delay)]
  ∧ opened (trace (scheduleReconnect w)) = opened (trace w)
  ∧ sent (trace (scheduleReconnect w)) = sent (trace w).
Proof.
  intros Hauto Hless attempt delay h. unfold scheduleReconnect.
  rewrite Hauto. simpl. rewrite bool_decide_eq_false_2 by lia.
  unfold setTimeout. frame. by rewrite !app_nil_r.
Qed.

(** ** Closing *)

Lemma no_reconnect_terminal code : no_reconnect code = true ↔ code ∈ terminal_codes.
Proof.
  unfold no_reconnect, terminal_codes.
  rewrite !orb_true_iff, !Z.eqb_eq, !elem_of_cons, elem_of_nil. tauto.
Qed.

Lemma getCloseReasonMessage_truthy code reason message :
  getCloseReasonMessage code reason = Some message → message ≠ "".
Proof.
  unfold getCloseReasonMessage.
  destruct (bool_decide (reason = "")) eqn:E; simpl.
  - repeat case_match; intros ?; simplify_eq; done.
  - apply bool_decide_eq_false in E. by intros [= <-].
Qed.

Lemma close_transition_this code reason w :
  this (close_transition code reason w)
  = set_state disconnected
      (set_socketId null (set_ws None (set_heartbeatInterval None (this w)))).
Proof. unfold close_transition. by frame. Qed.

Lemma close_transition_emitted code reason w :
  emitted (trace (close_transition code reason w))
  = emitted (trace w) ++ disconnected_events code reason.
Proof. unfold close_transition. frame. by rewrite <- app_assoc. Qed.

Lemma close_transition_armed code reason w :
  armed (trace (close_transition code reason w)) = armed (trace w).
Proof. unfold close_transition. by frame. Qed.

Lemma close_transition_opened code reason w :
  opened (trace (close_transition code reason w)) = opened (trace w).
Proof. unfold close_transition. by frame. Qed.

Lemma close_transition_sent code reason w :
  sent (trace (close_transition code reason w)) = sent (trace w).
Proof. unfold close_transition. by frame. Qed.

Lemma close_transition_sockets code reason w :
  sockets (host (close_transition code reason w)) = sockets (host w).
Proof. unfold close_transition. by frame. Qed.

Lemma close_transition_timeouts code reason w :
  timeouts (host (close_transition code reason w)) = timeouts (host w).
Proof. unfold close_transition. by frame. Qed.

Lemma close_transition_handles code reason w :
  handles (host (close_transition code reason w)) = handles (host w).
Proof. unfold close_transition. by frame. Qed.

#[local] Hint Rewrite close_transition_this close_transition_emitted
  close_transition_armed close_transition_opened close_transition_sent
  close_transition_sockets close_transition_timeouts close_transition_handles : frame.


Lemma handleClose_closing code reason w :
  handleClose code reason w
  = if no_reconnect code
    then log "Not reconnecting due to error code" (closing code reason w)
    else scheduleReconnect (closing code reason w).
Proof. unfold handleClose, closing. by destruct (no_reconnect code). Qed.

Lemma dist_handleClose_closing code reason w :
  dist_handleClose code reason w
  = let w' := close_transition code reason
                (log ("Connection closed: " +:+ pretty code +:+ " - " +:+ reason) w) in
    if dist_no_reconnect code
    then log "Not reconnecting due to error code" w'
    else scheduleReconnect w'.
Proof. unfold dist_handleClose. by destruct (dist_no_reconnect code). Qed.

Lemma closing_this code reason w :
  this (closing code reason w)
  = set_state disconnected
      (set_socketId null (set_ws None (set_heartbeatInterval None (this w)))).
Proof.
  unfold closing. frame.
  destruct (getCloseReasonMessage code reason); [case_decide |]; by frame.
Qed.

Lemma closing_emitted code reason w :
  emitted (trace (closing code reason w))
  = emitted (trace w) ++ close_error code reason ++ disconnected_events code reason.
Proof.
  unfold closing, close_error. frame.
  destruct (getCloseReasonMessage code reason) as [message |] eqn:E.
  - apply getCloseReasonMessage_truthy in E.
    rewrite decide_False by done. frame. by rewrite <- app_assoc.
  - by frame.
Qed.

Lemma closing_armed code reason w :
  armed (trace (closing code reason w)) = armed (trace w).
Proof.
  unfold closing. frame.
  destruct (getCloseReasonMessage code reason); [case_decide |]; by frame.
Qed.

Lemma closing_opened code reason w :
  opened (trace (closing code reason w)) = opened (trace w).
Proof.
  unfold closing. frame.
  destruct (getCloseReasonMessage code reason); [case_decide |]; by frame.
Qed.

Lemma closing_sent code reason w :
  sent (trace (closing code reason w)) = sent (trace w).
Proof.
  unfold closing. frame.
  destruct (getCloseReasonMessage code reason); [case_decide |]; by frame.
Qed.

Lemma closing_sockets code reason w :
  sockets (host (closing code reason w)) = sockets (host w).
Proof.
  unfold closing. frame.
  destruct (getCloseReasonMessage code reason); [case_decide |]; by frame.
Qed.

Lemma closing_timeouts code reason w :
  timeouts (host (closing code reason w)) = timeouts (host w).
Proof.
  unfold closing. frame.
  destruct (getCloseReasonMessage code reason); [case_decide |]; by frame.
Qed.

Lemma closing_handles code reason w :
  handles (host (closing code reason w)) = handles (host w).
Proof.
  unfold closing. frame.
  destruct (getCloseReasonMessage code reason); [case_decide |]; by frame.
Qed.

#[local] Hint Rewrite closing_this closing_emitted closing_armed closing_opened
  closing_sent closing_sockets closing_timeouts closing_handles : frame.

(** X15: in the source module a close with a terminal code schedules
    nothing: the counter, the timer field, the pending timers and the list of
    timers ever armed stay as they were, and the events are the error event
    (if any), [disconnected] and [state:change]. *)
Lemma handleClose_terminal w code reason :
  code ∈ terminal_codes →
  let w' := handleClose code reason w in
  reconnectAttempts (this w') = reconnectAttempts (this w)
  ∧ reconnectTimeout (this w') = reconnectTimeout (this w)
  ∧ timeouts (host w') = timeouts (host w)
  ∧ armed (trace w') = armed (trace w)
  ∧ opened (trace w') = opened (trace w)
  ∧ emitted (trace w')
    = emitted (trace w) ++ close_error code reason ++ disconnected_events code reason.
Proof.
  intros Hcode%no_reconnect_terminal. simpl.
  rewrite handleClose_closing, Hcode. by frame.
Qed.

(** A close with a code outside the terminal set, with [autoReconnect] on
    and attempts left: the counter, the timer and the events. *)
Lemma handleClose_arms_timer w code reason :
  code ∉ terminal_codes →
  autoReconnect (options (this w)) = true →
  Z.of_nat (reconnectAttempts (this w)) < maxReconnectAttempts (options (this w)) →
  let w' := handleClose code reason w in
  let attempt := S (reconnectAttempts (this w)) in
  let delay := backoff (reconnectDelay (options (this w))) attempt in
  let h := handles (host w) in
  reconnectAttempts (this w') = attempt
  ∧ armed (trace w') = armed (trace w) ++ [(h, delay)]
  ∧ timeouts (host w') = <[h := delay]> (timeouts (host w))
  ∧ reconnectTimeout (this w') = Some h
  ∧ emitted (trace w')
    = emitted (trace w) ++ close_error code reason ++ disconnected_events code reason
        ++ [("reconnecting", DReconnecting attempt delay)].
Proof.
  intros Hcode Hauto Hless. simpl.
  assert (no_reconnect code = false) as Hno.
  { destruct (no_reconnect code) eqn:E; [| done].
    by apply no_reconnect_terminal in E. }
  rewrite handleClose_closing, Hno.
  destruct (scheduleReconnect_arms (closing code reason w))
    as (Hthis & Hhost & Hemitted & Harmed & _); [by frame | by frame |].
  rewrite Hthis, Hhost, Hemitted, Harmed. frame.
  rewrite <- !app_assoc. by repeat split.
Qed.

(** The delay is the exact product as long as a double can hold it. *)
Lemma backoff_exact base attempt :
  (0 < attempt ≤ 1024)%nat →
  Z.abs base * 2 ^ (Z.of_nat attempt - 1) < 2 ^ 1024 →
  backoff base attempt = finite (base * 2 ^ (Z.of_nat attempt - 1)).
Proof.
  intros Hattempt Hrange. unfold backoff, Math_pow2, times.
  rewrite decide_True by lia.
  replace (Z.of_nat (attempt - 1)) with (Z.of_nat attempt - 1) by lia.
  rewrite decide_True; [done |].
  rewrite Z.abs_mul, (Z.abs_eq (2 ^ _)) by (apply Z.pow_nonneg; lia). done.
Qed.

(** From 2^1024 on the product overflows to the infinity of its sign. *)
Lemma backoff_overflow base attempt :
  (0 < attempt)%nat → base ≠ 0 →
  2 ^ 1024 ≤ Z.abs base * 2 ^ (Z.of_nat attempt - 1) →
  backoff base attempt = if decide (0 < base) then Infinity else NegInfinity.
Proof.
  intros Hattempt Hbase Hrange. unfold backoff, Math_pow2, times.
  replace (Z.of_nat (attempt - 1)) with (Z.of_nat attempt - 1) by lia.
  assert (0 < 2 ^ (Z.of_nat attempt - 1)) as Hpow by (apply Z.pow_pos_nonneg; lia).
  destruct (decide (attempt - 1 ≤ 1023)%nat); [| by rewrite decide_False by done].
  rewrite decide_False
    by (rewrite Z.abs_mul, (Z.abs_eq (2 ^ _)) by lia; lia).
  destruct (decide (0 < base)).
  - rewrite decide_True by nia. done.
  - rewrite decide_False by nia. done.
Qed.

(** A base delay of zero gives zero, until the power itself is infinite. *)
Lemma backoff_zero attempt :
  backoff 0 attempt = if decide (attempt ≤ 1024)%nat then finite 0 else NaN.
Proof.
  unfold backoff, Math_pow2, times.
  destruct (decide (attempt ≤ 1024)%nat).
  - rewrite decide_True by lia. rewrite Z.mul_0_l. done.
  - rewrite decide_False by lia. done.
Qed.

(** C3: a close with a code outside the terminal set, with [autoReconnect] on
    and attempts left, raises the counter by one, arms exactly one timer whose
    delay is the code's [reconnectDelay * Math.pow(2, attempt - 1)] for the
    raised counter, keeps its handle in [reconnectTimeout], and emits
    [reconnecting] with that attempt and delay after [disconnected] and
    [state:change].  For a base delay that is an integer a double holds, the
    delay is the product [reconnectDelay * 2 ^ (attempt - 1)] as long as the
    attempt is at most 1024 and the product is below 2^1024 in magnitude; a
    product from 2^1024 on is the infinity of its sign, and with a base delay
    of zero the delay is NaN from attempt 1025 on.  With base delay 1000 the
    delays of attempts 1, 2, 3 are 1000, 2000, 4000. *)
Theorem handleClose_schedules_backoff w code reason :
  code ∉ terminal_codes →
  autoReconnect (options (this w)) = true →
  Z.of_nat (reconnectAttempts (this w)) < maxReconnectAttempts (options (this w)) →
  let w' := handleClose code reason w in
  let attempt := S (reconnectAttempts (this w)) in
  let base := reconnectDelay (options (this w)) in
  let product := base * 2 ^ (Z.of_nat attempt - 1) in
  let delay := backoff base attempt in
  let h := handles (host w) in
  reconnectAttempts (this w') = attempt
  ∧ armed (trace w') = armed (trace w) ++ [(h, delay)]
  ∧ timeouts (host w') = <[h := delay]> (timeouts (host w))
  ∧ reconnectTimeout (this w') = Some h
  ∧ emitted (trace w')
    = emitted (trace w) ++ close_error code reason ++ disconnected_events code reason
        ++ [("reconnecting", DReconnecting attempt delay)]
  ∧ (is_double base → (attempt ≤ 1024)%nat → Z.abs product < 2 ^ 1024 →
     delay = finite product)
  ∧ (is_double base → 2 ^ 1024 ≤ Z.abs product →
     delay = if decide (0 < base) then Infinity else NegInfinity)
  ∧ (base = 0 → (1024 < attempt)%nat → delay = NaN)
  ∧ backoff 1000 1 = 1000 ∧ backoff 1000 2 = 2000 ∧ backoff 1000 3 = 4000.
Proof.
  intros Hcode Hauto Hless.
  destruct (handleClose_arms_timer w code reason Hcode Hauto Hless)
    as (Hcount & Harmed & Htimeouts & Htimer & Hemitted).
  cbn zeta.
  assert (0 < 2 ^ (Z.of_nat (S (reconnectAttempts (this w))) - 1)) as Hpow
    by (apply Z.pow_pos_nonneg; lia).
  split_and!; try done.
  - intros _ Hattempt Hrange. apply backoff_exact; [lia |].
    by rewrite Z.abs_mul, (Z.abs_eq (2 ^ _)) in Hrange by lia.
  - intros _ Hrange. apply backoff_overflow; [lia | |].
    + intros Hzero. rewrite Hzero, Z.mul_0_l in Hrange. cbn in Hrange. lia.
    + by rewrite Z.abs_mul, (Z.abs_eq (2 ^ _)) in Hrange by lia.
  - intros Hzero Hattempt. rewrite Hzero, backoff_zero. by rewrite decide_False by lia.
Qed.

Lemma scheduleReconnect_emitted w :
  ∃ tail, emitted (trace (scheduleReconnect w)) = emitted (trace w) ++ tail
          ∧ ∀ e, e ∈ tail → e.1 = "reconnecting" ∨ e.1 = "reconnect:failed".
Proof.
  destruct (autoReconnect (options (this w))) eqn:Hauto.
  - destruct (decide (maxReconnectAttempts (options (this w))
                        ≤ Z.of_nat (reconnectAttempts (this w)))) as [Hmax | Hless].
    + rewrite scheduleReconnect_exhausted by done. frame.
      eexists. split; [done |]. intros e ->%list_elem_of_singleton. by right.
    + destruct (scheduleReconnect_arms w) as (_ & _ & -> & _); [done | lia |].
      eexists. split; [done |]. intros e ->%list_elem_of_singleton. by left.
  - rewrite scheduleReconnect_disabled by done.
    exists []. rewrite app_nil_r. split; [done |]. by intros e ?%elem_of_nil.
Qed.

(** C7: the events of a close are, in this order, the error event for the
    classified code (if the classification yields a message), [disconnected],
    [state:change], and then only what reconnect scheduling emits.  A reason
    that is not empty is the message as it is; without one the table gives
    the messages of 4401, 4403, 4408 and 4000, any other code from 4000 up
    gets the generic rejected message, and a code below 4000 gets no error
    event. *)
Theorem handleClose_classifies_code w code reason :
  (∃ scheduling,
      emitted (trace (handleClose code reason w))
      = emitted (trace w) ++ close_error code reason
          ++ disconnected_events code reason ++ scheduling
      ∧ ∀ e, e ∈ scheduling → e.1 = "reconnecting" ∨ e.1 = "reconnect:failed")
  ∧ (reason ≠ "" → close_error code reason = [("error", DError (Some code) reason)])
  ∧ close_error 4401 "" = [("error", DError (Some 4401) "Missing API key (?key=...)")]
  ∧ close_error 4403 "" = [("error", DError (Some 4403) "Invalid API key")]
  ∧ close_error 4408 "" = [("error", DError (Some 4408) "Connection limit exceeded")]
  ∧ close_error 4000 ""
    = [("error", DError (Some 4000) "Invalid path. Expected /c/:subdomain/:channel")]
  ∧ (4000 ≤ code → code ∉ [4401; 4403; 4408; 4000] →
     close_error code ""
     = [("error", DError (Some code) ("Connection rejected (" +:+ pretty code +:+ ")"))])
  ∧ (code < 4000 → close_error code "" = []).
Proof.
  split; [| repeat split].
  - rewrite handleClose_closing. destruct (no_reconnect code).
    + exists []. frame. rewrite !app_nil_r. split; [done |]. by intros e ?%elem_of_nil.
    + destruct (scheduleReconnect_emitted (closing code reason w)) as (tail & -> & Htail).
      exists tail. frame. by rewrite <- !app_assoc.
  - intros Hreason. unfold close_error, getCloseReasonMessage.
    by rewrite bool_decide_eq_false_2.
  - intros Hrange Hother. unfold close_error, getCloseReasonMessage.
    rewrite bool_decide_eq_true_2 by done. cbn [negb].
    rewrite !not_elem_of_cons in Hother. destruct Hother as (? & ? & ? & ? & _).
    rewrite !(proj2 (Z.eqb_neq _ _)) by done.
    by rewrite (proj2 (Z.leb_le _ _)).
  - intros Hbelow. unfold close_error, getCloseReasonMessage.
    rewrite bool_decide_eq_true_2 by done. cbn [negb].
    rewrite !(proj2 (Z.eqb_neq _ _)) by lia.
    by rewrite (proj2 (Z.leb_gt _ _)).
Qed.

(** ** Establishment *)

Lemma startHeartbeat_this w :
  this (startHeartbeat w) = set_heartbeatInterval (Some (handles (host w))) (this w).
Proof. unfold startHeartbeat, setInterval. by frame. Qed.

Lemma startHeartbeat_host w :
  host (startHeartbeat w)
  = {| sockets := sockets (host w);
       timeouts := timeouts (host w);
       intervals := <[handles (host w) := 25000]> (intervals (host (stopHeartbeat w)));
       handles := S (handles (host w)) |}.
Proof. unfold startHeartbeat, setInterval. by frame. Qed.

Lemma startHeartbeat_emitted w : emitted (trace (startHeartbeat w)) = emitted (trace w).
Proof. unfold startHeartbeat, setInterval. frame. by rewrite app_nil_r. Qed.

Lemma startHeartbeat_armed w : armed (trace (startHeartbeat w)) = armed (trace w).
Proof. unfold startHeartbeat, setInterval. frame. by rewrite app_nil_r. Qed.

Lemma startHeartbeat_opened w : opened (trace (startHeartbeat w)) = opened (trace w).
Proof. unfold startHeartbeat, setInterval. frame. by rewrite app_nil_r. Qed.

Lemma startHeartbeat_sent w : sent (trace (startHeartbeat w)) = sent (trace w).
Proof. unfold startHeartbeat, setInterval. frame. by rewrite app_nil_r. Qed.

#[local] Hint Rewrite startHeartbeat_this startHeartbeat_host startHeartbeat_emitted
  startHeartbeat_armed startHeartbeat_opened startHeartbeat_sent : frame.


(** ** The session identifier and the state *)

Lemma session_inv_session w w' : session w' = session w → session_inv w → session_inv w'.
Proof. unfold session, session_inv. intros [= -> ->]. done. Qed.

Lemma session_inv_of w id st :
  session w = (id, st) → (¬ nullish id ↔ st = connected) → session_inv w.
Proof. unfold session, session_inv. by intros [= -> ->]. Qed.

Lemma off_this ev cb w : this (off ev cb w) = this w.
Proof. pose proof (off_outside ev cb w) as H. unfold outside in H. by simplify_eq. Qed.

Lemma off_host ev cb w : host (off ev cb w) = host w.
Proof. pose proof (off_outside ev cb w) as H. unfold outside in H. by simplify_eq. Qed.

Lemma on_this ev cb w : this (on ev cb w).2 = this w.
Proof.
  unfold on, new_Set. cbn [snd].
  destruct (eventListeners w !! ev) as [a |] eqn:E; [by rewrite E |].
  cbn [eventListeners upd_listeners upd_heap]. by rewrite lookup_insert_eq.
Qed.

Lemma on_host ev cb w : host (on ev cb w).2 = host w.
Proof.
  unfold on, new_Set. cbn [snd].
  destruct (eventListeners w !! ev) as [a |] eqn:E; [by rewrite E |].
  cbn [eventListeners upd_listeners upd_heap]. by rewrite lookup_insert_eq.
Qed.

Lemma on_trace ev cb w : trace (on ev cb w).2 = trace w.
Proof.
  unfold on, new_Set. cbn [snd].
  destruct (eventListeners w !! ev) as [a |] eqn:E; [by rewrite E |].
  cbn [eventListeners upd_listeners upd_heap]. by rewrite lookup_insert_eq.
Qed.

Lemma once_this ev f w : this (once ev f w).2 = this w.
Proof. unfold once. by rewrite on_this. Qed.

Lemma once_host ev f w : host (once ev f w).2 = host w.
Proof. unfold once. by rewrite on_host. Qed.

Lemma once_trace ev f w : trace (once ev f w).2 = trace w.
Proof. unfold once. by rewrite on_trace. Qed.

Lemma heartbeat_this w : this (heartbeat w) = this w.
Proof. unfold heartbeat, ws_send. destruct (ws (this w)); [case_match |]; done. Qed.

Lemma heartbeat_host w : host (heartbeat w) = host w.
Proof. unfold heartbeat, ws_send. destruct (ws (this w)); [case_match |]; done. Qed.

Lemma trigger_this payload w : this (trigger payload w) = this w.
Proof.
  unfold trigger, ws_send. destruct (ws (this w)); [case_match |]; by frame.
Qed.

Lemma trigger_host payload w : host (trigger payload w) = host w.
Proof.
  unfold trigger, ws_send. destruct (ws (this w)); [case_match |]; by frame.
Qed.

Lemma scheduleReconnect_session w : session (scheduleReconnect w) = session w.
Proof.
  unfold session. destruct (autoReconnect (options (this w))) eqn:Hauto.
  - destruct (decide (maxReconnectAttempts (options (this w))
                        ≤ Z.of_nat (reconnectAttempts (this w)))) as [Hmax | Hless].
    + rewrite scheduleReconnect_exhausted by done. by frame.
    + destruct (scheduleReconnect_arms w) as (-> & _); [done | lia | done].
  - by rewrite scheduleReconnect_disabled.
Qed.

Lemma handleClose_session code reason w :
  session (handleClose code reason w) = (null, disconnected).
Proof.
  rewrite handleClose_closing. destruct (no_reconnect code).
  - unfold session. by frame.
  - rewrite scheduleReconnect_session. unfold session. by frame.
Qed.

Lemma disconnect_session w : session (disconnect w) = (null, disconnected).
Proof. reflexivity. Qed.

Lemma established_session id payload w :
  session (established id payload w) = (id, connected).
Proof. unfold session, established. by frame. Qed.

Lemma handleConnectionEstablished_session d w :
  session (handleConnectionEstablished d w) = (parsed (JStr (socketId_of d)), connected).
Proof. unfold handleConnectionEstablished. apply established_session. Qed.

(** A frame leaves the identifier and the state alone, unless it is a
    handshake whose payload can be read: then the identifier is whatever the
    payload's [socketId] is, and the state is [connected]. *)
Lemma handleMessage_session raw w :
  session (handleMessage raw w) = session w
  ∨ ∃ message id,
      raw = Some message ∧ event message = "connection:established"
      ∧ socketId_property (data message) = Some id
      ∧ session (handleMessage raw w) = (id, connected).
Proof.
  unfold handleMessage. destruct raw as [message |].
  - case_decide as Hevent.
    + destruct (socketId_property (data message)) as [id |] eqn:Hid.
      * right. exists message, id. split_and!; [done | done | done |].
        apply established_session.
      * left. unfold session. by frame.
    + case_decide; left; unfold session; by frame.
  - left. unfold session. by frame.
Qed.

Section Sessions.

Variable rejects : string → bool.

Lemma open_transport_session w :
  socketId (this (open_transport rejects w)) = socketId (this w)
  ∧ (state (this (open_transport rejects w)) = connecting
     ∨ state (this (open_transport rejects w)) = reconnecting).
Proof.
  unfold open_transport, new_WebSocket. frame.
  destruct (rejects _).
  - pose proof (scheduleReconnect_session
      (emit "error" (DError None "Failed to connect")
         (log "Connection error"
            (log ("Connecting to " +:+ address_of
                    (set_state (if decide (0 < reconnectAttempts (this w))%nat
                                then reconnecting else connecting) (this w)))
               (emit "state:change"
                  (DState (if decide (0 < reconnectAttempts (this w))%nat
                           then reconnecting else connecting))
                  (upd_this (set_state (if decide (0 < reconnectAttempts (this w))%nat
                                        then reconnecting else connecting)) w))))))
      as H.
    unfold session in H. revert H. frame.
    intros [Hid Hstate]%pair_equal_spec. rewrite Hid, Hstate.
    split; [done |]. case_decide; auto.
  - frame. split; [done |]. case_decide; auto.
Qed.

Lemma connect_session_inv w : session_inv w → session_inv (connect rejects w).
Proof.
  unfold connect. intros Hinv. case_bool_decide as Hstate; [done |].
  destruct (isValidPublicKey _); cbn [negb].
  - destruct (open_transport_session w) as [Hid Hst].
    unfold session_inv in *. rewrite Hid.
    split.
    + intros Hsome. apply Hinv in Hsome. tauto.
    + intros Hconn. destruct Hst as [Hst | Hst]; congruence.
  - eapply session_inv_session; [| done]. unfold session. by frame.
Qed.

Lemma null_nullish : nullish null.
Proof. by left. Qed.

Lemma string_not_nullish s : ¬ nullish (parsed (JStr s)).
Proof. by intros [|]. Qed.

Lemma perform_session_inv op w :
  admissible op → session_inv w → session_inv (perform rejects op w).
Proof.
  intros Hop Hinv. destruct op; cbn [perform].
  - by apply connect_session_inv.
  - destruct (handleMessage_session raw w)
      as [H | (message & id & Hraw & Hevent & Hid & H)].
    + by eapply session_inv_session.
    + eapply session_inv_of; [exact H |].
      split; [done | intros _]. by eapply Hop.
  - eapply session_inv_of; [apply handleConnectionEstablished_session |].
    split; [done | intros _]. apply string_not_nullish.
  - eapply session_inv_of; [apply handleClose_session |].
    split; [intros []; apply null_nullish | done].
  - eapply session_inv_session; [apply scheduleReconnect_session | done].
  - eapply session_inv_session; [| done]. unfold session. by frame.
  - eapply session_inv_session; [| done]. unfold session. by frame.
  - eapply session_inv_session; [| done]. unfold session. by rewrite heartbeat_this.
  - eapply session_inv_session; [| done]. unfold session. by frame.
  - eapply session_inv_session; [| done]. unfold session. by rewrite on_this.
  - eapply session_inv_session; [| done]. unfold session. by rewrite once_this.
  - eapply session_inv_session; [| done]. unfold session. by rewrite off_this.
  - eapply session_inv_session; [| done]. unfold session. by rewrite trigger_this.
  - eapply session_inv_of; [apply disconnect_session |].
    split; [intros []; apply null_nullish | done].
Qed.

End Sessions.

Section SessionInvariant.

Variable rejects : string → bool.

Lemma session_inv_upd_host f w : session_inv (upd_host f w) ↔ session_inv w.
Proof. reflexivity. Qed.

Lemma step_session_inv a w w' :
  identified a → session_inv w → step rejects a w = Some w' → session_inv w'.
Proof.
  intros Ha Hinv Hstep. destruct a; cbn [step] in Hstep.
  - destruct (socket_state s w) as [[] |]; simplify_eq.
    eapply session_inv_session; [| exact Hinv]. unfold session. by frame.
  - destruct (socket_state s w) as [[] |]; simplify_eq.
    by apply (perform_session_inv rejects (HandleMessage raw)).
  - destruct (socket_state s w) as [[] |]; simplify_eq;
      (eapply session_inv_session; [| exact Hinv]); unfold session; by frame.
  - destruct (socket_state s w) as [[] |]; simplify_eq;
      by apply (perform_session_inv rejects (HandleClose code reason)).
  - destruct (timeouts (host w) !! h); simplify_eq.
    by apply connect_session_inv.
  - destruct (intervals (host w) !! h); simplify_eq.
    by apply (perform_session_inv rejects Heartbeat).
  - simplify_eq. by apply (perform_session_inv rejects (On ev (Plain callback))).
  - simplify_eq. by apply (perform_session_inv rejects (Once ev callback)).
  - simplify_eq. by apply (perform_session_inv rejects (Off ev callback)).
  - simplify_eq. by apply (perform_session_inv rejects (Trigger payload)).
  - simplify_eq. by apply (perform_session_inv rejects Disconnect).
Qed.

Lemma run_session_inv actions w w' :
  Forall identified actions →
  session_inv w → run rejects actions w = Some w' → session_inv w'.
Proof.
  intros Hactions. revert w.
  induction Hactions as [| a rest Ha Hrest IH]; intros w Hinv Hrun; cbn [run] in Hrun.
  - by simplify_eq.
  - destruct (step rejects a w) as [w1 |] eqn:Hstep; [| done].
    eapply IH; [| done]. by eapply step_session_inv.
Qed.

Lemma fresh_session_inv channelName o : session_inv (fresh channelName o).
Proof.
  unfold session_inv. cbn. split; [intros []; apply null_nullish | discriminate].
Qed.

(** A handshake whose payload has the declared type carries an identifier. *)
Lemma typed_identifies ev d : identifies (Some {| event := ev; data := DEstablished d |}).
Proof.
  intros message id [= <-] _ [= <-]. apply string_not_nullish.
Qed.

(** C9, for handshakes that carry an identifier: the session identifier is
    there (neither [null] nor [undefined]) exactly while the state is
    [connected].  This holds of a newly constructed channel and is kept by
    every method and by every action of the event loop, provided the
    [socketId] of every handshake payload that is handled is neither [null]
    nor missing; a payload of the declared type [ConnectionEstablished], whose
    [socketId] is a string, always is such a payload. *)
Theorem session_identifier_iff_connected :
  (∀ channelName o, session_inv (new_KalzeChannel rejects channelName o))
  ∧ (∀ op w, admissible op → session_inv w → session_inv (perform rejects op w))
  ∧ (∀ a w w',
       identified a → session_inv w → step rejects a w = Some w' → session_inv w')
  ∧ (∀ channelName o actions w,
       Forall identified actions →
       run rejects actions (new_KalzeChannel rejects channelName o) = Some w →
       session_inv w)
  ∧ (∀ ev d, identifies (Some {| event := ev; data := DEstablished d |})).
Proof.
  assert (∀ channelName o, session_inv (new_KalzeChannel rejects channelName o)) as Hnew.
  { intros. apply connect_session_inv, fresh_session_inv. }
  split_and!.
  - apply Hnew.
  - apply perform_session_inv.
  - intros a w w'. apply step_session_inv.
  - intros channelName o actions w Hactions Hrun.
    eapply run_session_inv; [done | apply Hnew | done].
  - apply typed_identifies.
Qed.

End SessionInvariant.

(** ** [trigger] *)


(** ** [disconnect] *)

(** What [disconnect] itself leaves behind: both timer fields, the transport
    reference and the session identifier are cleared, the state is
    [disconnected], no listener is registered, the timers the fields named are
    gone from the host, an open transport is closing with code 1000, and the
    teardown has emitted no event and called no callback. *)
Lemma disconnect_teardown w :
  let w' := disconnect w in
  reconnectTimeout (this w') = None
  ∧ heartbeatInterval (this w') = None
  ∧ ws (this w') = None
  ∧ socketId (this w') = null
  ∧ state (this w') = disconnected
  ∧ eventListeners w' = ∅
  ∧ emitted (trace w') = emitted (trace w)
  ∧ invoked (trace w') = invoked (trace w)
  ∧ (∀ h, reconnectTimeout (this w) = Some h → timeouts (host w') !! h = None)
  ∧ (∀ h, heartbeatInterval (this w) = Some h → intervals (host w') !! h = None)
  ∧ (∀ s, ws (this w) = Some s → is_open s w = true →
     socket_state s w' = Some CLOSING
     ∧ Close s 1000 "Client disconnect" ∈ trace w').
Proof.
  destruct w as [[n o s i st k t hb] l hp cl [socks touts ivals hs] tr].
  unfold disconnect, stopHeartbeat, clearTimeout, clearInterval, ws_close,
    is_open, socket_state.
  destruct t as [t |], hb as [hb |], s as [s |]; cbn;
    try (destruct (socks !! s) as [[u r] |] eqn:Hsock; [destruct r |]; cbn);
    (split_and!;
     first
       [ done
       | by rewrite ?emitted_snoc, ?app_nil_r
       | by rewrite ?invoked_app, ?app_nil_r
       | by intros h [= ->]; apply lookup_delete_eq
       | intros s' [= ->] Hopen; rewrite Hsock in Hopen; cbn in Hopen;
         first [ done
               | split; [by rewrite list_lookup_alter_eq, Hsock | set_solver] ] ]).
Qed.

(** ** Dispatch while callbacks unsubscribe *)

Lemma omap_id_set_delete cb (entries : SetData) :
  omap id (set_delete cb entries) = filter (λ x, x ≠ cb) (omap id entries).
Proof.
  unfold set_delete. induction entries as [| [x |] entries IH]; cbn; [done | |].
  - repeat case_decide; simplify_eq; cbn; rewrite ?IH; done.
  - apply IH.
Qed.

Lemma omap_id_set_delete_absent cb (entries : SetData) :
  cb ∉ omap id entries → omap id (set_delete cb entries) = omap id entries.
Proof.
  intros Habsent. rewrite omap_id_set_delete.
  induction (omap id entries) as [| x l IH]; [done |].
  apply not_elem_of_cons in Habsent as [Hne Hl].
  rewrite filter_cons_True by done. by rewrite IH.
Qed.

Lemma set_delete_length cb (entries : SetData) :
  length (set_delete cb entries) = length entries.
Proof. unfold set_delete. apply length_fmap. Qed.

Lemma set_delete_drop cb i (entries : SetData) :
  drop i (set_delete cb entries) = set_delete cb (drop i entries).
Proof. unfold set_delete. by rewrite fmap_drop. Qed.

Lemma set_delete_NoDup cb (entries : SetData) :
  NoDup (omap id entries) → NoDup (omap id (set_delete cb entries)).
Proof. intros H. rewrite omap_id_set_delete. by apply NoDup_filter. Qed.

(** In a duplicate-free set the entry at a position does not come again
    after it. *)
Lemma entry_not_later (entries : SetData) i cb :
  NoDup (omap id entries) → entries !! i = Some (Some cb) →
  cb ∉ omap id (drop (S i) entries).
Proof.
  intros Hnodup Hi.
  rewrite <- (take_drop_middle entries i (Some cb)) in Hnodup by done.
  rewrite omap_app in Hnodup. cbn in Hnodup.
  apply NoDup_app in Hnodup as (_ & _ & Hrest).
  by apply NoDup_cons in Hrest as [? _].
Qed.

Lemma off_heap ev cb w a entries :
  heap w !! a = Some entries →
  heap (off ev (Some cb) w) !! a = Some entries
  ∨ heap (off ev (Some cb) w) !! a = Some (set_delete cb entries).
Proof.
  intros Ha. unfold off. destruct (eventListeners w !! ev) as [a' |]; [| by left].
  assert (heap (upd_heap (alter (set_delete cb) a') w) !! a = Some entries
          ∨ heap (upd_heap (alter (set_delete cb) a') w) !! a
            = Some (set_delete cb entries)) as H.
  { cbn. destruct (decide (a' = a)) as [-> | Hne].
    - right. by rewrite list_lookup_alter_eq, Ha.
    - left. by rewrite list_lookup_alter_ne. }
  by case_decide.
Qed.

Lemma deliver_heap arg complaint cb w a entries :
  heap w !! a = Some entries →
  heap (deliver arg complaint cb w) !! a = Some entries
  ∨ heap (deliver arg complaint cb w) !! a = Some (set_delete cb entries).
Proof.
  intros Ha. unfold deliver. destruct cb as [f | wid ev f]; cbn [invoke call].
  - left. destruct (fn_throws f); by rewrite ?log_heap.
  - destruct (off_heap ev (OnceWrapper wid ev f) w a entries Ha) as [H | H];
      [left | right]; destruct (fn_throws f); by rewrite ?log_heap.
Qed.

Lemma deliver_invoked arg complaint cb w :
  invoked (trace (deliver arg complaint cb w))
  = invoked (trace w) ++ [(fn_id (target cb), arg)].
Proof.
  unfold deliver. destruct cb as [f | wid ev f]; cbn [invoke call target];
    destruct (fn_throws f); rewrite ?log_invoked; cbn [trace say];
    by rewrite invoked_app, ?off_trace.
Qed.

(** The loop over a duplicate-free set calls every entry from position [i]
    on exactly once, in order, whatever the callbacks delete on the way. *)
Lemma forOf_deliver_invoked arg complaint a n :
  ∀ i w entries,
    heap w !! a = Some entries →
    NoDup (omap id entries) →
    (length entries ≤ i + n)%nat →
    invoked (trace (forOf n a i (deliver arg complaint) w))
    = invoked (trace w) ++ deliveries arg (omap id (drop i entries)).
Proof.
  induction n as [| n IH]; intros i w entries Ha Hnodup Hlen; cbn [forOf].
  - rewrite drop_ge by lia. by rewrite app_nil_r.
  - rewrite Ha. destruct (entries !! i) as [[cb |] |] eqn:Hi.
    + assert (∃ entries', heap (deliver arg complaint cb w) !! a = Some entries'
                ∧ NoDup (omap id entries')
                ∧ length entries' = length entries
                ∧ omap id (drop (S i) entries') = omap id (drop (S i) entries))
        as (entries' & Ha' & Hnodup' & Hlen' & Hrest).
      { destruct (deliver_heap arg complaint cb w a entries Ha) as [H | H].
        - by exists entries.
        - exists (set_delete cb entries). split_and!; [done | | |].
          + by apply set_delete_NoDup.
          + apply set_delete_length.
          + rewrite set_delete_drop. apply omap_id_set_delete_absent.
            by apply entry_not_later. }
      rewrite (IH (S i) _ entries' Ha' Hnodup') by lia.
      rewrite deliver_invoked, Hrest, <- app_assoc.
      by rewrite (drop_S entries (Some cb) i Hi).
    + rewrite (IH (S i) w entries Ha Hnodup) by lia.
      by rewrite (drop_S entries None i Hi).
    + apply lookup_ge_None in Hi. rewrite drop_ge by lia. by rewrite app_nil_r.
Qed.

Lemma for_listeners_invoked ev arg complaint w :
  sets_ok w →
  invoked (trace (for_listeners ev arg complaint w))
  = invoked (trace w) ++ deliveries arg (members ev w).
Proof.
  intros Hok. unfold for_listeners, members.
  destruct (eventListeners w !! ev) as [a |]; [| by rewrite app_nil_r].
  destruct (heap w !! a) as [entries |] eqn:Ha; cbn [default].
  - rewrite (forOf_deliver_invoked arg complaint a _ 0 w entries Ha) by eauto with lia.
    by rewrite drop_0.
  - cbn. by rewrite app_nil_r.
Qed.

Lemma off_sets_ok ev cb w : sets_ok w → sets_ok (off ev cb w).
Proof.
  intros Hok. unfold off. destruct cb as [cb |]; [| done].
  destruct (eventListeners w !! ev) as [a' |]; [| done].
  assert (sets_ok (upd_heap (alter (set_delete cb) a') w)) as Hok'.
  { intros a entries. cbn. destruct (decide (a' = a)) as [-> | Hne].
    - rewrite list_lookup_alter_eq. destruct (heap w !! a) as [old |] eqn:Ha; [| done].
      intros [= <-]. apply set_delete_NoDup. eauto.
    - rewrite list_lookup_alter_ne by done. apply Hok. }
  by case_decide.
Qed.

Lemma deliver_sets_ok arg complaint cb w : sets_ok w → sets_ok (deliver arg complaint cb w).
Proof.
  intros Hok a entries. unfold deliver.
  destruct cb as [f | wid ev f]; cbn [invoke call];
    destruct (fn_throws f); rewrite ?log_heap; cbn [heap say]; try apply Hok;
    apply (off_sets_ok ev (Some (OnceWrapper wid ev f)) w Hok).
Qed.

Lemma for_listeners_sets_ok ev arg complaint w :
  sets_ok w → sets_ok (for_listeners ev arg complaint w).
Proof.
  intros Hok. unfold for_listeners. destruct (eventListeners w !! ev); [| done].
  apply (forOf_preserves sets_ok); [| done].
  intros cb w'. apply deliver_sets_ok.
Qed.

(** Once it has unsubscribed itself, a wrapper is no longer registered. *)
Lemma off_not_member ev cb w : cb ∉ members ev (off ev (Some cb) w).
Proof.
  unfold off, members.
  destruct (eventListeners w !! ev) as [a |] eqn:Hev; [| rewrite Hev; apply not_elem_of_nil].
  case_decide as Hsize; cbn [eventListeners upd_listeners upd_heap heap].
  - rewrite lookup_delete_eq. apply not_elem_of_nil.
  - rewrite Hev, list_lookup_alter_eq.
    destruct (heap w !! a) as [entries |]; cbn; [| apply not_elem_of_nil].
    rewrite omap_id_set_delete, list_elem_of_filter. tauto.
Qed.

(** A property kept by every turn that calls an entry of the set is kept by
    the loop. *)
Lemma forOf_preserves_entries (P : World → Prop) a body :
  (∀ cb w entries, P w → heap w !! a = Some entries → Some cb ∈ entries →
                   P (body cb w)) →
  ∀ n i w, P w → P (forOf n a i body w).
Proof.
  intros Hbody n. induction n as [| n IH]; intros i w Hw; cbn [forOf]; [done |].
  destruct (heap w !! a) as [entries |] eqn:Ha; [| done].
  destruct (entries !! i) as [[cb |] |] eqn:Hi; [| auto | done].
  apply IH. eapply Hbody; [done | done |]. by eapply list_elem_of_lookup_2.
Qed.

Lemma set_delete_subset cb x (entries : SetData) :
  Some x ∈ set_delete cb entries → Some x ∈ entries.
Proof.
  unfold set_delete. intros (e & He & Hin)%list_elem_of_fmap.
  case_decide; by simplify_eq.
Qed.

Lemma off_loop_frame w0 ev a cb w :
  loop_frame w0 ev a w → loop_frame w0 ev a (off ev (Some cb) w).
Proof.
  intros (Hmap & Hheap & Hev & Honce). unfold off.
  destruct Hev as [Hev | Hev]; rewrite Hev; [| by split_and!; auto].
  assert (loop_frame w0 ev a (upd_heap (alter (set_delete cb) a) w)) as Hframe.
  { split_and!; cbn [eventListeners heap upd_heap]; [done | | by left |].
    - intros a' Hne. rewrite list_lookup_alter_ne by done. by apply Hheap.
    - intros entries wid ev' f. rewrite list_lookup_alter_eq.
      destruct (heap w !! a) as [old |] eqn:Ha; [| done].
      intros [= <-] Hin%set_delete_subset. by eapply Honce. }
  case_decide; [| done].
  destruct Hframe as (Hmap' & Hheap' & _ & Honce').
  split_and!; cbn [eventListeners heap upd_listeners] in *; [| done | | done].
  - intros ev' Hne. rewrite lookup_delete_ne by done. by apply Hmap.
  - right. apply lookup_delete_eq.
Qed.

Lemma deliver_loop_frame w0 ev a arg complaint cb w entries :
  loop_frame w0 ev a w → heap w !! a = Some entries → Some cb ∈ entries →
  loop_frame w0 ev a (deliver arg complaint cb w).
Proof.
  intros Hframe Ha Hin.
  assert (∀ w1 w2, eventListeners w2 = eventListeners w1 → heap w2 = heap w1 →
                   loop_frame w0 ev a w1 → loop_frame w0 ev a w2) as Hsame.
  { intros w1 w2 Hl Hh. unfold loop_frame. by rewrite Hl, Hh. }
  unfold deliver. destruct cb as [f | wid ev' f]; cbn [invoke call].
  - destruct (fn_throws f); (eapply Hsame; [| | exact Hframe]);
      by rewrite ?log_listeners, ?log_heap.
  - assert (ev' = ev) as ->.
    { destruct Hframe as (_ & _ & _ & Honce). by eapply Honce. }
    pose proof (off_loop_frame w0 ev a (OnceWrapper wid ev f) w Hframe) as Hoff.
    destruct (fn_throws f); (eapply Hsame; [| | exact Hoff]);
      by rewrite ?log_listeners, ?log_heap.
Qed.

(** The loop over the listeners of one event leaves the listeners of every
    other event as they were. *)
Lemma for_listeners_members_other ev ev2 arg complaint w :
  registry_ok w → ev2 ≠ ev →
  members ev2 (for_listeners ev arg complaint w) = members ev2 w.
Proof.
  intros Hreg Hne. unfold for_listeners.
  destruct (eventListeners w !! ev) as [a |] eqn:Hev; [| done].
  destruct (Hreg ev a Hev) as [Hown Honce].
  assert (loop_frame w ev a w) as Hstart.
  { split_and!; [done | done | by left | exact Honce]. }
  pose proof (forOf_preserves_entries (loop_frame w ev a) a (deliver arg complaint)
                (λ cb w' entries, deliver_loop_frame w ev a arg complaint cb w' entries)
                (length (default [] (heap w !! a))) 0 w Hstart)
    as (Hmap & Hheap & _).
  unfold members. rewrite Hmap by done.
  destruct (eventListeners w !! ev2) as [a2 |] eqn:Hev2; [| done].
  rewrite Hheap; [done |]. intros ->. apply Hne. by apply Hown.
Qed.

(** C10: a [once] wrapper unsubscribes itself, and is gone from the event's
    listeners, before it calls the original callback; and the dispatch of an
    event calls the application function behind every callback registered
    for it exactly once, in order (and then the wildcard listeners likewise),
    whatever the wrappers among them unsubscribe on the way. *)
Theorem once_keeps_dispatch_whole w ev d :
  well_formed w →
  (∀ wid f arg w0,
     invoke (OnceWrapper wid ev f) arg w0
     = call f arg (off ev (Some (OnceWrapper wid ev f)) w0)
     ∧ OnceWrapper wid ev f ∉ members ev (off ev (Some (OnceWrapper wid ev f)) w0))
  ∧ (∀ complaint,
       invoked (trace (for_listeners ev d complaint w))
       = invoked (trace w) ++ deliveries d (members ev w))
  ∧ (ev ≠ "*" →
     invoked (trace (emit ev d w))
     = invoked (trace w) ++ deliveries d (members ev w)
         ++ deliveries (DEnvelope ev d) (members "*" w)).
Proof.
  intros [Hsets Hreg]. split_and!.
  - intros wid f arg w0. split; [done | apply off_not_member].
  - intros complaint. by apply for_listeners_invoked.
  - intros Hev. unfold emit.
    assert (sets_ok (say (Emit ev d) w)) as Hsets' by done.
    assert (registry_ok (say (Emit ev d) w)) as Hreg' by done.
    rewrite for_listeners_invoked by by apply for_listeners_sets_ok.
    rewrite for_listeners_invoked by done.
    rewrite for_listeners_members_other by done.
    cbn [trace say]. rewrite invoked_app, app_nil_r, <- app_assoc.
    done.
Qed.

(** ** Sockets and timers in flight *)

Lemma live_count_cons k (socks : list WebSocket) :
  live_count (k :: socks)
  = ((if decide (readyState k = CLOSED) then 0 else 1) + live_count socks)%nat.
Proof.
  unfold live_count. destruct (decide (readyState k = CLOSED)).
  - rewrite filter_cons_False by tauto. done.
  - rewrite filter_cons_True by done. done.
Qed.

Lemma live_count_alter_closed (socks : list WebSocket) s sock :
  socks !! s = Some sock → readyState sock ≠ CLOSED →
  S (live_count (alter (λ k, {| url := url k; readyState := CLOSED |}) s socks))
  = live_count socks.
Proof.
  revert s.
  induction socks as [| k socks IH]; intros [| s] Hs Hlive; simplify_eq/=;
    rewrite !live_count_cons; cbn.
  - repeat case_decide; try done; lia.
  - specialize (IH s Hs Hlive). case_decide; lia.
Qed.

Lemma live_count_alter_live (socks : list WebSocket) s r :
  (∀ sock, socks !! s = Some sock → readyState sock ≠ CLOSED) → r ≠ CLOSED →
  live_count (alter (λ k, {| url := url k; readyState := r |}) s socks)
  = live_count socks.
Proof.
  revert s.
  induction socks as [| k socks IH]; intros [| s] Hs Hr; cbn -[live_count];
    [done | done | |]; rewrite !live_count_cons; cbn -[live_count].
  - specialize (Hs k eq_refl). repeat case_decide; try done; lia.
  - specialize (IH s Hs Hr). case_decide; lia.
Qed.

Lemma live_count_snoc (socks : list WebSocket) u :
  live_count (socks ++ [{| url := u; readyState := CONNECTING |}])
  = S (live_count socks).
Proof.
  induction socks as [| k socks IH]; [done |].
  cbn [app]. rewrite !live_count_cons, IH. lia.
Qed.

Lemma live_count_zero (socks : list WebSocket) s sock :
  live_count socks = 0%nat → socks !! s = Some sock → readyState sock = CLOSED.
Proof.
  unfold live_count. intros Hzero Hs.
  destruct (decide (readyState sock = CLOSED)) as [| Hlive]; [done |].
  apply length_zero_iff_nil in Hzero.
  assert (sock ∈ filter (λ k, readyState k ≠ CLOSED) socks) as Hin.
  { apply list_elem_of_filter. split; [done |]. by eapply list_elem_of_lookup_2. }
  rewrite Hzero in Hin. by apply elem_of_nil in Hin.
Qed.

Lemma live_count_pos (socks : list WebSocket) s sock :
  socks !! s = Some sock → readyState sock ≠ CLOSED → (0 < live_count socks)%nat.
Proof.
  intros Hs Hlive. destruct (live_count socks) eqn:E; [| lia].
  by pose proof (live_count_zero socks s sock E Hs).
Qed.

Lemma log_flight message w : flight (log message w) = flight w.
Proof. unfold flight. by frame. Qed.

Lemma emit_flight ev d w : flight (emit ev d w) = flight w.
Proof. unfold flight. by frame. Qed.

Lemma closing_flight code reason w : flight (closing code reason w) = flight w.
Proof. unfold flight. by frame. Qed.

Lemma in_flight_flight w w' : flight w' = flight w → in_flight w' = in_flight w.
Proof. unfold flight, in_flight. by intros [= -> ->]. Qed.

Lemma quiescent_flight w w' : flight w' = flight w → quiescent w → quiescent w'.
Proof. unfold flight, quiescent. by intros [= -> ->]. Qed.

Lemma scheduleReconnect_in_flight w :
  (in_flight (scheduleReconnect w) ≤ S (in_flight w))%nat.
Proof.
  destruct (autoReconnect (options (this w))) eqn:Hauto.
  - destruct (decide (maxReconnectAttempts (options (this w))
                        ≤ Z.of_nat (reconnectAttempts (this w)))) as [Hmax | Hless].
    + rewrite scheduleReconnect_exhausted by done.
      rewrite (in_flight_flight w) by (by rewrite emit_flight, log_flight). lia.
    + destruct (scheduleReconnect_arms w) as (_ & Hhost & _); [done | lia |].
      unfold in_flight. rewrite Hhost. cbn [sockets timeouts].
      pose proof (map_size_insert (handles (host w))
                    (backoff (reconnectDelay (options (this w)))
                       (S (reconnectAttempts (this w))))
                    (timeouts (host w))) as Hsize.
      destruct (timeouts (host w) !! handles (host w)); unfold id in Hsize; lia.
  - rewrite scheduleReconnect_disabled by done. lia.
Qed.

Lemma handleClose_in_flight code reason w :
  (in_flight (handleClose code reason w) ≤ S (in_flight w))%nat.
Proof.
  rewrite handleClose_closing. destruct (no_reconnect code).
  - rewrite (in_flight_flight w) by (by rewrite log_flight, closing_flight). lia.
  - etrans; [apply scheduleReconnect_in_flight |].
    rewrite (in_flight_flight w) by apply closing_flight. lia.
Qed.

Lemma handleMessage_flight raw w : flight (handleMessage raw w) = flight w.
Proof.
  unfold handleMessage, established, flight.
  destruct raw as [message |]; [| by frame].
  case_decide; [destruct (socketId_property (data message)) | case_decide]; by frame.
Qed.

Lemma handleMessage_opened raw w : opened (trace (handleMessage raw w)) = opened (trace w).
Proof.
  unfold handleMessage, established.
  destruct raw as [message |]; [| by frame].
  case_decide; [destruct (socketId_property (data message)) | case_decide]; by frame.
Qed.

Lemma handleMessage_armed raw w : armed (trace (handleMessage raw w)) = armed (trace w).
Proof.
  unfold handleMessage, established.
  destruct raw as [message |]; [| by frame].
  case_decide; [destruct (socketId_property (data message)) | case_decide]; by frame.
Qed.

(** What [disconnect] does to the sockets and the pending timers, and that
    it opens nothing, arms nothing and emits nothing. *)
Lemma disconnect_flight w :
  live_count (sockets (host (disconnect w))) = live_count (sockets (host w))
  ∧ timeouts (host (disconnect w))
    = match reconnectTimeout (this w) with
      | Some h => delete h (timeouts (host w))
      | None => timeouts (host w)
      end
  ∧ opened (trace (disconnect w)) = opened (trace w)
  ∧ armed (trace (disconnect w)) = armed (trace w).
Proof.
  destruct w as [[n o s i st k t hb] l hp cl [socks touts ivals hs] tr].
  unfold disconnect, stopHeartbeat, clearTimeout, clearInterval, ws_close.
  destruct t as [t |], hb as [hb |], s as [s |]; cbn -[live_count];
    try (destruct (socks !! s) as [[u r] |] eqn:Hsock; [destruct r |];
         cbn -[live_count]);
    (split_and!;
     first
       [ done
       | by rewrite ?opened_snoc, ?app_nil_r
       | by rewrite ?armed_snoc, ?app_nil_r
       | apply live_count_alter_live; [intros sock; rewrite Hsock; by intros [= <-] | done] ]).
Qed.

Lemma disconnect_in_flight w : (in_flight (disconnect w) ≤ in_flight w)%nat.
Proof.
  unfold in_flight. destruct (disconnect_flight w) as (-> & -> & _).
  destruct (reconnectTimeout (this w)) as [h |]; [| done].
  pose proof (map_size_delete h (timeouts (host w))) as Hsize.
  destruct (timeouts (host w) !! h); unfold id in Hsize; lia.
Qed.

Section Flight.

Variable rejects : string → bool.

Lemma open_transport_in_flight w :
  (in_flight (open_transport rejects w) ≤ S (in_flight w))%nat.
Proof.
  unfold open_transport, new_WebSocket. frame. destruct (rejects _).
  - etrans; [apply scheduleReconnect_in_flight |].
    rewrite (in_flight_flight w); [lia |]. unfold flight. by frame.
  - unfold in_flight. frame. rewrite live_count_snoc. lia.
Qed.

Lemma connect_in_flight w : (in_flight (connect rejects w) ≤ S (in_flight w))%nat.
Proof.
  unfold connect. case_bool_decide; [lia |].
  destruct (isValidPublicKey _); cbn [negb].
  - apply open_transport_in_flight.
  - rewrite (in_flight_flight w) by apply emit_flight. lia.
Qed.

(** No action of the event loop adds to what is in flight: a close or a
    timer uses up the socket or timer that delivered it before it can arm a
    timer or open a socket. *)
Lemma step_in_flight a w w' :
  step rejects a w = Some w' → (in_flight w' ≤ in_flight w)%nat.
Proof.
  intros Hstep. destruct a; cbn [step] in Hstep.
  - unfold socket_state in Hstep.
    destruct (sockets (host w) !! s) as [[u r] |] eqn:Hs; [| done].
    destruct r; simplify_eq/=.
    rewrite (in_flight_flight (upd_host (set_readyState s OPEN) w)) by apply log_flight.
    unfold in_flight. cbn -[live_count].
    rewrite live_count_alter_live; [done | | done].
    intros sock. rewrite Hs. by intros [= <-].
  - destruct (socket_state s w) as [[] |]; simplify_eq.
    by rewrite (in_flight_flight w) by apply handleMessage_flight.
  - destruct (socket_state s w) as [[] |]; simplify_eq;
      by rewrite (in_flight_flight w) by (by rewrite emit_flight, log_flight).
  - unfold socket_state in Hstep.
    destruct (sockets (host w) !! s) as [[u r] |] eqn:Hs; [| done].
    assert (r ≠ CLOSED → Some w' = Some (handleClose code reason
                                           (upd_host (set_readyState s CLOSED) w)) →
            (in_flight w' ≤ in_flight w)%nat) as Hclose.
    { intros Hlive [= ->]. etrans; [apply handleClose_in_flight |].
      unfold in_flight. cbn -[live_count].
      pose proof (live_count_alter_closed (sockets (host w)) s _ Hs Hlive). lia. }
    destruct r; cbn in Hstep; [by apply Hclose .. | done].
  - destruct (timeouts (host w) !! h) as [delay |] eqn:Hh; [| done].
    simplify_eq. etrans; [apply connect_in_flight |].
    unfold in_flight. cbn -[live_count].
    pose proof (map_size_delete h (timeouts (host w))) as Hsize.
    rewrite Hh in Hsize.
    assert (size (timeouts (host w)) ≠ 0%nat).
    { intros Hzero%map_size_empty_inv. by rewrite Hzero in Hh. }
    lia.
  - destruct (intervals (host w) !! h); simplify_eq.
    unfold in_flight. by rewrite heartbeat_host.
  - simplify_eq. unfold in_flight. by rewrite on_host.
  - simplify_eq. unfold in_flight. by rewrite once_host.
  - simplify_eq. unfold in_flight. by rewrite off_host.
  - simplify_eq. unfold in_flight. by rewrite trigger_host.
  - simplify_eq. apply disconnect_in_flight.
Qed.

Lemma run_in_flight actions w w' :
  run rejects actions w = Some w' → (in_flight w' ≤ in_flight w)%nat.
Proof.
  revert w. induction actions as [| a rest IH]; intros w Hrun; cbn [run] in Hrun.
  - by simplify_eq.
  - destruct (step rejects a w) as [w1 |] eqn:Hstep; [| done].
    etrans; [by apply IH |]. by eapply step_in_flight.
Qed.

(** At most one socket or reconnect timer of a channel is in flight. *)
Lemma reachable_in_flight w : reachable rejects w → (in_flight w ≤ 1)%nat.
Proof.
  intros (channelName & o & actions & Hrun).
  etrans; [by eapply run_in_flight |].
  etrans; [apply connect_in_flight |]. done.
Qed.

End Flight.

(** ** After the last attempt *)

Lemma quiescent_closed w s r : quiescent w → socket_state s w = Some r → r = CLOSED.
Proof.
  intros [Hlive _]. unfold socket_state.
  destruct (sockets (host w) !! s) as [sock |] eqn:Hs; [| done].
  intros [= <-]. by eapply live_count_zero.
Qed.

Lemma heartbeat_cases w : heartbeat w = w ∨ ∃ s, heartbeat w = say (Send s ping) w.
Proof.
  unfold heartbeat, ws_send. destruct (ws (this w)) as [s |]; [| by left].
  destruct (is_open s w); [right; by exists s | by left].
Qed.

Lemma trigger_quiet payload w :
  opened (trace (trigger payload w)) = opened (trace w)
  ∧ armed (trace (trigger payload w)) = armed (trace w)
  ∧ emitted (trace (trigger payload w)) = emitted (trace w).
Proof.
  unfold trigger, ws_send. destruct (ws (this w)); [case_match |];
    frame; by rewrite ?app_nil_r.
Qed.

Section Final.

Variable rejects : string → bool.

(** In a quiescent world the host has nothing to deliver, and no call of the
    public API opens a socket, arms a timer or emits an event. *)
Lemma quiescent_step a w w' :
  quiescent w → step rejects a w = Some w' →
  quiescent w'
  ∧ opened (trace w') = opened (trace w)
  ∧ armed (trace w') = armed (trace w)
  ∧ emitted (trace w') = emitted (trace w).
Proof.
  intros Hq Hstep. destruct a; cbn [step] in Hstep.
  - destruct (socket_state s w) as [r |] eqn:Hs; [| done].
    apply (quiescent_closed w s r Hq) in Hs. by subst r.
  - destruct (socket_state s w) as [r |] eqn:Hs; [| done].
    apply (quiescent_closed w s r Hq) in Hs. by subst r.
  - destruct (socket_state s w) as [r |] eqn:Hs; [| done].
    apply (quiescent_closed w s r Hq) in Hs. by subst r.
  - destruct (socket_state s w) as [r |] eqn:Hs; [| done].
    apply (quiescent_closed w s r Hq) in Hs. by subst r.
  - destruct Hq as [_ Hnone]. by rewrite Hnone, lookup_empty in Hstep.
  - destruct (intervals (host w) !! h); simplify_eq.
    destruct (heartbeat_cases w) as [-> | [s ->]]; [done |].
    split_and!; [done | | |]; frame; by rewrite app_nil_r.
  - simplify_eq. split.
    + eapply quiescent_flight; [| done]. unfold flight. by rewrite on_host.
    + by rewrite on_trace.
  - simplify_eq. split.
    + eapply quiescent_flight; [| done]. unfold flight. by rewrite once_host.
    + by rewrite once_trace.
  - simplify_eq. split.
    + eapply quiescent_flight; [| done]. unfold flight. by rewrite off_host.
    + by rewrite off_trace.
  - simplify_eq. split; [| apply trigger_quiet].
    eapply quiescent_flight; [| done]. unfold flight. by rewrite trigger_host.
  - simplify_eq. destruct Hq as [Hlive Hnone].
    destruct (disconnect_flight w) as (Hsocks & Htimeouts & Hopened & Harmed).
    destruct (disconnect_teardown w) as (_ & _ & _ & _ & _ & _ & Hemitted & _).
    split_and!; [| done | done | done].
    split; [by rewrite Hsocks |].
    rewrite Htimeouts, Hnone. destruct (reconnectTimeout (this w)); [| done].
    apply delete_empty.
Qed.

Lemma quiescent_run actions w w' :
  quiescent w → run rejects actions w = Some w' →
  quiescent w'
  ∧ opened (trace w') = opened (trace w)
  ∧ armed (trace w') = armed (trace w)
  ∧ emitted (trace w') = emitted (trace w).
Proof.
  revert w. induction actions as [| a rest IH]; intros w Hq Hrun; cbn [run] in Hrun.
  - by simplify_eq.
  - destruct (step rejects a w) as [w1 |] eqn:Hstep; [| done].
    destruct (quiescent_step a w w1 Hq Hstep) as (Hq1 & Ho & Ha & He).
    destruct (IH w1 Hq1 Hrun) as (? & -> & -> & ->). done.
Qed.

(** [connect] on a channel that may connect, has a well-formed key and has
    used up its attempts, on a host that refuses the address: the catch runs
    [scheduleReconnect], which gives up. *)
Lemma connect_gives_up w :
  autoReconnect (options (this w)) = true →
  maxReconnectAttempts (options (this w)) ≤ Z.of_nat (reconnectAttempts (this w)) →
  state (this w) ≠ connecting → state (this w) ≠ connected →
  isValidPublicKey (key (options (this w))) = true →
  rejects (address_of (this w)) = true →
  let entering := if decide (0 < reconnectAttempts (this w))%nat
                  then reconnecting else connecting in
  flight (connect rejects w) = flight w
  ∧ this (connect rejects w) = set_state entering (this w)
  ∧ emitted (trace (connect rejects w))
    = emitted (trace w)
        ++ [("state:change", DState entering);
            ("error", DError None "Failed to connect");
            ("reconnect:failed", DReconnectFailed (reconnectAttempts (this w)))]
  ∧ opened (trace (connect rejects w)) = opened (trace w)
  ∧ armed (trace (connect rejects w)) = armed (trace w).
Proof.
  intros Hauto Hmax Hconnecting Hconnected Hkey Hrejects. cbn zeta.
  unfold connect. rewrite bool_decide_eq_false_2 by (by intros [|]).
  rewrite Hkey. cbn [negb].
  unfold open_transport, new_WebSocket. rewrite (emit_this "state:change").
  set (entering := if decide (0 < reconnectAttempts (this w))%nat
                   then reconnecting else connecting).
  change (address_of (this (upd_this (set_state entering) w)))
    with (address_of (this w)).
  rewrite Hrejects. lazy iota.
  rewrite scheduleReconnect_exhausted by (by frame).
  unfold flight. frame. by rewrite <- !app_assoc.
Qed.

(** C4: when [scheduleReconnect] runs with [autoReconnect] on and the attempt
    counter at [maxReconnectAttempts], it emits exactly the one event
    [reconnect:failed] with the counter, and changes neither the channel (so
    the counter is not raised) nor the host (so no timer is armed).  It runs
    from two places, and after either nothing is left in flight, so that
    whatever the host and the application do afterwards no socket is opened,
    no timer is armed and no further event is emitted: from the close handler,
    on the close of a socket of a channel built by the constructor; and from
    the catch of [connect], when the host refuses the address, be it in the
    constructor or when a reconnect timer fires (the world in which a timer's
    [connect] runs has nothing else in flight). *)
Theorem reconnect_failed_is_final w :
  autoReconnect (options (this w)) = true →
  maxReconnectAttempts (options (this w)) ≤ Z.of_nat (reconnectAttempts (this w)) →
  (this (scheduleReconnect w) = this w
   ∧ host (scheduleReconnect w) = host w
   ∧ emitted (trace (scheduleReconnect w))
     = emitted (trace w)
         ++ [("reconnect:failed", DReconnectFailed (reconnectAttempts (this w)))]
   ∧ armed (trace (scheduleReconnect w)) = armed (trace w)
   ∧ opened (trace (scheduleReconnect w)) = opened (trace w))
  ∧ (reachable rejects w →
     ∀ s code reason w1,
       code ∉ terminal_codes →
       step rejects (SocketClose s code reason) w = Some w1 →
       emitted (trace w1)
       = emitted (trace w) ++ close_error code reason
           ++ disconnected_events code reason
           ++ [("reconnect:failed", DReconnectFailed (reconnectAttempts (this w)))]
       ∧ reconnectAttempts (this w1) = reconnectAttempts (this w)
       ∧ ∀ actions w2,
           run rejects actions w1 = Some w2 →
           opened (trace w2) = opened (trace w1)
           ∧ armed (trace w2) = armed (trace w1)
           ∧ emitted (trace w2) = emitted (trace w1)
           ∧ timeouts (host w2) = ∅)
  ∧ (quiescent w →
     state (this w) ≠ connecting → state (this w) ≠ connected →
     isValidPublicKey (key (options (this w))) = true →
     rejects (address_of (this w)) = true →
     let w1 := connect rejects w in
     emitted (trace w1)
     = emitted (trace w)
         ++ [("state:change",
              DState (if decide (0 < reconnectAttempts (this w))%nat
                      then reconnecting else connecting));
             ("error", DError None "Failed to connect");
             ("reconnect:failed", DReconnectFailed (reconnectAttempts (this w)))]
     ∧ reconnectAttempts (this w1) = reconnectAttempts (this w)
     ∧ opened (trace w1) = opened (trace w)
     ∧ armed (trace w1) = armed (trace w)
     ∧ ∀ actions w2,
         run rejects actions w1 = Some w2 →
         opened (trace w2) = opened (trace w1)
         ∧ armed (trace w2) = armed (trace w1)
         ∧ emitted (trace w2) = emitted (trace w1)
         ∧ timeouts (host w2) = ∅)
  ∧ (reachable rejects w →
     ∀ h w1,
       step rejects (TimeoutFires h) w = Some w1 →
       ∃ w0, w1 = connect rejects w0 ∧ this w0 = this w ∧ trace w0 = trace w
             ∧ quiescent w0).
Proof.
  intros Hauto Hmax. split; [| split; [| split]].
  - rewrite scheduleReconnect_exhausted by done. by frame.
  - intros Hreach s code reason w1 Hcode Hstep.
    apply (reachable_in_flight rejects) in Hreach.
    assert (no_reconnect code = false) as Hno.
    { destruct (no_reconnect code) eqn:E; [| done].
      by apply no_reconnect_terminal in E. }
    cbn [step] in Hstep. unfold socket_state in Hstep.
    destruct (sockets (host w) !! s) as [[u r] |] eqn:Hs; [| done].
    assert (r ≠ CLOSED
            ∧ w1 = handleClose code reason (upd_host (set_readyState s CLOSED) w))
      as [Hlive ->].
    { destruct r; cbn in Hstep; by simplify_eq. }
    rewrite handleClose_closing, Hno.
    rewrite scheduleReconnect_exhausted by by frame.
    assert (quiescent (emit "reconnect:failed"
                         (DReconnectFailed
                            (reconnectAttempts
                               (this (closing code reason
                                        (upd_host (set_readyState s CLOSED) w)))))
                         (log "Max reconnect attempts reached"
                            (closing code reason
                               (upd_host (set_readyState s CLOSED) w))))) as Hq.
    { eapply (quiescent_flight (upd_host (set_readyState s CLOSED) w)).
      - by rewrite emit_flight, log_flight, closing_flight.
      - pose proof (live_count_alter_closed (sockets (host w)) s _ Hs Hlive) as Hcount.
        unfold in_flight in Hreach. split; cbn -[live_count]; [lia |].
        apply map_size_empty_inv. lia. }
    split_and!.
    + frame. by rewrite <- !app_assoc.
    + by frame.
    + intros actions w2 Hrun.
      destruct (quiescent_run actions _ w2 Hq Hrun) as ([_ Hnone] & ? & ? & ?).
      done.
  - intros Hq Hconnecting Hconnected Hkey Hrejects. cbn zeta.
    destruct (connect_gives_up w Hauto Hmax Hconnecting Hconnected Hkey Hrejects)
      as (Hflight & Hthis & Hemitted & Hopened & Harmed).
    split_and!; [done | by rewrite Hthis | done | done |].
    intros actions w2 Hrun.
    assert (quiescent (connect rejects w)) as Hq1 by by eapply quiescent_flight.
    destruct (quiescent_run actions _ w2 Hq1 Hrun) as ([_ Hnone] & ? & ? & ?).
    done.
  - intros Hreach h w1 Hstep.
    apply (reachable_in_flight rejects) in Hreach.
    cbn [step] in Hstep.
    destruct (timeouts (host w) !! h) as [delay |] eqn:Hh; [| done].
    simplify_eq. eexists. split_and!; [done | done | done |].
    unfold in_flight in Hreach.
    pose proof (map_size_delete h (timeouts (host w))) as Hsize.
    rewrite Hh in Hsize.
    destruct (decide (size (timeouts (host w)) = 0%nat)) as [Hzero | Hpos];
      [apply map_size_empty_inv in Hzero; by rewrite Hzero, lookup_empty in Hh |].
    split.
    + change (live_count (sockets (host w)) = 0%nat). lia.
    + change (delete h (timeouts (host w)) = ∅). apply map_size_empty_inv. lia.
Qed.

End Final.

(** ** The key check *)

Lemma strip_prefix_Some p s rest : strip_prefix p s = Some rest ↔ s = p +:+ rest.
Proof.
  revert s. induction p as [| c p IH]; intros s; cbn.
  - split; [by intros [= ->] | by intros ->].
  - destruct s as [| c' s]; [done |]. case_decide as Hc.
    + subst c'. rewrite IH. split; [by intros -> | by intros [= ->]].
    + split; [done | intros [= ? ?]; by subst].
Qed.

(** The keys [connect] lets through: [wpk_live_] and then exactly 43
    characters, each of them [url_safe]. *)
Lemma isValidPublicKey_pattern k :
  isValidPublicKey k = true
  ↔ ∃ token, k = "wpk_live_" +:+ token
             ∧ String.length token = 43%nat
             ∧ all_chars url_safe token = true.
Proof.
  unfold isValidPublicKey. split.
  - destruct (strip_prefix "wpk_live_" k) as [token |] eqn:Hstrip; [| done].
    intros [Hlen Hchars]%andb_true_iff. apply bool_decide_eq_true in Hlen.
    exists token. by apply strip_prefix_Some in Hstrip.
  - intros (token & Hk & Hlen & Hchars).
    apply strip_prefix_Some in Hk. rewrite Hk.
    by rewrite bool_decide_eq_true_2, Hchars.
Qed.

Lemma upd_this_id f w : this (upd_host f w) = this w.
Proof. reflexivity. Qed.

Lemma disconnect_this w :
  this (disconnect w)
  = set_state disconnected
      (set_socketId null
         (set_ws None
            (set_heartbeatInterval None (set_reconnectTimeout None (this w))))).
Proof.
  destruct w as [[n o s i st k t hb] l hp cl [socks touts ivals hs] tr].
  unfold disconnect, stopHeartbeat, clearTimeout, clearInterval, ws_close.
  destruct t as [t |], hb as [hb |], s as [s |]; cbn;
    try (destruct (socks !! s) as [[u r] |] eqn:Hsock; [destruct r |]; cbn);
    done.
Qed.

Section Keys.

Variable rejects : string → bool.

(** In the source module, [connect] with a malformed key on a disconnected
    channel emits the error with code 4403 and nothing else: no socket is
    opened, no timer armed, and the channel (its state and its attempt counter
    among the rest) is as before. *)
Lemma connect_refuses_malformed_key w :
  isValidPublicKey (key (options (this w))) = false →
  state (this w) = disconnected →
  let w' := connect rejects w in
  this w' = this w
  ∧ host w' = host w
  ∧ emitted (trace w')
    = emitted (trace w)
        ++ [("error", DError (Some 4403)
                        "Invalid public API key format. Expected wpk_live_*")]
  ∧ opened (trace w') = opened (trace w)
  ∧ armed (trace w') = armed (trace w).
Proof.
  intros Hkey Hstate. cbn zeta. unfold connect.
  rewrite bool_decide_eq_false_2 by (rewrite Hstate; intros [|]; done).
  rewrite Hkey. cbn [negb]. by frame.
Qed.

Lemma refused_step a w w' : refused w → step rejects a w = Some w' → refused w'.
Proof.
  intros (Hkey & Hstate & Hcount & Hopened & Hq) Hstep.
  destruct (quiescent_step rejects a w w' Hq Hstep) as (Hq' & Hopened' & _).
  assert (this w' = this w ∨ w' = disconnect w) as Hthis.
  { destruct a; cbn [step] in Hstep.
    - destruct (socket_state s w) as [r |] eqn:Hs; [| done].
      apply (quiescent_closed w s r Hq) in Hs. by subst r.
    - destruct (socket_state s w) as [r |] eqn:Hs; [| done].
      apply (quiescent_closed w s r Hq) in Hs. by subst r.
    - destruct (socket_state s w) as [r |] eqn:Hs; [| done].
      apply (quiescent_closed w s r Hq) in Hs. by subst r.
    - destruct (socket_state s w) as [r |] eqn:Hs; [| done].
      apply (quiescent_closed w s r Hq) in Hs. by subst r.
    - destruct Hq as [_ Hnone]. by rewrite Hnone, lookup_empty in Hstep.
    - destruct (intervals (host w) !! h); simplify_eq. left. apply heartbeat_this.
    - simplify_eq. left. apply on_this.
    - simplify_eq. left. apply once_this.
    - simplify_eq. left. apply off_this.
    - simplify_eq. left. apply trigger_this.
    - simplify_eq. by right. }
  unfold refused. rewrite Hopened'.
  destruct Hthis as [-> | ->]; [done |].
  rewrite disconnect_this. cbn. done.
Qed.

(** X14: with a malformed key the constructor's [connect] emits the error
    with code 4403, and from then on the channel stays disconnected with its
    counter at zero and never opens a socket, whatever happens. *)
Lemma malformed_key_never_connects channelName o actions w :
  isValidPublicKey (opt_key o) = false →
  run rejects actions (new_KalzeChannel rejects channelName o) = Some w →
  emitted (trace (new_KalzeChannel rejects channelName o))
  = [("error", DError (Some 4403) "Invalid public API key format. Expected wpk_live_*")]
  ∧ state (this w) = disconnected
  ∧ reconnectAttempts (this w) = 0%nat
  ∧ opened (trace w) = [].
Proof.
  intros Hkey Hrun.
  destruct (connect_refuses_malformed_key (fresh channelName o) Hkey eq_refl)
    as (Hthis & Hhost & Hemitted & Hopened & _).
  assert (refused (new_KalzeChannel rejects channelName o)) as Hstart.
  { unfold refused, new_KalzeChannel, quiescent.
    rewrite Hthis, Hhost, Hopened. by cbn. }
  split; [exact Hemitted |].
  clear -Hstart Hrun. revert Hstart Hrun.
  generalize (new_KalzeChannel rejects channelName o).
  induction actions as [| a rest IH]; intros w0 Hstart Hrun; cbn [run] in Hrun.
  - simplify_eq. by destruct Hstart as (_ & ? & ? & ? & _).
  - destruct (step rejects a w0) as [w1 |] eqn:Hstep; [| done].
    eapply IH; [| done]. by eapply refused_step.
Qed.

(** ** The compiled build *)

(** [connect] of the compiled build opens the transport whatever the key. *)
Lemma dist_connect_ignores_key w :
  state (this w) = disconnected →
  rejects (address_of (this w)) = false →
  let w' := dist_connect rejects w in
  ws (this w') = Some (length (sockets (host w)))
  ∧ (state (this w') = connecting ∨ state (this w') = reconnecting)
  ∧ opened (trace w') = opened (trace w) ++ [(length (sockets (host w)), address_of (this w))]
  ∧ emitted (trace w') = emitted (trace w) ++ [("state:change", DState (state (this w')))].
Proof.
  intros Hstate Haccept. cbn zeta. unfold dist_connect.
  rewrite bool_decide_eq_false_2 by (rewrite Hstate; intros [|]; done).
  unfold open_transport, new_WebSocket. frame.
  assert (address_of (set_state (if decide (0 < reconnectAttempts (this w))%nat
                                 then reconnecting else connecting) (this w))
          = address_of (this w)) as -> by done.
  rewrite Haccept. frame. rewrite app_nil_r.
  split_and!; [done | case_decide; auto | done | done].
Qed.

End Keys.

(** [handleClose] of the compiled build reconnects after the codes 4401,
    4403 and 4408, which the source module treats as final. *)
Lemma dist_handleClose_reconnects w code reason :
  code ∈ [4401; 4403; 4408] →
  autoReconnect (options (this w)) = true →
  Z.of_nat (reconnectAttempts (this w)) < maxReconnectAttempts (options (this w)) →
  let w' := dist_handleClose code reason w in
  let attempt := S (reconnectAttempts (this w)) in
  let delay := backoff (reconnectDelay (options (this w))) attempt in
  code ∈ terminal_codes
  ∧ reconnectAttempts (this w') = attempt
  ∧ armed (trace w') = armed (trace w) ++ [(handles (host w), delay)]
  ∧ emitted (trace w')
    = emitted (trace w) ++ disconnected_events code reason
        ++ [("reconnecting", DReconnecting attempt delay)].
Proof.
  intros Hcode Hauto Hless. cbn zeta.
  assert (dist_no_reconnect code = false ∧ code ∈ terminal_codes) as [Hno Hterm].
  { unfold terminal_codes. rewrite !elem_of_cons, elem_of_nil in Hcode.
    destruct Hcode as [-> | [-> | [-> | []]]]; (split; [done | set_solver]). }
  split; [done |].
  rewrite dist_handleClose_closing. cbn zeta. rewrite Hno.
  destruct (scheduleReconnect_arms
              (close_transition code reason
                 (log ("Connection closed: " +:+ pretty code +:+ " - " +:+ reason) w)))
    as (Hthis & _ & Hemitted & Harmed & _); [by frame | by frame |].
  rewrite Hthis, Hemitted, Harmed. frame. by rewrite <- !app_assoc.
Qed.

Lemma disconnect_handles w : handles (host (disconnect w)) = handles (host w).
Proof.
  destruct w as [[n o s i st k t hb] l hp cl [socks touts ivals hs] tr].
  unfold disconnect, stopHeartbeat, clearTimeout, clearInterval, ws_close.
  destruct t as [t |], hb as [hb |], s as [s |]; cbn;
    try (destruct (socks !! s) as [[u r] |] eqn:Hsock; [destruct r |]; cbn);
    done.
Qed.

(** The defect behind C2 in general: whenever [disconnect] closes an open
    transport of a channel that has [autoReconnect] on and attempts left, the
    [close] event of that transport, with any code outside the terminal set,
    is delivered to [handleClose] and schedules a reconnect. *)
Lemma close_after_disconnect_reconnects (rejects : string → bool) w s code reason :
  ws (this w) = Some s → is_open s w = true →
  autoReconnect (options (this w)) = true →
  Z.of_nat (reconnectAttempts (this w)) < maxReconnectAttempts (options (this w)) →
  code ∉ terminal_codes →
  ∃ w1, step rejects (SocketClose s code reason) (disconnect w) = Some w1
        ∧ reconnectAttempts (this w1) = S (reconnectAttempts (this w))
        ∧ armed (trace w1)
          = armed (trace w)
              ++ [(handles (host w),
                   backoff (reconnectDelay (options (this w)))
                           (S (reconnectAttempts (this w))))]
        ∧ reconnectTimeout (this w1) = Some (handles (host w)).
Proof.
  intros Hws Hopen Hauto Hless Hcode.
  destruct (disconnect_teardown w) as (_ & _ & _ & _ & _ & _ & _ & _ & _ & _ & Hclosing).
  destruct (Hclosing s Hws Hopen) as [Hstate _].
  eexists. split; [cbn [step]; by rewrite Hstate |].
  destruct (handleClose_arms_timer
              (upd_host (set_readyState s CLOSED) (disconnect w)) code reason)
    as (Hcount & Harmed & _ & Htimer & _);
    [done | by rewrite upd_this_id, disconnect_this
     | by rewrite upd_this_id, disconnect_this |].
  revert Hcount Harmed Htimer. cbn [this host trace upd_host handles set_readyState].
  rewrite disconnect_this, disconnect_handles.
  destruct (disconnect_flight w) as (_ & _ & _ & ->).
  by intros -> -> ->.
Qed.

(** ** The listener map stays well formed *)

Lemma registry_inv_same w w' :
  eventListeners w' = eventListeners w → heap w' = heap w →
  registry_inv w → registry_inv w'.
Proof.
  unfold registry_inv, well_formed, sets_ok, registry_ok, allocated.
  by intros -> ->.
Qed.

Lemma log_registry_inv message w : registry_inv w → registry_inv (log message w).
Proof. apply registry_inv_same; [apply log_listeners | apply log_heap]. Qed.

Lemma delete_registry_inv ev w :
  registry_inv w → registry_inv (upd_listeners (delete ev) w).
Proof.
  intros [[Hsets Hreg] Halloc]. split; [split; [done |] |].
  - intros ev0 a. cbn. intros [Hne Hev0]%lookup_delete_Some.
    destruct (Hreg ev0 a Hev0) as [Hown Honce]. split; [| done].
    intros ev' [_ Hev']%lookup_delete_Some. by apply Hown.
  - intros ev0 a. cbn. intros [_ Hev0]%lookup_delete_Some. by eapply Halloc.
Qed.

Lemma set_delete_registry_inv cb a w :
  registry_inv w → registry_inv (upd_heap (alter (set_delete cb) a) w).
Proof.
  intros [[Hsets Hreg] Halloc]. split; [split |].
  - intros a0 entries. cbn. destruct (decide (a = a0)) as [-> | Hne].
    + rewrite list_lookup_alter_eq. destruct (heap w !! a0) as [old |] eqn:Ha; [| done].
      intros [= <-]. apply set_delete_NoDup. eauto.
    + rewrite list_lookup_alter_ne by done. apply Hsets.
  - intros ev0 a0 Hev0. cbn in *. destruct (Hreg ev0 a0 Hev0) as [Hown Honce].
    split; [done |]. intros entries wid ev' f.
    destruct (decide (a = a0)) as [-> | Hne].
    + rewrite list_lookup_alter_eq. destruct (heap w !! a0) as [old |] eqn:Ha; [| done].
      intros [= <-] Hin%set_delete_subset. by eapply Honce.
    + rewrite list_lookup_alter_ne by done. apply Honce.
  - intros ev0 a0 Hev0. cbn in *. destruct (Halloc ev0 a0 Hev0) as [old Hold].
    destruct (decide (a = a0)) as [-> | Hne].
    + rewrite list_lookup_alter_eq, Hold. by eexists.
    + rewrite list_lookup_alter_ne by done. by eexists.
Qed.

Lemma off_registry_inv ev cb w : registry_inv w → registry_inv (off ev cb w).
Proof.
  intros Hinv. unfold off. destruct cb as [cb |]; [| by apply delete_registry_inv].
  destruct (eventListeners w !! ev) as [a |]; [| done].
  case_decide; [apply delete_registry_inv |]; by apply set_delete_registry_inv.
Qed.

Lemma set_add_NoDup cb (entries : SetData) :
  NoDup (omap id entries) → NoDup (omap id (set_add cb entries)).
Proof.
  intros Hnodup. unfold set_add. case_decide as Hin; [done |].
  rewrite omap_app. cbn. apply NoDup_app. split_and!; [done | | apply NoDup_singleton].
  intros x Hx ->%list_elem_of_singleton. apply Hin.
  apply list_elem_of_omap in Hx as (e & He & Hid). cbn in Hid. by subst e.
Qed.

Lemma set_add_elem x cb (entries : SetData) :
  Some x ∈ set_add cb entries → Some x ∈ entries ∨ x = cb.
Proof.
  unfold set_add. case_decide; [by left |].
  rewrite elem_of_app, list_elem_of_singleton. intros [? | [= ->]]; auto.
Qed.

Lemma on_registry_inv ev cb w :
  fits ev cb → registry_inv w → registry_inv (on ev cb w).2.
Proof.
  intros Hfits [[Hsets Hreg] Halloc]. unfold on, new_Set. cbn [snd].
  destruct (eventListeners w !! ev) as [a |] eqn:Hev.
  - rewrite Hev. destruct (Hreg ev a Hev) as [Hown _]. split; [split |].
    + intros a0 entries. cbn. destruct (decide (a = a0)) as [-> | Hne].
      * rewrite list_lookup_alter_eq. destruct (heap w !! a0) as [old |] eqn:Ha; [| done].
        intros [= <-]. apply set_add_NoDup. eauto.
      * rewrite list_lookup_alter_ne by done. apply Hsets.
    + intros ev0 a0 Hev0. cbn in *. destruct (Hreg ev0 a0 Hev0) as [Hown0 Honce0].
      split; [done |]. intros entries wid ev' f.
      destruct (decide (a = a0)) as [-> | Hne].
      * rewrite list_lookup_alter_eq. destruct (heap w !! a0) as [old |] eqn:Ha; [| done].
        intros [= <-] [Hin | <-]%set_add_elem; [by eapply Honce0 |].
        cbn in Hfits. subst ev'. by apply Hown0.
      * rewrite list_lookup_alter_ne by done. apply Honce0.
    + intros ev0 a0 Hev0. cbn in *. destruct (Halloc ev0 a0 Hev0) as [old Hold].
      destruct (decide (a = a0)) as [-> | Hne].
      * rewrite list_lookup_alter_eq, Hold. by eexists.
      * rewrite list_lookup_alter_ne by done. by eexists.
  - cbn [eventListeners upd_listeners upd_heap heap].
    rewrite lookup_insert_eq.
    assert (∀ ev0 a0, eventListeners w !! ev0 = Some a0 → a0 ≠ length (heap w))
      as Hfresh.
    { intros ev0 a0 Hev0 ->. destruct (Halloc _ _ Hev0) as [old Hold].
      apply lookup_lt_Some in Hold. lia. }
    assert (alter (set_add cb) (length (heap w)) (heap w ++ [[]])
            = heap w ++ [[Some cb]]) as Halter.
    { by rewrite alter_app_r_alt, Nat.sub_diag by done. }
    unfold registry_inv, well_formed, sets_ok, registry_ok, allocated.
    cbn [eventListeners heap upd_heap upd_listeners]. rewrite Halter.
    split; [split |].
    + intros a0 entries. intros [Hold | [_ Hnew]]%lookup_app_Some.
      * by eapply Hsets.
      * destruct (a0 - length (heap w))%nat; [| done].
        cbn in Hnew. simplify_eq. cbn. apply NoDup_singleton.
    + intros ev0 a0. rewrite lookup_insert_Some.
      intros [[<- <-] | [Hne Hev0]].
      * split.
        -- intros ev'. rewrite lookup_insert_Some. intros [[? _] | [_ Hev']]; [done |].
           by destruct (Hfresh _ _ Hev').
        -- intros entries wid ev' f. rewrite lookup_app_r by done.
           rewrite Nat.sub_diag. cbn. intros [= <-] Hin%list_elem_of_singleton.
           simplify_eq. by cbn in Hfits.
      * destruct (Hreg ev0 a0 Hev0) as [Hown0 Honce0]. split.
        -- intros ev'. rewrite lookup_insert_Some. intros [[_ <-] | [_ Hev']].
           ++ by destruct (Hfresh _ _ Hev0).
           ++ by apply Hown0.
        -- intros entries wid ev' f Ha0. apply Honce0.
           destruct (Halloc _ _ Hev0) as [old Hold].
           by rewrite lookup_app_l in Ha0 by by eapply lookup_lt_Some.
    + intros ev0 a0. rewrite lookup_insert_Some.
      intros [[_ <-] | [_ Hev0]].
      * rewrite lookup_app_r by done. rewrite Nat.sub_diag. by eexists.
      * destruct (Halloc _ _ Hev0) as [old Hold].
        exists old. by apply lookup_app_l_Some.
Qed.

Lemma once_registry_inv ev f w : registry_inv w → registry_inv (once ev f w).2.
Proof. intros Hinv. unfold once. by apply on_registry_inv. Qed.

Lemma deliver_registry_inv arg complaint cb w :
  registry_inv w → registry_inv (deliver arg complaint cb w).
Proof.
  intros Hinv. unfold deliver.
  destruct cb as [f | wid ev f]; cbn [invoke call];
    destruct (fn_throws f); try apply log_registry_inv;
    first [ exact Hinv | exact (off_registry_inv ev (Some (OnceWrapper wid ev f)) w Hinv) ].
Qed.

Lemma for_listeners_registry_inv ev arg complaint w :
  registry_inv w → registry_inv (for_listeners ev arg complaint w).
Proof.
  intros Hinv. unfold for_listeners. destruct (eventListeners w !! ev); [| done].
  apply (forOf_preserves registry_inv); [| done].
  intros cb w'. apply deliver_registry_inv.
Qed.

Lemma emit_registry_inv ev d w : registry_inv w → registry_inv (emit ev d w).
Proof.
  intros Hinv. unfold emit. by do 2 apply for_listeners_registry_inv.
Qed.

Lemma stopHeartbeat_registry_inv w : registry_inv w → registry_inv (stopHeartbeat w).
Proof.
  apply registry_inv_same; unfold stopHeartbeat;
    by destruct (heartbeatInterval (this w)).
Qed.

(** Peels the steps of a method that do not touch the listener map. *)
Ltac registry :=
  repeat match goal with
    | |- registry_inv (upd_this _ ?w) => change (registry_inv w)
    | |- registry_inv (upd_host _ ?w) => change (registry_inv w)
    | |- registry_inv (upd_closures _ ?w) => change (registry_inv w)
    | |- registry_inv (say _ ?w) => change (registry_inv w)
    | |- registry_inv (log _ _) => apply log_registry_inv
    | |- registry_inv (emit _ _ _) => apply emit_registry_inv
    | |- registry_inv (stopHeartbeat _) => apply stopHeartbeat_registry_inv
    | |- registry_inv (off _ _ _) => apply off_registry_inv
    end;
  try assumption.

Lemma scheduleReconnect_registry_inv w :
  registry_inv w → registry_inv (scheduleReconnect w).
Proof.
  intros Hinv. unfold scheduleReconnect, setTimeout.
  destruct (autoReconnect _); cbn [negb]; [| done].
  case_bool_decide; cbn beta iota zeta; registry.
Qed.

Lemma handleClose_registry_inv code reason w :
  registry_inv w → registry_inv (handleClose code reason w).
Proof.
  intros Hinv. rewrite handleClose_closing.
  assert (registry_inv (closing code reason w)) as Hclosing.
  { unfold closing, close_transition. cbn zeta. registry.
    destruct (getCloseReasonMessage code reason); [case_decide |]; registry. }
  destruct (no_reconnect code);
    [by apply log_registry_inv | by apply scheduleReconnect_registry_inv].
Qed.

Lemma handleMessage_registry_inv raw w :
  registry_inv w → registry_inv (handleMessage raw w).
Proof.
  intros Hinv. unfold handleMessage, established, startHeartbeat, setInterval.
  destruct raw as [message |]; [| registry].
  case_decide; [destruct (socketId_property (data message)) | case_decide];
    cbn beta iota zeta; registry.
Qed.

Lemma disconnect_heap w : heap (disconnect w) = heap w.
Proof.
  destruct w as [[n o s i st k t hb] l hp cl [socks touts ivals hs] tr].
  unfold disconnect, stopHeartbeat, clearTimeout, clearInterval, ws_close.
  destruct t as [t |], hb as [hb |], s as [s |]; cbn;
    try (destruct (socks !! s) as [[u r] |] eqn:Hsock; [destruct r |]; cbn);
    done.
Qed.

Lemma disconnect_registry_inv w : registry_inv w → registry_inv (disconnect w).
Proof.
  intros [[Hsets _] _]. split; [split |].
  - intros a entries. rewrite disconnect_heap. apply Hsets.
  - intros ev a. unfold disconnect. cbn [eventListeners upd_listeners].
    by rewrite lookup_empty.
  - intros ev a. unfold disconnect. cbn [eventListeners upd_listeners].
    by rewrite lookup_empty.
Qed.

Lemma trigger_registry_inv payload w : registry_inv w → registry_inv (trigger payload w).
Proof.
  intros Hinv. unfold trigger, ws_send.
  destruct (ws (this w)); [case_match |]; registry.
Qed.

Lemma heartbeat_registry_inv w : registry_inv w → registry_inv (heartbeat w).
Proof.
  intros Hinv. unfold heartbeat, ws_send.
  destruct (ws (this w)); [case_match |]; registry.
Qed.

Section Registry.

Variable rejects : string → bool.

Lemma connect_registry_inv w : registry_inv w → registry_inv (connect rejects w).
Proof.
  intros Hinv. unfold connect. case_bool_decide; [done |].
  destruct (isValidPublicKey _); cbn [negb]; [| registry].
  unfold open_transport, new_WebSocket. cbn zeta.
  destruct (rejects _); cbn beta iota zeta.
  - apply scheduleReconnect_registry_inv. registry.
  - registry.
Qed.

Lemma step_registry_inv a w w' :
  registry_inv w → step rejects a w = Some w' → registry_inv w'.
Proof.
  intros Hinv Hstep. destruct a; cbn [step] in Hstep.
  - destruct (socket_state s w) as [[] |]; simplify_eq. registry.
  - destruct (socket_state s w) as [[] |]; simplify_eq.
    by apply handleMessage_registry_inv.
  - destruct (socket_state s w) as [[] |]; simplify_eq; registry.
  - destruct (socket_state s w) as [[] |]; simplify_eq;
      by apply handleClose_registry_inv.
  - destruct (timeouts (host w) !! h); simplify_eq. by apply connect_registry_inv.
  - destruct (intervals (host w) !! h); simplify_eq. by apply heartbeat_registry_inv.
  - simplify_eq. by apply on_registry_inv.
  - simplify_eq. by apply once_registry_inv.
  - simplify_eq. by apply off_registry_inv.
  - simplify_eq. by apply trigger_registry_inv.
  - simplify_eq. by apply disconnect_registry_inv.
Qed.

(** In every world a channel can reach, the listener map is well formed:
    every set is duplicate-free and allocated, no two events share a set, and
    a [once] wrapper sits in the set of its own event. *)
Lemma reachable_registry_inv w : reachable rejects w → registry_inv w.
Proof.
  intros (channelName & o & actions & Hrun).
  assert (registry_inv (new_KalzeChannel rejects channelName o)) as Hstart.
  { apply connect_registry_inv. split; [split |]; by intros ? ?. }
  revert Hstart Hrun. generalize (new_KalzeChannel rejects channelName o).
  induction actions as [| a rest IH]; intros w0 Hstart Hrun; cbn [run] in Hrun.
  - by simplify_eq.
  - destruct (step rejects a w0) as [w1 |] eqn:Hstep; [| done].
    eapply IH; [| done]. by eapply step_registry_inv.
Qed.

End Registry.

(** * Concrete runs *)

(** C1: in the compiled build [dist/client.js] a close with code 4401, which
    is in the terminal set, does schedule a reconnect: on a channel just
    constructed with the default options, whose socket the server closes
    with 4401, the attempt counter goes from 0 to 1, [reconnecting] is
    emitted and a timer of 1000 is armed. *)
Theorem dist_handleClose_reconnects_on_4401 :
  let w := upd_host (set_readyState 0 CLOSED) (dist_channel sample_options) in
  let w' := dist_handleClose 4401 "" w in
  4401 ∈ terminal_codes
  ∧ reconnectAttempts (this w) = 0%nat
  ∧ reconnectAttempts (this w') = 1%nat
  ∧ reconnectTimeout (this w') = Some 1%nat
  ∧ timeouts (host w') !! 1%nat = Some (finite 1000)
  ∧ armed (trace w') = [(1%nat, finite 1000)]
  ∧ emitted (trace w')
    = [("state:change", DState connecting);
       ("disconnected", DDisconnected 4401 "");
       ("state:change", DState disconnected);
       ("reconnecting", DReconnecting 1 1000)].
Proof. cbn zeta. split; [set_solver |]. vm_compute. by split_and!. Qed.

(** C6: in the compiled build [dist/client.js] the constructor with the key
    ["bad-key"] emits no error: the state becomes [connecting] and a socket
    is opened to the address that carries the bad key. *)
Theorem dist_connect_opens_with_bad_key :
  let w := dist_channel bad_key_options in
  isValidPublicKey "bad-key" = false
  ∧ state (this w) = connecting
  ∧ ws (this w) = Some 0%nat
  ∧ opened (trace w) = [(0%nat, "wss://ws.websocket.cl/c/acme/room?key=bad-key")]
  ∧ emitted (trace w) = [("state:change", DState connecting)].
Proof. vm_compute. by split_and!. Qed.

(** C2: after [disconnect()] on a connected channel the socket it closed
    still delivers its [close] event to [handleClose]; code 1000 is not one
    of the codes that stop reconnection, so [disconnected], [state:change]
    and [reconnecting] are emitted, the counter goes to 1 and a timer of 1000
    is armed; when it fires the torn-down channel opens a second socket. *)
Theorem disconnect_then_close_reconnects :
  let connected_run := [SocketOpen 0; SocketMessage 0 established_frame] in
  let closed_run := connected_run ++ [CallDisconnect; SocketClose 0 1000 ""] in
  let reopened_run := closed_run ++ [TimeoutFires 2] in
  ((state ∘ this) <$> after sample_options connected_run) = Some connected
  ∧ ((state ∘ this) <$> after sample_options (connected_run ++ [CallDisconnect]))
    = Some disconnected
  ∧ ((emitted ∘ trace) <$> after sample_options (connected_run ++ [CallDisconnect]))
    = Some [("state:change", DState connecting);
            ("connected", DEstablished sample_established);
            ("state:change", DState connected)]
  ∧ ((emitted ∘ trace) <$> after sample_options closed_run)
    = Some [("state:change", DState connecting);
            ("connected", DEstablished sample_established);
            ("state:change", DState connected);
            ("disconnected", DDisconnected 1000 "");
            ("state:change", DState disconnected);
            ("reconnecting", DReconnecting 1 1000)]
  ∧ ((reconnectAttempts ∘ this) <$> after sample_options closed_run) = Some 1%nat
  ∧ ((armed ∘ trace) <$> after sample_options closed_run) = Some [(2%nat, finite 1000)]
  ∧ ((opened ∘ trace) <$> after sample_options reopened_run)
    = Some [(0%nat, sample_address); (1%nat, sample_address)]
  ∧ ((state ∘ this) <$> after sample_options reopened_run) = Some reconnecting
  ∧ ((ws ∘ this) <$> after sample_options reopened_run) = Some (Some 1%nat).
Proof. vm_compute. by split_and!. Qed.

(** Witness of C3: the first close (code 1006, no reason) of a channel built
    with the default options. *)
Lemma handleClose_schedules_backoff_witness :
  let w := new_KalzeChannel accepts "room" sample_options in
  (1006 ∉ terminal_codes)
  ∧ autoReconnect (options (this w)) = true
  ∧ Z.of_nat (reconnectAttempts (this w)) < maxReconnectAttempts (options (this w))
  ∧ reconnectAttempts (this (handleClose 1006 "" w)) = 1%nat
  ∧ armed (trace (handleClose 1006 "" w)) = [(1%nat, finite 1000)]
  ∧ reconnectTimeout (this (handleClose 1006 "" w)) = Some 1%nat.
Proof.
  cbn zeta.
  assert (1006 ∉ terminal_codes) as Hcode by (intros H%no_reconnect_terminal; discriminate H).
  assert (autoReconnect (options (this (new_KalzeChannel accepts "room" sample_options)))
          = true) as Hauto by reflexivity.
  assert (Z.of_nat (reconnectAttempts
                      (this (new_KalzeChannel accepts "room" sample_options)))
          < maxReconnectAttempts
              (options (this (new_KalzeChannel accepts "room" sample_options))))
    as Hless by reflexivity.
  destruct (handleClose_schedules_backoff _ 1006 "" Hcode Hauto Hless)
    as (Hcount & Harmed & _ & Htimer & _ & Hexact & _).
  split_and!; [exact Hcode | exact Hauto | exact Hless
               | exact Hcount | | exact Htimer].
  rewrite Harmed, Hexact; [reflexivity | | vm_compute; lia | vm_compute; reflexivity].
  exists 1000, 0. split_and!; [lia | vm_compute; reflexivity | vm_compute; reflexivity].
Defined.

(** Counterexample to C3 as stated: with a base delay of 2^1023 the first
    close arms a timer of 2^1023, and the second one, for which the product
    is 2^1024, a timer of [Infinity]: the product does not fit a double.  The
    same happens with the default base delay of 1000 at attempt 1016, and with
    a base delay of zero the delay of attempt 1026 is NaN. *)
Lemma backoff_leaves_the_doubles :
  ((armed ∘ trace)
     <$> run accepts [SocketClose 0 1006 ""; TimeoutFires 1; SocketClose 1 1006 ""]
           (new_KalzeChannel accepts "room" huge_delay_options))
  = Some [(1%nat, finite (2 ^ 1023)); (2%nat, Infinity)]
  ∧ Infinity ≠ finite (2 ^ 1023 * 2 ^ (2 - 1))
  ∧ backoff 1000 1016 = Infinity
  ∧ backoff 0 1026 = NaN.
Proof. vm_compute. by split_and!. Qed.

(** The scenario of C3 as a run: three closes in a row, each followed by the
    timer it armed, arm timers of 1000, 2000 and 4000. *)
Example backoff_three_attempts :
  ((armed ∘ trace) <$> after sample_options
           [SocketClose 0 1006 ""; TimeoutFires 1;
            SocketClose 1 1006 ""; TimeoutFires 2;
            SocketClose 2 1006 ""])
  = Some [(1%nat, finite 1000); (2%nat, finite 2000); (3%nat, finite 4000)].
Proof. vm_compute. reflexivity. Qed.

(** Witness of C4: [maxReconnectAttempts] 0 with [autoReconnect] on.  On a
    host that accepts the address, the first close (code 1006) emits
    [reconnect:failed], and a later [trigger] and [disconnect] open nothing;
    on a host that refuses it, the constructor's [connect] emits
    [reconnect:failed], and a later [trigger] opens nothing. *)
Lemma reconnect_failed_is_final_witness :
  let w := new_KalzeChannel accepts "room" exhausted_options in
  let w1 := handleClose 1006 "" (upd_host (set_readyState 0 CLOSED) w) in
  let v1 := new_KalzeChannel refuses "room" exhausted_options in
  autoReconnect (options (this w)) = true
  ∧ maxReconnectAttempts (options (this w)) ≤ Z.of_nat (reconnectAttempts (this w))
  ∧ emitted (trace (scheduleReconnect w))
    = emitted (trace w) ++ [("reconnect:failed", DReconnectFailed 0)]
  ∧ emitted (trace w1)
    = [("state:change", DState connecting);
       ("disconnected", DDisconnected 1006 "");
       ("state:change", DState disconnected);
       ("reconnect:failed", DReconnectFailed 0)]
  ∧ ((opened ∘ trace) <$> run accepts [CallTrigger JNull; CallDisconnect] w1)
    = Some (opened (trace w1))
  ∧ emitted (trace v1)
    = [("state:change", DState connecting);
       ("error", DError None "Failed to connect");
       ("reconnect:failed", DReconnectFailed 0)]
  ∧ ((opened ∘ trace) <$> run refuses [CallTrigger JNull] v1) = Some [].
Proof.
  cbn zeta.
  assert (autoReconnect (options (this (new_KalzeChannel accepts "room" exhausted_options)))
          = true) as Hauto by reflexivity.
  assert (maxReconnectAttempts
            (options (this (new_KalzeChannel accepts "room" exhausted_options)))
          ≤ Z.of_nat (reconnectAttempts
                        (this (new_KalzeChannel accepts "room" exhausted_options))))
    as Hmax by (vm_compute; discriminate).
  destruct (reconnect_failed_is_final accepts _ Hauto Hmax)
    as ((_ & _ & Hemitted & _) & Hfinal & _).
  assert (reachable accepts (new_KalzeChannel accepts "room" exhausted_options))
    as Hreach by (by exists "room", exhausted_options, []).
  assert (1006 ∉ terminal_codes) as Hcode by (intros H%no_reconnect_terminal; discriminate H).
  destruct (Hfinal Hreach 0%nat 1006 "" _ Hcode eq_refl) as (Hclose & _ & Hafter).
  assert (maxReconnectAttempts (options (this (fresh "room" exhausted_options)))
          ≤ Z.of_nat (reconnectAttempts (this (fresh "room" exhausted_options))))
    as Hmax0 by (vm_compute; discriminate).
  assert (isValidPublicKey (key (options (this (fresh "room" exhausted_options)))) = true)
    as Hkey by (vm_compute; reflexivity).
  destruct (reconnect_failed_is_final refuses (fresh "room" exhausted_options)
              eq_refl Hmax0) as (_ & _ & Hcatch & _).
  destruct (Hcatch ltac:(by split) ltac:(discriminate) ltac:(discriminate) Hkey eq_refl)
    as (Hthrown & _ & Hopened0 & _ & Hnever).
  split_and!;
    [exact Hauto | exact Hmax | exact Hemitted | exact Hclose |
     | unfold new_KalzeChannel; exact Hthrown |].
  - destruct (run accepts [CallTrigger JNull; CallDisconnect]
                (handleClose 1006 ""
                   (upd_host (set_readyState 0 CLOSED)
                      (new_KalzeChannel accepts "room" exhausted_options))))
      as [w2 |] eqn:Hrun.
    + destruct (Hafter _ _ Hrun) as (Hopened & _). cbn. by rewrite Hopened.
    + vm_compute in Hrun. discriminate Hrun.
  - unfold new_KalzeChannel.
    destruct (run refuses [CallTrigger JNull]
                (connect refuses (fresh "room" exhausted_options)))
      as [v2 |] eqn:Hrun.
    + destruct (Hnever [CallTrigger JNull] v2 Hrun) as (Hopened & _).
      cbn [fmap option_fmap option_map compose]. by rewrite Hopened, Hopened0.
    + vm_compute in Hrun. discriminate Hrun.
Defined.



(** Witness of C7: a close with a reason, one with a code of the reserved
    range that the table does not list, and one below the range. *)
Lemma handleClose_classifies_code_witness :
  close_error 1006 "going down" = [("error", DError (Some 1006) "going down")]
  ∧ close_error 4500 "" = [("error", DError (Some 4500) "Connection rejected (4500)")]
  ∧ close_error 1006 "" = [].
Proof.
  split_and!.
  - apply (handleClose_classifies_code (fresh "room" sample_options) 1006 "going down").
    discriminate.
  - apply (handleClose_classifies_code (fresh "room" sample_options) 4500 "").
    + discriminate.
    + rewrite !not_elem_of_cons. split_and!; [discriminate .. | apply not_elem_of_nil].
  - apply (handleClose_classifies_code (fresh "room" sample_options) 1006 "").
    reflexivity.
Defined.

(** Counterexample to C9 as stated: the server sends the handshake with
    the payload [{socketId: null}], or with the payload [{}].  The channel is
    connected, and its session identifier is [null], or [undefined]. *)
Lemma handshake_without_identifier :
  match run accepts [SocketOpen 0; SocketMessage 0 null_handshake]
          (new_KalzeChannel accepts "room" sample_options) with
  | Some w =>
      isConnected w = true ∧ getSocketId w = null ∧ ¬ session_inv w
  | None => False
  end
  ∧ match run accepts [SocketOpen 0; SocketMessage 0 empty_handshake]
            (new_KalzeChannel accepts "room" sample_options) with
    | Some w =>
        isConnected w = true ∧ getSocketId w = undefined ∧ ¬ session_inv w
    | None => False
    end.
Proof.
  split.
  - destruct (run accepts [SocketOpen 0; SocketMessage 0 null_handshake]
                (new_KalzeChannel accepts "room" sample_options))
      as [w |] eqn:Hrun; [| vm_compute in Hrun; discriminate Hrun].
    vm_compute in Hrun. injection Hrun as <-.
    split_and!; [reflexivity | reflexivity |].
    intros [_ Hinv]. apply Hinv; [reflexivity | by left].
  - destruct (run accepts [SocketOpen 0; SocketMessage 0 empty_handshake]
                (new_KalzeChannel accepts "room" sample_options))
      as [w |] eqn:Hrun; [| vm_compute in Hrun; discriminate Hrun].
    vm_compute in Hrun. injection Hrun as <-.
    split_and!; [reflexivity | reflexivity |].
    intros [_ Hinv]. apply Hinv; [reflexivity | by right].
Qed.

(** Witness of C9: the handshake with a payload of the declared type, and
    the close that follows. *)
Lemma session_identifier_iff_connected_witness :
  Forall identified
    [SocketOpen 0; SocketMessage 0 established_frame; SocketClose 0 1006 ""]
  ∧ match run accepts [SocketOpen 0; SocketMessage 0 established_frame]
            (new_KalzeChannel accepts "room" sample_options) with
    | Some w =>
        session_inv w ∧ isConnected w = true
        ∧ getSocketId w = parsed (JStr "sock-1")
    | None => False
    end
  ∧ match run accepts
            [SocketOpen 0; SocketMessage 0 established_frame; SocketClose 0 1006 ""]
            (new_KalzeChannel accepts "room" sample_options) with
    | Some w => session_inv w ∧ isConnected w = false ∧ getSocketId w = null
    | None => False
    end.
Proof.
  destruct (session_identifier_iff_connected accepts) as (_ & _ & _ & Hrun_inv & Htyped).
  assert (Forall identified
            [SocketOpen 0; SocketMessage 0 established_frame; SocketClose 0 1006 ""])
    as Hactions.
  { repeat constructor. apply Htyped. }
  split_and!; [exact Hactions | |].
  - destruct (run accepts [SocketOpen 0; SocketMessage 0 established_frame]
                (new_KalzeChannel accepts "room" sample_options))
      as [w |] eqn:Hrun; [| vm_compute in Hrun; discriminate Hrun].
    split_and!.
    + apply (Hrun_inv "room" sample_options
               [SocketOpen 0; SocketMessage 0 established_frame] w); [| exact Hrun].
      repeat constructor. apply Htyped.
    + vm_compute in Hrun. injection Hrun as <-. reflexivity.
    + vm_compute in Hrun. injection Hrun as <-. reflexivity.
  - destruct (run accepts
                [SocketOpen 0; SocketMessage 0 established_frame; SocketClose 0 1006 ""]
                (new_KalzeChannel accepts "room" sample_options))
      as [w |] eqn:Hrun; [| vm_compute in Hrun; discriminate Hrun].
    split_and!.
    + exact (Hrun_inv "room" sample_options _ w Hactions Hrun).
    + vm_compute in Hrun. injection Hrun as <-. reflexivity.
    + vm_compute in Hrun. injection Hrun as <-. reflexivity.
Defined.

(** Witness of C10: three listeners of ["foo"], the second registered with
    [once] (and throwing), and a wildcard listener: all four are called, in
    order, and the second dispatch no longer calls the [once] listener. *)
Lemma once_keeps_dispatch_whole_witness :
  match after sample_options listening with
  | Some w =>
      well_formed w
      ∧ invoked (trace (emit "foo" (DJson (JNum 7)) w))
        = [(1%nat, DJson (JNum 7)); (2%nat, DJson (JNum 7)); (3%nat, DJson (JNum 7));
           (4%nat, DEnvelope "foo" (DJson (JNum 7)))]
      ∧ invoked (trace (emit "foo" (DJson (JNum 8)) (emit "foo" (DJson (JNum 7)) w)))
        = [(1%nat, DJson (JNum 7)); (2%nat, DJson (JNum 7)); (3%nat, DJson (JNum 7));
           (4%nat, DEnvelope "foo" (DJson (JNum 7)));
           (1%nat, DJson (JNum 8)); (3%nat, DJson (JNum 8));
           (4%nat, DEnvelope "foo" (DJson (JNum 8)))]
  | None => False
  end.
Proof.
  destruct (after sample_options listening) as [w |] eqn:Hrun;
    [| vm_compute in Hrun; discriminate Hrun].
  assert (well_formed w) as Hwf.
  { apply (reachable_registry_inv accepts).
    by exists "room", sample_options, listening. }
  destruct (once_keeps_dispatch_whole w "foo" (DJson (JNum 7)) Hwf) as (_ & _ & Hemit).
  split_and!; [exact Hwf | |].
  - rewrite Hemit by discriminate.
    vm_compute in Hrun. injection Hrun as <-. vm_compute. reflexivity.
  - vm_compute in Hrun. injection Hrun as <-. vm_compute. reflexivity.
Defined.

(** * The client's registry *)

Lemma Map_get_app k m1 m2 :
  Map_get k (m1 ++ m2)
  = match Map_get k m1 with Some v => Some v | None => Map_get k m2 end.
Proof.
  induction m1 as [| [k' v] m1 IH]; cbn; [done |]. by case_decide.
Qed.

Lemma Map_get_None k m : Map_get k m = None ↔ k ∉ m.*1.
Proof.
  induction m as [| [k' v] m IH]; cbn.
  - split; [intros _; apply not_elem_of_nil | done].
  - rewrite not_elem_of_cons. case_decide as Hk.
    + split; [done | intros [Hne _]; by destruct Hne].
    + rewrite IH. split; [by intros ? | by intros [_ ?]].
Qed.

Lemma Map_get_elem k v m : Map_get k m = Some v → (k, v) ∈ m.
Proof.
  induction m as [| [k' v'] m IH]; cbn; [done |].
  case_decide as Hk; [intros [= ->]; subst; apply list_elem_of_here |].
  intros Hrest. apply list_elem_of_further. auto.
Qed.

Lemma Map_get_delete k k' m :
  Map_get k' (Map_delete k m) = if decide (k' = k) then None else Map_get k' m.
Proof.
  unfold Map_delete. induction m as [| [k0 v] m IH]; [cbn; by case_decide |].
  destruct (decide (k0 ≠ k)) as [Hne | Heq%dec_stable].
  - rewrite filter_cons_True by done. cbn [Map_get]. rewrite IH.
    repeat case_decide; congruence.
  - rewrite filter_cons_False by (cbn; tauto). cbn [Map_get]. rewrite IH.
    repeat case_decide; congruence.
Qed.

Lemma torn_down_disconnect w : torn_down (disconnect w).
Proof. unfold torn_down. rewrite disconnect_this. by cbn. Qed.

(** Disconnecting the objects of a list of distinct references, one after
    the other, disconnects each of them once and leaves the others alone. *)
Lemma disconnect_each (entries : list (string * nat)) (objs : list World) c :
  NoDup entries.*2 →
  foldl (λ objs entry, alter disconnect entry.2 objs) objs entries !! c
  = if decide (c ∈ entries.*2) then disconnect <$> objs !! c else objs !! c.
Proof.
  revert objs. induction entries as [| [n c'] entries IH]; intros objs Hnodup; cbn.
  - rewrite decide_False by apply not_elem_of_nil. done.
  - apply NoDup_cons in Hnodup as [Hfresh Hnodup]. rewrite IH by done.
    destruct (decide (c = c')) as [-> | Hne].
    + rewrite decide_False by done. rewrite decide_True by apply list_elem_of_here.
      apply list_lookup_alter_eq.
    + rewrite list_lookup_alter_ne by done.
      destruct (decide (c ∈ entries.*2)) as [Hin | Hout].
      * by rewrite decide_True by by apply list_elem_of_further.
      * rewrite decide_False; [done |]. rewrite not_elem_of_cons. done.
Qed.

Lemma disconnect_each_length (entries : list (string * nat)) (objs : list World) :
  length (foldl (λ objs entry, alter disconnect entry.2 objs) objs entries)
  = length objs.
Proof.
  revert objs. induction entries as [| e entries IH]; intros objs; cbn; [done |].
  by rewrite IH, length_alter.
Qed.

Lemma Map_delete_keys k m : (Map_delete k m).*1 = filter (λ x, x ≠ k) m.*1.
Proof.
  unfold Map_delete. induction m as [| [k0 v] m IH]; [done |].
  rewrite fmap_cons. cbn [fst].
  destruct (decide (k0 ≠ k)) as [Hne | Heq].
  - rewrite !filter_cons_True by done. rewrite fmap_cons. by rewrite IH.
  - rewrite !filter_cons_False by done. done.
Qed.

Lemma Map_delete_values k m c : c ∈ (Map_delete k m).*2 → c ∈ m.*2.
Proof.
  unfold Map_delete. intros (e & -> & [_ Hin]%list_elem_of_filter)%list_elem_of_fmap.
  by apply list_elem_of_fmap_2.
Qed.

Lemma Map_delete_values_NoDup k m : NoDup m.*2 → NoDup (Map_delete k m).*2.
Proof.
  induction m as [| [k0 v] m IH]; [done |].
  rewrite fmap_cons. cbn [snd]. intros [Hfresh Hnodup]%NoDup_cons.
  unfold Map_delete. destruct (decide (k0 ≠ k)) as [Hne | Heq].
  - rewrite filter_cons_True by done. rewrite fmap_cons. cbn [snd].
    apply NoDup_cons. split; [| by apply IH].
    intros Hin. by apply Hfresh, (Map_delete_values k).
  - rewrite filter_cons_False by done. by apply IH.
Qed.

Lemma client_ok_get k channelName channel :
  client_ok k → Map_get channelName (channels k) = Some channel →
  ∃ w, objects k !! channel = Some w.
Proof.
  intros (_ & _ & Hrange) Hget%Map_get_elem.
  apply lookup_lt_is_Some. by eapply Hrange.
Qed.

Section Client.

Variable rejects : string → bool.

(** X1: [subscribe] is idempotent per name.  A second call with the same
    name returns the same object and changes nothing (no second channel is
    constructed, so no second transport is opened); a call with a name that
    is already in the map returns the object kept there; a call with a new
    name constructs one channel with the client's options, appends the name
    to the names and leaves every other entry alone. *)
Theorem subscribe_once channelName k :
  let r := subscribe rejects channelName k in
  subscribe rejects channelName r.2 = r
  ∧ getChannel channelName r.2 = Some r.1
  ∧ (∀ channel, getChannel channelName k = Some channel → r = (channel, k))
  ∧ (getChannel channelName k = None →
     r.1 = length (objects k)
     ∧ getChannels r.2 = getChannels k ++ [channelName]
     ∧ objects r.2
       = objects k ++ [new_KalzeChannel rejects channelName (kalze_options k)]
     ∧ ∀ other, other ≠ channelName → getChannel other r.2 = getChannel other k).
Proof.
  cbn zeta. unfold subscribe, getChannel, getChannels.
  destruct (Map_get channelName (channels k)) as [channel |] eqn:Hget.
  - cbn [fst snd]. rewrite Hget. split_and!; [done | done | by intros ? [= ->] | done].
  - cbn [fst snd channels objects kalze_options].
    assert (Map_get channelName (channels k ++ [(channelName, length (objects k))])
            = Some (length (objects k))) as Hnew.
    { rewrite Map_get_app, Hget. cbn. by rewrite decide_True. }
    rewrite Hnew. split_and!; [done | done | done |].
    intros _. split_and!; [done | by rewrite fmap_app | done |].
    intros other Hother. rewrite Map_get_app.
    destruct (Map_get other (channels k)); [done |].
    cbn. by rewrite decide_False.
Qed.

Lemma subscribe_client_ok channelName k :
  client_ok k → client_ok (subscribe rejects channelName k).2.
Proof.
  intros (Hnames & Hrefs & Hrange). unfold subscribe.
  destruct (Map_get channelName (channels k)) as [channel |] eqn:Hget; [done |].
  cbn [snd]. unfold client_ok. cbn [channels objects].
  rewrite !fmap_app, length_app. cbn [fmap list_fmap fst snd length].
  split_and!.
  - apply NoDup_app. split_and!; [done | | apply NoDup_singleton].
    intros x Hx ->%list_elem_of_singleton. by apply Map_get_None in Hget.
  - apply NoDup_app. split_and!; [done | | apply NoDup_singleton].
    intros c (e & Hc & He)%list_elem_of_fmap Hlen%list_elem_of_singleton.
    destruct e as [n c']. cbn in Hc. subst c c'.
    specialize (Hrange n _ He). lia.
  - intros n c [Hold | Hnew%list_elem_of_singleton]%elem_of_app.
    + specialize (Hrange n c Hold). lia.
    + simplify_eq. lia.
Qed.

End Client.

Lemma unsubscribe_client_ok channelName k : client_ok k → client_ok (unsubscribe channelName k).
Proof.
  intros (Hnames & Hrefs & Hrange). unfold unsubscribe.
  destruct (Map_get channelName (channels k)) as [channel |]; [| done].
  unfold client_ok. cbn [channels objects]. split_and!.
  - rewrite Map_delete_keys. by apply NoDup_filter.
  - by apply Map_delete_values_NoDup.
  - intros n c [_ Hin]%list_elem_of_filter. rewrite length_alter. by eapply Hrange.
Qed.

Lemma disconnectAll_client_ok k : client_ok (disconnectAll k).
Proof.
  unfold client_ok, disconnectAll. cbn [channels objects].
  split_and!; [apply NoDup_nil_2 | apply NoDup_nil_2 |].
  by intros n c ?%elem_of_nil.
Qed.

(** X2: [unsubscribe] of a name that is not in the map changes nothing; of a
    name that is, it calls [disconnect] on that channel object (which leaves
    it torn down) and on no other, and removes the name and only that name
    from the map; a later [subscribe] of the name builds a new object. *)
Theorem unsubscribe_tears_down channelName k :
  client_ok k →
  (getChannel channelName k = None → unsubscribe channelName k = k)
  ∧ (∀ channel, getChannel channelName k = Some channel →
       getChannel channelName (unsubscribe channelName k) = None
       ∧ getChannels (unsubscribe channelName k)
         = filter (λ n, n ≠ channelName) (getChannels k)
       ∧ (∃ w, objects k !! channel = Some w
               ∧ objects (unsubscribe channelName k) !! channel = Some (disconnect w)
               ∧ torn_down (disconnect w))
       ∧ (∀ other, other ≠ channel →
            objects (unsubscribe channelName k) !! other = objects k !! other)
       ∧ (∀ other, other ≠ channelName →
            getChannel other (unsubscribe channelName k) = getChannel other k)
       ∧ ∀ rejects,
           (subscribe rejects channelName (unsubscribe channelName k)).1
           = length (objects k)
           ∧ (channel < length (objects k))%nat).
Proof.
  intros Hok. unfold unsubscribe, getChannel, getChannels. split.
  - by intros ->.
  - intros channel Hget. rewrite Hget. cbn [channels objects].
    destruct (client_ok_get k channelName channel Hok Hget) as [w Hw].
    split_and!.
    + rewrite Map_get_delete. by rewrite decide_True.
    + apply Map_delete_keys.
    + exists w. split_and!; [done | | apply torn_down_disconnect].
      by rewrite list_lookup_alter_eq, Hw.
    + intros other Hother. by rewrite list_lookup_alter_ne.
    + intros other Hother. rewrite Map_get_delete. by rewrite decide_False.
    + intros rejects. unfold subscribe. cbn [channels objects].
      rewrite Map_get_delete, decide_True by done. cbn [fst].
      rewrite length_alter. split; [done |]. by eapply lookup_lt_Some.
Qed.

(** X3: [disconnectAll] empties the map, calls [disconnect] exactly once on
    every channel object the map held (which leaves each torn down) and
    touches no other object. *)
Theorem disconnectAll_tears_down_all k :
  client_ok k →
  getChannels (disconnectAll k) = []
  ∧ (∀ channelName, getChannel channelName (disconnectAll k) = None)
  ∧ length (objects (disconnectAll k)) = length (objects k)
  ∧ (∀ channelName channel, getChannel channelName k = Some channel →
       ∃ w, objects k !! channel = Some w
            ∧ objects (disconnectAll k) !! channel = Some (disconnect w)
            ∧ torn_down (disconnect w))
  ∧ (∀ channel, channel ∉ (channels k).*2 →
       objects (disconnectAll k) !! channel = objects k !! channel).
Proof.
  intros Hok. pose proof Hok as (_ & Hrefs & _).
  unfold disconnectAll, getChannel, getChannels. cbn [channels objects].
  split_and!; [done | done | apply disconnect_each_length | |].
  - intros channelName channel Hget.
    destruct (client_ok_get k channelName channel Hok Hget) as [w Hw].
    exists w. split_and!; [done | | apply torn_down_disconnect].
    rewrite disconnect_each by done. rewrite decide_True, Hw; [done |].
    apply Map_get_elem in Hget. by apply (list_elem_of_fmap_2 snd) in Hget.
  - intros channel Hout. rewrite disconnect_each by done. by rewrite decide_False.
Qed.

(** * The channel in every reachable world *)

Lemma scheduleReconnect_this w :
  this (scheduleReconnect w) = this w
  ∨ (Z.of_nat (reconnectAttempts (this w)) < maxReconnectAttempts (options (this w))
     ∧ this (scheduleReconnect w)
       = set_reconnectTimeout (Some (handles (host w)))
           (set_reconnectAttempts (S (reconnectAttempts (this w))) (this w))).
Proof.
  destruct (autoReconnect (options (this w))) eqn:Hauto.
  - destruct (decide (maxReconnectAttempts (options (this w))
                        ≤ Z.of_nat (reconnectAttempts (this w)))) as [Hmax | Hless].
    + left. rewrite scheduleReconnect_exhausted by done. by frame.
    + right. split; [lia |].
      by destruct (scheduleReconnect_arms w) as (-> & _); [done | lia |].
  - left. by rewrite scheduleReconnect_disabled.
Qed.

Lemma scheduleReconnect_intervals w :
  intervals (host (scheduleReconnect w)) = intervals (host w).
Proof.
  destruct (autoReconnect (options (this w))) eqn:Hauto.
  - destruct (decide (maxReconnectAttempts (options (this w))
                        ≤ Z.of_nat (reconnectAttempts (this w)))) as [Hmax | Hless].
    + rewrite scheduleReconnect_exhausted by done. by frame.
    + by destruct (scheduleReconnect_arms w) as (_ & -> & _); [done | lia |].
  - by rewrite scheduleReconnect_disabled.
Qed.

Lemma closing_intervals code reason w :
  intervals (host (closing code reason w)) = intervals (host (stopHeartbeat w)).
Proof.
  unfold closing, close_transition. frame.
  rewrite !stopHeartbeat_intervals.
  destruct (getCloseReasonMessage code reason); [case_decide |]; by frame.
Qed.

Lemma disconnect_intervals w :
  intervals (host (disconnect w)) = intervals (host (stopHeartbeat w)).
Proof.
  destruct w as [[n o s i st k t hb] l hp cl [socks touts ivals hs] tr].
  unfold disconnect, stopHeartbeat, clearTimeout, clearInterval, ws_close.
  destruct t as [t |], hb as [hb |], s as [s |]; cbn;
    try (destruct (socks !! s) as [[u r] |] eqn:Hsock; [destruct r |]; cbn);
    done.
Qed.

Lemma steady_same channelName o w w' :
  this w' = this w → intervals (host w') = intervals (host w) →
  steady channelName o w → steady channelName o w'.
Proof.
  unfold steady, identity, attempts_bounded, heartbeat_inv. by intros -> ->.
Qed.

(** Stopping the heartbeat of a steady channel leaves no periodic timer. *)
Lemma steady_stopHeartbeat channelName o w :
  steady channelName o w → intervals (host (stopHeartbeat w)) = ∅.
Proof.
  intros (_ & _ & Hbeat & _). rewrite stopHeartbeat_intervals, Hbeat.
  destruct (heartbeatInterval (this w)); [apply delete_singleton_eq | done].
Qed.

Lemma steady_scheduleReconnect channelName o w :
  steady channelName o w → steady channelName o (scheduleReconnect w).
Proof.
  intros Hsteady.
  destruct (scheduleReconnect_this w) as [Hthis | [Hless Hthis]].
  - eapply steady_same; [done | apply scheduleReconnect_intervals | done].
  - destruct Hsteady as (Hid & Hbound & Hbeat & Hiff).
    unfold steady, identity, attempts_bounded, heartbeat_inv in *.
    rewrite Hthis, scheduleReconnect_intervals. cbn.
    split_and!; first [done | lia].
Qed.

Lemma steady_closing channelName o code reason w :
  steady channelName o w →
  steady channelName o (closing code reason w)
  ∧ state (this (closing code reason w)) = disconnected.
Proof.
  intros Hsteady. pose proof (steady_stopHeartbeat _ _ _ Hsteady) as Hnone.
  destruct Hsteady as (Hid & Hbound & Hbeat & Hiff).
  unfold steady, identity, attempts_bounded, heartbeat_inv in *.
  rewrite closing_intervals, Hnone, closing_this. cbn.
  split_and!; done.
Qed.

Lemma steady_handleClose channelName o code reason w :
  steady channelName o w → steady channelName o (handleClose code reason w).
Proof.
  intros [Hclosing _]%(steady_closing _ _ code reason).
  rewrite handleClose_closing. destruct (no_reconnect code).
  - eapply steady_same; [apply log_this | by rewrite log_host | done].
  - by apply steady_scheduleReconnect.
Qed.

Lemma steady_established channelName o id payload w :
  steady channelName o w → steady channelName o (established id payload w).
Proof.
  intros Hsteady. pose proof (steady_stopHeartbeat _ _ _ Hsteady) as Hnone.
  destruct Hsteady as (Hid & Hbound & Hbeat & Hiff).
  unfold steady, identity, attempts_bounded, heartbeat_inv in *.
  unfold established. frame.
  assert (intervals (host (stopHeartbeat
            (upd_this (set_reconnectAttempts 0)
               (upd_this (set_state connected)
                  (upd_this (set_socketId id) w)))))
          = intervals (host (stopHeartbeat w))) as ->.
  { by rewrite !stopHeartbeat_intervals. }
  rewrite Hnone. split_and!; first [done | lia | by rewrite insert_empty].
Qed.

Lemma steady_handleMessage channelName o raw w :
  steady channelName o w → steady channelName o (handleMessage raw w).
Proof.
  intros Hsteady. unfold handleMessage.
  destruct raw as [message |].
  - case_decide; [destruct (socketId_property (data message)) | case_decide];
      try (eapply steady_same; [| | exact Hsteady]; by frame).
    apply steady_established.
    eapply steady_same; [| | exact Hsteady]; by frame.
  - eapply steady_same; [| | exact Hsteady]; by frame.
Qed.

Lemma steady_disconnect channelName o w :
  steady channelName o w → steady channelName o (disconnect w).
Proof.
  intros Hsteady. pose proof (steady_stopHeartbeat _ _ _ Hsteady) as Hnone.
  destruct Hsteady as (Hid & Hbound & Hbeat & Hiff).
  unfold steady, identity, attempts_bounded, heartbeat_inv in *.
  rewrite disconnect_intervals, Hnone, disconnect_this. cbn.
  split_and!; done.
Qed.

Section Steady.

Variable rejects : string → bool.

Lemma steady_connect channelName o w :
  steady channelName o w → steady channelName o (connect rejects w).
Proof.
  intros Hsteady. unfold connect. case_bool_decide as Hstate; [done |].
  destruct (isValidPublicKey _); cbn [negb];
    [| eapply steady_same; [| | exact Hsteady]; by frame].
  assert (steady channelName o
            (upd_this (set_state (if decide (0 < reconnectAttempts (this w))%nat
                                  then reconnecting else connecting)) w)) as Hmoved.
  { destruct Hsteady as (Hid & Hbound & Hbeat & Hiff).
    unfold steady, identity, attempts_bounded, heartbeat_inv in *. cbn.
    split_and!; [done | done | done |].
    split; [intros Hsome; apply Hiff in Hsome; tauto |].
    intros Hconn. by case_decide. }
  unfold open_transport, new_WebSocket. cbn zeta.
  destruct (rejects _); cbn beta iota zeta.
  - apply steady_scheduleReconnect.
    eapply steady_same; [| | exact Hmoved]; by frame.
  - destruct Hmoved as (Hid & Hbound & Hbeat & Hiff).
    unfold steady, identity, attempts_bounded, heartbeat_inv in *.
    revert Hid Hbound Hbeat Hiff. frame. intros Hid Hbound Hbeat Hiff.
    split_and!; done.
Qed.

Lemma steady_step channelName o a w w' :
  steady channelName o w → step rejects a w = Some w' → steady channelName o w'.
Proof.
  intros Hsteady Hstep. destruct a; cbn [step] in Hstep.
  - destruct (socket_state s w) as [[] |]; simplify_eq.
    eapply steady_same; [| | exact Hsteady]; by frame.
  - destruct (socket_state s w) as [[] |]; simplify_eq.
    by apply steady_handleMessage.
  - destruct (socket_state s w) as [[] |]; simplify_eq;
      (eapply steady_same; [| | exact Hsteady]); by frame.
  - destruct (socket_state s w) as [[] |]; simplify_eq;
      by apply steady_handleClose.
  - destruct (timeouts (host w) !! h); simplify_eq. by apply steady_connect.
  - destruct (intervals (host w) !! h); simplify_eq.
    eapply steady_same; [apply heartbeat_this | by rewrite heartbeat_host | done].
  - simplify_eq.
    eapply steady_same; [apply on_this | by rewrite on_host | done].
  - simplify_eq.
    eapply steady_same; [apply once_this | by rewrite once_host | done].
  - simplify_eq.
    eapply steady_same; [apply off_this | by rewrite off_host | done].
  - simplify_eq.
    eapply steady_same; [apply trigger_this | by rewrite trigger_host | done].
  - simplify_eq. by apply steady_disconnect.
Qed.

Lemma steady_run channelName o actions w :
  run rejects actions (new_KalzeChannel rejects channelName o) = Some w →
  steady channelName (resolve o) w.
Proof.
  assert (steady channelName (resolve o) (new_KalzeChannel rejects channelName o))
    as Hstart.
  { apply steady_connect. unfold steady, identity, attempts_bounded, heartbeat_inv.
    cbn. split_and!; first [done | lia]. }
  revert Hstart. generalize (new_KalzeChannel rejects channelName o).
  induction actions as [| a rest IH]; intros w0 Hstart Hrun; cbn [run] in Hrun.
  - by simplify_eq.
  - destruct (step rejects a w0) as [w1 |] eqn:Hstep; [| done].
    eapply IH; [| done]. by eapply steady_step.
Qed.

End Steady.

(** * Registering and removing listeners *)

Lemma off_members ev cb w :
  members ev (off ev (Some cb) w) = filter (λ x, x ≠ cb) (members ev w).
Proof.
  unfold off, members.
  destruct (eventListeners w !! ev) as [a |] eqn:Hev; [| by rewrite Hev].
  case_decide as Hsize; cbn [eventListeners upd_listeners upd_heap heap] in *.
  - rewrite lookup_delete_eq. unfold set_size in Hsize.
    rewrite list_lookup_alter_eq in Hsize.
    destruct (heap w !! a) as [entries |]; cbn in *; [| done].
    apply length_zero_iff_nil in Hsize. by rewrite omap_id_set_delete in Hsize.
  - rewrite Hev, list_lookup_alter_eq.
    destruct (heap w !! a) as [entries |]; cbn; [| done].
    apply omap_id_set_delete.
Qed.

Lemma off_members_other ev other cb w :
  registry_ok w → other ≠ ev →
  members other (off ev (Some cb) w) = members other w.
Proof.
  intros Hreg Hne. unfold off.
  destruct (eventListeners w !! ev) as [a |] eqn:Hev; [| done].
  assert (members other (upd_heap (alter (set_delete cb) a) w) = members other w)
    as Hsame.
  { unfold members. cbn [eventListeners upd_heap heap].
    destruct (eventListeners w !! other) as [a0 |] eqn:Hother; [| done].
    rewrite list_lookup_alter_ne; [done |]. intros ->.
    destruct (Hreg ev a0 Hev) as [Hown _]. by apply Hne, Hown. }
  case_decide; [| done]. rewrite <- Hsame.
  unfold members. cbn [eventListeners upd_listeners upd_heap heap].
  by rewrite lookup_delete_ne.
Qed.

Lemma filter_all {A} (P : A → Prop) `{!∀ x, Decision (P x)} (l : list A) :
  (∀ x, x ∈ l → P x) → filter P l = l.
Proof.
  induction l as [| x l IH]; intros Hall; [done |].
  rewrite filter_cons_True by (apply Hall, list_elem_of_here).
  rewrite IH; [done |]. intros y Hy. by apply Hall, list_elem_of_further.
Qed.

Lemma filter_none {A} (P : A → Prop) `{!∀ x, Decision (P x)} (l : list A) :
  (∀ x, x ∈ l → ¬ P x) → filter P l = [].
Proof.
  induction l as [| x l IH]; intros Hall; [done |].
  rewrite filter_cons_False by (apply Hall, list_elem_of_here).
  apply IH. intros y Hy. by apply Hall, list_elem_of_further.
Qed.

Lemma elem_of_omap_id cb (entries : SetData) : cb ∈ omap id entries ↔ Some cb ∈ entries.
Proof.
  rewrite list_elem_of_omap. split.
  - intros (e & He & Hid). cbn in Hid. by subst e.
  - intros Hin. by exists (Some cb).
Qed.

Lemma omap_id_set_add cb (entries : SetData) :
  omap id (set_add cb entries)
  = if decide (cb ∈ omap id entries) then omap id entries else omap id entries ++ [cb].
Proof.
  unfold set_add. destruct (decide (Some cb ∈ entries)) as [Hin | Hout].
  - by rewrite decide_True by by apply elem_of_omap_id.
  - rewrite decide_False by by rewrite elem_of_omap_id.
    by rewrite omap_app.
Qed.

Lemma on_members ev cb w :
  allocated w →
  members ev (on ev cb w).2
  = if decide (cb ∈ members ev w) then members ev w else members ev w ++ [cb].
Proof.
  intros Halloc. unfold on, new_Set, members. cbn [snd].
  destruct (eventListeners w !! ev) as [a |] eqn:Hev.
  - rewrite Hev. cbn [eventListeners upd_heap heap]. rewrite Hev.
    rewrite list_lookup_alter_eq.
    destruct (Halloc ev a Hev) as [entries ->]. cbn. apply omap_id_set_add.
  - cbn [eventListeners upd_listeners upd_heap heap].
    rewrite !lookup_insert_eq.
    cbn [eventListeners upd_listeners upd_heap heap].
    rewrite lookup_insert_eq.
    rewrite alter_app_r_alt, Nat.sub_diag by done.
    rewrite lookup_app_r, Nat.sub_diag by done. cbn.
    by rewrite decide_False by apply not_elem_of_nil.
Qed.

Lemma on_allocated ev cb w : allocated w → allocated (on ev cb w).2.
Proof.
  intros Halloc ev0 a. unfold on, new_Set. cbn [snd].
  destruct (eventListeners w !! ev) as [a1 |] eqn:Hev.
  - rewrite Hev. cbn [eventListeners upd_heap heap]. intros Hev0.
    destruct (Halloc ev0 a Hev0) as [entries Hentries].
    destruct (decide (a1 = a)) as [-> | Hne].
    + rewrite list_lookup_alter_eq, Hentries. by eexists.
    + rewrite list_lookup_alter_ne by done. by eexists.
  - cbn [eventListeners upd_listeners upd_heap heap].
    rewrite !lookup_insert_eq.
    cbn [eventListeners upd_listeners upd_heap heap].
    rewrite lookup_insert_Some.
    intros [[_ <-] | [_ Hev0]].
    + rewrite list_lookup_alter_eq, lookup_app_r, Nat.sub_diag by done.
      by eexists.
    + destruct (Halloc ev0 a Hev0) as [entries Hentries].
      pose proof (lookup_lt_Some _ _ _ Hentries) as Hlt.
      rewrite list_lookup_alter_ne by lia.
      rewrite lookup_app_l by done. by eexists.
Qed.

Lemma on_members_other ev other cb w :
  registry_inv w → other ≠ ev → members other (on ev cb w).2 = members other w.
Proof.
  intros [[_ Hreg] Halloc] Hne. unfold on, new_Set, members. cbn [snd].
  destruct (eventListeners w !! ev) as [a |] eqn:Hev.
  - rewrite Hev. cbn [eventListeners upd_heap heap].
    destruct (eventListeners w !! other) as [a0 |] eqn:Hother; [| done].
    rewrite list_lookup_alter_ne; [done |]. intros ->.
    destruct (Hreg ev a0 Hev) as [Hown _]. by apply Hne, Hown.
  - cbn [eventListeners upd_listeners upd_heap heap].
    rewrite !lookup_insert_eq.
    cbn [eventListeners upd_listeners upd_heap heap].
    rewrite lookup_insert_ne by done.
    destruct (eventListeners w !! other) as [a0 |] eqn:Hother; [| done].
    destruct (Halloc other a0 Hother) as [entries Hentries].
    pose proof (lookup_lt_Some _ _ _ Hentries) as Hlt.
    rewrite list_lookup_alter_ne by lia.
    by rewrite lookup_app_l by done.
Qed.

(** X9: [off(event, callback)] removes exactly that callback from the
    listeners of the event and keeps the others in their order; without a
    callback it removes every listener of the event; neither touches the
    listeners of another event, and neither emits or calls anything. *)
Theorem off_removes_exactly ev cb w :
  members ev (off ev (Some cb) w) = filter (λ x, x ≠ cb) (members ev w)
  ∧ members ev (off ev None w) = []
  ∧ (∀ other, other ≠ ev → members other (off ev None w) = members other w)
  ∧ (registry_ok w → ∀ other, other ≠ ev →
     members other (off ev (Some cb) w) = members other w)
  ∧ (∀ callback, trace (off ev callback w) = trace w
                 ∧ this (off ev callback w) = this w
                 ∧ host (off ev callback w) = host w).
Proof.
  split_and!.
  - apply off_members.
  - unfold off, members. cbn [eventListeners upd_listeners].
    by rewrite lookup_delete_eq.
  - intros other Hne. unfold off, members. cbn [eventListeners upd_listeners heap].
    by rewrite lookup_delete_ne.
  - intros Hreg other Hne. by apply off_members_other.
  - intros callback. split_and!; [apply off_trace | apply off_this | apply off_host].
Qed.

(** X10: [on(event, callback)] appends the callback to the listeners of the
    event unless it is already one of them (then nothing changes), leaves the
    listeners of every other event alone, and the closure it returns undoes a
    new registration: after calling it the listeners are as before. *)
Theorem on_registers_once ev cb w :
  registry_inv w →
  members ev (on ev cb w).2
  = (if decide (cb ∈ members ev w) then members ev w else members ev w ++ [cb])
  ∧ (∀ other, other ≠ ev → members other (on ev cb w).2 = members other w)
  ∧ members ev (on ev cb (on ev cb w).2).2 = members ev (on ev cb w).2
  ∧ (cb ∉ members ev w →
     members ev (call_unsubscribe (on ev cb w).1 (on ev cb w).2) = members ev w)
  ∧ trace (on ev cb w).2 = trace w.
Proof.
  intros Hinv. pose proof Hinv as [_ Halloc].
  split_and!.
  - by apply on_members.
  - intros other Hne. by apply on_members_other.
  - assert (allocated (on ev cb w).2) as Halloc' by by apply on_allocated.
    rewrite (on_members ev cb (on ev cb w).2 Halloc').
    rewrite decide_True; [done |]. rewrite on_members by done.
    case_decide; [done |]. apply elem_of_app. right. apply list_elem_of_here.
  - intros Hnew. unfold call_unsubscribe. cbn [fst unsub_event unsub_callback on].
    rewrite off_members, on_members by done.
    rewrite decide_False by done. rewrite filter_app.
    rewrite (filter_all (λ x, x ≠ cb) (members ev w)) by (intros x Hx ->; done).
    rewrite filter_cons_False by (intros H; by apply H). by rewrite app_nil_r.
  - apply on_trace.
Qed.

(** * A [once] listener is called once *)

Lemma set_delete_absent cb (entries : SetData) :
  Some cb ∉ entries → set_delete cb entries = entries.
Proof.
  unfold set_delete. induction entries as [| e entries IH]; [done |].
  intros [Hne Hrest]%not_elem_of_cons. rewrite fmap_cons, IH by done.
  by rewrite decide_False by done.
Qed.

Lemma entry_not_earlier (entries : SetData) i cb :
  NoDup (omap id entries) → entries !! i = Some (Some cb) →
  cb ∉ omap id (take i entries).
Proof.
  intros Hnodup Hi.
  rewrite <- (take_drop_middle entries i (Some cb)) in Hnodup by done.
  rewrite omap_app in Hnodup. cbn in Hnodup.
  apply NoDup_app in Hnodup as (_ & Hdisjoint & _).
  intros Hin. apply (Hdisjoint cb Hin), list_elem_of_here.
Qed.

Lemma omap_id_singleton (cb : EventCallback) : omap id [Some cb] = [cb].
Proof. reflexivity. Qed.

Lemma deliver_plain arg complaint f w :
  eventListeners (deliver arg complaint (Plain f) w) = eventListeners w
  ∧ heap (deliver arg complaint (Plain f) w) = heap w.
Proof.
  unfold deliver. cbn [invoke call].
  destruct (fn_throws f); by rewrite ?log_listeners, ?log_heap.
Qed.

Lemma deliver_wrapper arg complaint wid ev f w a entries :
  eventListeners w !! ev = Some a → heap w !! a = Some entries →
  let cb := OnceWrapper wid ev f in
  let w' := deliver arg complaint cb w in
  heap w' !! a = Some (set_delete cb entries)
  ∧ (eventListeners w' !! ev = Some a
     ∨ (eventListeners w' !! ev = None ∧ omap id (set_delete cb entries) = [])).
Proof.
  intros Hev Ha. cbn zeta.
  assert (heap (off ev (Some (OnceWrapper wid ev f)) w) !! a
          = Some (set_delete (OnceWrapper wid ev f) entries)
          ∧ (eventListeners (off ev (Some (OnceWrapper wid ev f)) w) !! ev = Some a
             ∨ (eventListeners (off ev (Some (OnceWrapper wid ev f)) w) !! ev = None
                ∧ omap id (set_delete (OnceWrapper wid ev f) entries) = [])))
    as Hoff.
  { unfold off. rewrite Hev.
    case_decide as Hsize; cbn [eventListeners upd_listeners upd_heap heap] in *;
      rewrite list_lookup_alter_eq, Ha in *; cbn in *.
    - split; [done |]. right. split; [apply lookup_delete_eq |].
      by apply length_zero_iff_nil.
    - split; [done |]. by left. }
  unfold deliver. cbn [invoke call].
  destruct (fn_throws f); by rewrite ?log_listeners, ?log_heap.
Qed.

Lemma lookup_of_drop {A} (l1 l2 : list A) i : drop i l1 = drop i l2 → l1 !! i = l2 !! i.
Proof.
  intros Hdrop. rewrite <- (Nat.add_0_r i).
  by rewrite <- !lookup_drop, Hdrop.
Qed.

Lemma drop_S_of_drop {A} (l1 l2 : list A) i : drop i l1 = drop i l2 → drop (S i) l1 = drop (S i) l2.
Proof.
  intros Hdrop. replace (S i) with (i + 1)%nat by lia.
  by rewrite <- !drop_drop, Hdrop.
Qed.

(** The loop over the set of [ev], from position [i] on: when it is done,
    the wrappers of the set are deleted and the plain callbacks are all
    there, in order. *)
Lemma forOf_members arg complaint ev a (entries0 : SetData) n :
  ∀ i w entries,
    heap w !! a = Some entries →
    length entries = length entries0 →
    NoDup (omap id entries) →
    (∀ wid ev' f, Some (OnceWrapper wid ev' f) ∈ entries → ev' = ev) →
    (eventListeners w !! ev = Some a
     ∨ (eventListeners w !! ev = None ∧ omap id entries = [])) →
    omap id (take i entries) = filter is_plain (omap id (take i entries0)) →
    drop i entries = drop i entries0 →
    (length entries0 ≤ i + n)%nat →
    ∃ entries',
      heap (forOf n a i (deliver arg complaint) w) !! a = Some entries'
      ∧ omap id entries' = filter is_plain (omap id entries0)
      ∧ (eventListeners (forOf n a i (deliver arg complaint) w) !! ev = Some a
         ∨ (eventListeners (forOf n a i (deliver arg complaint) w) !! ev = None
            ∧ omap id entries' = [])).
Proof.
  assert (∀ i w entries,
            heap w !! a = Some entries → length entries = length entries0 →
            (eventListeners w !! ev = Some a
             ∨ (eventListeners w !! ev = None ∧ omap id entries = [])) →
            omap id (take i entries) = filter is_plain (omap id (take i entries0)) →
            (length entries0 ≤ i)%nat →
            ∃ entries',
              heap w !! a = Some entries'
              ∧ omap id entries' = filter is_plain (omap id entries0)
              ∧ (eventListeners w !! ev = Some a
                 ∨ (eventListeners w !! ev = None ∧ omap id entries' = []))) as Hdone.
  { intros i w entries Ha Hlen Hkey Htake Hi. exists entries.
    rewrite !take_ge in Htake by lia. done. }
  induction n as [| n IH]; intros i w entries Ha Hlen Hnodup Honce Hkey Htake Hdrop Hi;
    cbn [forOf].
  { eapply Hdone; eauto with lia. }
  rewrite Ha. pose proof (lookup_of_drop _ _ _ Hdrop) as Hsame.
  destruct (entries !! i) as [[cb |] |] eqn:Hentry.
  - assert (omap id (take (S i) entries0) = omap id (take i entries0) ++ [cb]) as Htake0.
    { rewrite (take_S_r entries0 i (Some cb)) by done.
      by rewrite omap_app, omap_id_singleton. }
    destruct cb as [f | wid ev' f].
    + destruct (deliver_plain arg complaint f w) as [Hl Hh].
      apply (IH (S i) _ entries); try done.
      * by rewrite Hh.
      * by rewrite Hl.
      * rewrite (take_S_r entries i (Some (Plain f))) by done.
        rewrite omap_app, omap_id_singleton, Htake0, filter_app, Htake.
        by rewrite (filter_cons_True is_plain) by done.
      * by apply drop_S_of_drop.
      * lia.
    + assert (ev' = ev) as ->.
      { eapply Honce. by eapply list_elem_of_lookup_2. }
      destruct Hkey as [Hkey | [_ Hempty]].
      2: { assert (OnceWrapper wid ev f ∈ omap id entries) as Hin.
           { apply elem_of_omap_id. by eapply list_elem_of_lookup_2. }
           rewrite Hempty in Hin. by apply elem_of_nil in Hin. }
      destruct (deliver_wrapper arg complaint wid ev f w a entries Hkey Ha)
        as [Hh Hl].
      apply (IH (S i) _ (set_delete (OnceWrapper wid ev f) entries)); try done.
      * by rewrite set_delete_length.
      * by apply set_delete_NoDup.
      * intros wid0 ev0 f0 Hin%set_delete_subset. by eapply Honce.
      * unfold set_delete at 1. rewrite <- fmap_take.
        fold (set_delete (OnceWrapper wid ev f) (take (S i) entries)).
        rewrite omap_id_set_delete.
        rewrite (take_S_r entries i (Some (OnceWrapper wid ev f))) by done.
        rewrite omap_app, omap_id_singleton, filter_app.
        rewrite (filter_cons_False (λ x, x ≠ OnceWrapper wid ev f))
          by (intros H; by apply H).
        rewrite filter_nil, app_nil_r.
        rewrite (filter_all (λ x, x ≠ OnceWrapper wid ev f));
          [| intros x Hx ->; by eapply entry_not_earlier].
        rewrite Htake, Htake0, filter_app.
        rewrite (filter_cons_False is_plain) by (cbn; tauto).
        by rewrite filter_nil, app_nil_r.
      * rewrite set_delete_drop, set_delete_absent; [by apply drop_S_of_drop |].
        rewrite <- elem_of_omap_id. by apply entry_not_later.
      * lia.
  - apply (IH (S i) w entries); try done.
    + rewrite (take_S_r entries i None) by done.
      rewrite (take_S_r entries0 i None) by done.
      by rewrite !omap_app, !app_nil_r.
    + by apply drop_S_of_drop.
    + lia.
  - apply lookup_ge_None in Hentry. eapply Hdone; eauto with lia.
Qed.

Lemma for_listeners_members ev arg complaint w :
  registry_inv w →
  members ev (for_listeners ev arg complaint w) = filter is_plain (members ev w).
Proof.
  intros [[Hsets Hreg] Halloc]. unfold for_listeners, members.
  destruct (eventListeners w !! ev) as [a |] eqn:Hev; [| by rewrite Hev].
  destruct (Halloc ev a Hev) as [entries0 Ha]. destruct (Hreg ev a Hev) as [_ Honce].
  rewrite Ha. change (default [] (Some entries0)) with entries0.
  destruct (forOf_members arg complaint ev a entries0 (length entries0) 0 w entries0)
    as (entries' & Ha' & Hplain & Hkey); eauto with lia.
  destruct Hkey as [Hkey | [Hkey Hnil]]; rewrite Hkey.
  - by rewrite Ha'.
  - by rewrite <- Hplain.
Qed.

Lemma emit_invoked ev d w :
  registry_inv w → ev ≠ "*" →
  invoked (trace (emit ev d w))
  = invoked (trace w) ++ deliveries d (members ev w)
      ++ deliveries (DEnvelope ev d) (members "*" w).
Proof.
  intros Hinv Hev. unfold emit.
  assert (registry_inv (say (Emit ev d) w)) as Hinv' by done.
  pose proof (for_listeners_registry_inv ev d ("Error in event listener for " +:+ ev)
                _ Hinv') as [[Hsets1 _] _].
  destruct Hinv' as [[Hsets' Hreg'] _].
  rewrite for_listeners_invoked by done.
  rewrite for_listeners_invoked by done.
  rewrite for_listeners_members_other by done.
  cbn [trace say]. rewrite invoked_app, app_nil_r, <- app_assoc. done.
Qed.

(** X11: a dispatch leaves the plain listeners of the event registered, in
    their order, and removes the [once] wrappers it has called, both among
    the event's own listeners and among the wildcard listeners; the listeners
    of other events stay.  So the next dispatch of the event calls only the
    listeners registered with [on]. *)
Theorem once_listener_is_removed ev d w :
  registry_inv w → ev ≠ "*" →
  members ev (emit ev d w) = filter is_plain (members ev w)
  ∧ members "*" (emit ev d w) = filter is_plain (members "*" w)
  ∧ (∀ other, other ≠ ev → other ≠ "*" →
       members other (emit ev d w) = members other w)
  ∧ ∀ d',
      invoked (trace (emit ev d' (emit ev d w)))
      = invoked (trace (emit ev d w))
          ++ deliveries d' (filter is_plain (members ev w))
          ++ deliveries (DEnvelope ev d') (filter is_plain (members "*" w)).
Proof.
  intros Hinv Hev.
  assert (registry_inv (say (Emit ev d) w)) as Hinv0 by done.
  pose proof (for_listeners_registry_inv ev d ("Error in event listener for " +:+ ev)
                _ Hinv0) as Hinv1.
  assert (members ev (emit ev d w) = filter is_plain (members ev w)) as Hown.
  { unfold emit. rewrite for_listeners_members_other by (by destruct Hinv1 as [[_ ?] _]).
    by rewrite for_listeners_members. }
  assert (members "*" (emit ev d w) = filter is_plain (members "*" w)) as Hwild.
  { unfold emit. rewrite for_listeners_members by done.
    rewrite for_listeners_members_other; [done | by destruct Hinv0 as [[_ ?] _] | done]. }
  split_and!; [done | done | |].
  - intros other Hne1 Hne2. unfold emit.
    rewrite for_listeners_members_other by (by destruct Hinv1 as [[_ ?] _]).
    rewrite for_listeners_members_other; [done | by destruct Hinv0 as [[_ ?] _] | done].
  - intros d'. rewrite emit_invoked by (by try apply emit_registry_inv).
    by rewrite Hown, Hwild.
Qed.

(** * More of the client *)

(** X4: the constructor of the client throws "API key is required" for an
    empty key and "Subdomain is required" for an empty subdomain (the key is
    tested first) and otherwise builds a client without channels; and every
    method keeps the map in order: each name once, each reference valid and
    used by one name only, the options those of the constructor. *)
Theorem client_stays_ok (rejects : string → bool) :
  (∀ o, match new_Kalze o with
        | inl message =>
            (opt_key o = "" ∧ message = "API key is required")
            ∨ (opt_key o ≠ "" ∧ opt_subdomain o = ""
               ∧ message = "Subdomain is required")
        | inr k =>
            opt_key o ≠ "" ∧ opt_subdomain o ≠ "" ∧ kalze_options k = o
            ∧ getChannels k = [] ∧ client_ok k
        end)
  ∧ (∀ channelName k,
       client_ok k →
       client_ok (subscribe rejects channelName k).2
       ∧ kalze_options (subscribe rejects channelName k).2 = kalze_options k)
  ∧ (∀ channelName k,
       client_ok k →
       client_ok (unsubscribe channelName k)
       ∧ kalze_options (unsubscribe channelName k) = kalze_options k)
  ∧ (∀ k, client_ok (disconnectAll k)
          ∧ kalze_options (disconnectAll k) = kalze_options k)
  ∧ (∀ channel a k k',
       client_ok k → channel_step rejects channel a k = Some k' →
       client_ok k' ∧ channels k' = channels k
       ∧ kalze_options k' = kalze_options k).
Proof.
  split_and!.
  - intros o. unfold new_Kalze. repeat case_decide; [by left | right; by split_and! |].
    split_and!; [done | done | done | done |].
    split_and!; [apply NoDup_nil_2 | apply NoDup_nil_2 |].
    by intros n c ?%elem_of_nil.
  - intros channelName k Hok. split; [by apply subscribe_client_ok |].
    unfold subscribe. by destruct (Map_get channelName (channels k)).
  - intros channelName k Hok. split; [by apply unsubscribe_client_ok |].
    unfold unsubscribe. by destruct (Map_get channelName (channels k)).
  - intros k. split; [apply disconnectAll_client_ok | done].
  - intros channel a k k' (Hnames & Hrefs & Hrange). unfold channel_step.
    destruct (objects k !! channel) as [w |]; [| done].
    destruct (step rejects a w) as [w' |]; [| done].
    intros [= <-]. unfold client_ok. cbn [channels objects kalze_options].
    rewrite length_insert. by split_and!.
Qed.

Lemma sample_client_ok : client_ok sample_client.
Proof.
  unfold sample_client. do 2 apply subscribe_client_ok.
  split_and!; [apply NoDup_nil_2 | apply NoDup_nil_2 |].
  by intros n c ?%elem_of_nil.
Qed.

(** Witness of X4: a client built with the sample options, after two
    [subscribe]s and an [unsubscribe]. *)
Lemma client_stays_ok_witness :
  client_ok sample_client
  ∧ client_ok (unsubscribe "room" sample_client)
  ∧ getChannels (unsubscribe "room" sample_client) = ["lobby"].
Proof.
  destruct (client_stays_ok accepts) as (_ & Hsubscribe & Hunsubscribe & _).
  assert (client_ok sample_client) as Hok.
  { unfold sample_client. apply Hsubscribe, Hsubscribe.
    split_and!; [apply NoDup_nil_2 | apply NoDup_nil_2 |].
    by intros n c ?%elem_of_nil. }
  split_and!; [exact Hok | by apply Hunsubscribe | reflexivity].
Defined.

(** Witness of X2: unsubscribing ["room"] from the sample client. *)
Lemma unsubscribe_tears_down_witness :
  client_ok sample_client
  ∧ getChannel "room" sample_client = Some 0%nat
  ∧ getChannel "room" (unsubscribe "room" sample_client) = None
  ∧ getChannel "lobby" (unsubscribe "room" sample_client) = Some 1%nat
  ∧ (subscribe accepts "room" (unsubscribe "room" sample_client)).1 = 2%nat.
Proof.
  destruct (unsubscribe_tears_down "room" sample_client sample_client_ok)
    as (_ & Hpresent).
  destruct (Hpresent 0%nat eq_refl) as (Hgone & _ & _ & _ & Hothers & Hagain).
  split_and!; [exact sample_client_ok | reflexivity | exact Hgone | |].
  - rewrite Hothers by discriminate. reflexivity.
  - exact (proj1 (Hagain accepts)).
Defined.

(** Witness of X3: [disconnectAll] on the sample client. *)
Lemma disconnectAll_tears_down_all_witness :
  client_ok sample_client
  ∧ getChannels (disconnectAll sample_client) = []
  ∧ length (objects (disconnectAll sample_client)) = 2%nat
  ∧ ∃ w, objects sample_client !! 1%nat = Some w
         ∧ objects (disconnectAll sample_client) !! 1%nat = Some (disconnect w)
         ∧ torn_down (disconnect w).
Proof.
  destruct (disconnectAll_tears_down_all sample_client sample_client_ok)
    as (Hnames & _ & Hlength & Hall & _).
  split_and!; [exact sample_client_ok | exact Hnames | exact Hlength |].
  exact (Hall "lobby" 1%nat eq_refl).
Defined.
(** * The channel over its whole life *)

(** X5: at any moment of the life of a channel built by the constructor, at
    most one thing can still make it connect: the sockets that are not closed
    yet and the pending reconnect timers number at most one together. *)
Theorem at_most_one_in_flight rejects channelName o actions w :
  run rejects actions (new_KalzeChannel rejects channelName o) = Some w →
  (in_flight w ≤ 1)%nat.
Proof.
  intros Hrun. apply (reachable_in_flight rejects).
  by exists channelName, o, actions.
Qed.

(** Witness of X5: the socket of a new channel closes abnormally; the timer
    armed by the close is the one thing in flight. *)
Lemma at_most_one_in_flight_witness :
  match run accepts [SocketClose 0 1006 ""]
          (new_KalzeChannel accepts "room" sample_options) with
  | Some w => (in_flight w ≤ 1)%nat ∧ size (timeouts (host w)) = 1%nat
  | None => False
  end.
Proof.
  destruct (run accepts [SocketClose 0 1006 ""]
              (new_KalzeChannel accepts "room" sample_options))
    as [w |] eqn:Hrun; [| vm_compute in Hrun; discriminate Hrun].
  split.
  - exact (at_most_one_in_flight accepts "room" sample_options _ w Hrun).
  - vm_compute in Hrun. injection Hrun as <-. vm_compute. reflexivity.
Defined.

(** X6: at any moment of the life of a channel the host's periodic timers
    are exactly the heartbeat the channel remembers (one timer of 25000 ms,
    or none), and it remembers one exactly while its state is [connected]:
    no heartbeat leaks, and none is missing. *)
Theorem heartbeat_follows_state rejects channelName o actions w :
  run rejects actions (new_KalzeChannel rejects channelName o) = Some w →
  heartbeat_inv w.
Proof.
  intros Hrun.
  by destruct (steady_run rejects channelName o actions w Hrun) as (_ & _ & ?).
Qed.

(** Witness of X6: a channel after the handshake, and after the close that
    follows. *)
Lemma heartbeat_follows_state_witness :
  match run accepts [SocketOpen 0; SocketMessage 0 established_frame]
          (new_KalzeChannel accepts "room" sample_options) with
  | Some w => heartbeat_inv w ∧ state (this w) = connected
  | None => False
  end.
Proof.
  destruct (run accepts [SocketOpen 0; SocketMessage 0 established_frame]
              (new_KalzeChannel accepts "room" sample_options))
    as [w |] eqn:Hrun; [| vm_compute in Hrun; discriminate Hrun].
  split.
  - exact (heartbeat_follows_state accepts "room" sample_options _ w Hrun).
  - vm_compute in Hrun. injection Hrun as <-. reflexivity.
Defined.

(** X7: a channel keeps the name and the resolved options it was built
    with, and, [maxReconnectAttempts] being an integer (as the options are in
    this development), its attempt counter never exceeds it (never exceeds 0
    when it is negative). *)
Theorem attempts_stay_bounded rejects channelName o actions w :
  run rejects actions (new_KalzeChannel rejects channelName o) = Some w →
  name (this w) = channelName
  ∧ options (this w) = resolve o
  ∧ attempts_bounded w.
Proof.
  intros Hrun.
  destruct (steady_run rejects channelName o actions w Hrun) as (Hid & Hbound & _).
  unfold identity in Hid. by simplify_eq.
Qed.

(** Witness of X7: two abnormal closes in a row, the second one of the
    socket opened by the first retry. *)
Lemma attempts_stay_bounded_witness :
  match run accepts [SocketClose 0 1006 ""; TimeoutFires 1; SocketClose 1 1006 ""]
          (new_KalzeChannel accepts "room" sample_options) with
  | Some w =>
      name (this w) = "room" ∧ attempts_bounded w
      ∧ reconnectAttempts (this w) = 2%nat
  | None => False
  end.
Proof.
  destruct (run accepts [SocketClose 0 1006 ""; TimeoutFires 1; SocketClose 1 1006 ""]
              (new_KalzeChannel accepts "room" sample_options))
    as [w |] eqn:Hrun; [| vm_compute in Hrun; discriminate Hrun].
  destruct (attempts_stay_bounded accepts "room" sample_options _ w Hrun)
    as (Hname & _ & Hbound).
  split_and!; [exact Hname | exact Hbound |].
  vm_compute in Hrun. injection Hrun as <-. reflexivity.
Defined.

(** X8: at any moment of the life of a channel the listener map is in
    order: every entry points to a [Set] that exists, a set holds a callback
    at most once, no two events share a set, and a [once] wrapper sits in the
    set of the event it was made for. *)
Theorem listener_map_stays_in_order rejects channelName o actions w :
  run rejects actions (new_KalzeChannel rejects channelName o) = Some w →
  registry_inv w.
Proof.
  intros Hrun. apply (reachable_registry_inv rejects).
  by exists channelName, o, actions.
Qed.

(** Witness of X8: the channel with three listeners of ["foo"] and a
    wildcard listener. *)
Lemma listener_map_stays_in_order_witness :
  match run accepts listening
          (new_KalzeChannel accepts "room" sample_options) with
  | Some w => registry_inv w ∧ length (members "foo" w) = 3%nat
  | None => False
  end.
Proof.
  destruct (run accepts listening
              (new_KalzeChannel accepts "room" sample_options))
    as [w |] eqn:Hrun; [| vm_compute in Hrun; discriminate Hrun].
  split.
  - exact (listener_map_stays_in_order accepts "room" sample_options _ w Hrun).
  - vm_compute in Hrun. injection Hrun as <-. vm_compute. reflexivity.
Defined.

(** * Single operations *)

(** X20: the event name ["*"] is not special to [emit]: a dispatch of ["*"]
    runs the wildcard set twice, first with the bare payload and then with
    the envelope; a [once] listener of ["*"] is called in the first pass only
    (it has removed itself before the second). *)
Theorem wildcard_event_is_delivered_twice d w :
  registry_inv w →
  invoked (trace (emit "*" d w))
  = invoked (trace w) ++ deliveries d (members "*" w)
      ++ deliveries (DEnvelope "*" d) (filter is_plain (members "*" w)).
Proof.
  intros Hinv. unfold emit.
  assert (registry_inv (say (Emit "*" d) w)) as Hinv' by done.
  pose proof (for_listeners_registry_inv "*" d ("Error in event listener for " +:+ "*")
                _ Hinv') as [[Hsets1 _] _].
  rewrite for_listeners_invoked by done.
  rewrite for_listeners_members by done.
  destruct Hinv' as [[Hsets' _] _].
  rewrite for_listeners_invoked by done.
  cbn [trace say]. rewrite invoked_app, app_nil_r, <- app_assoc. done.
Qed.

(** Witness of X20: a plain and a [once] listener of ["*"]. *)
Lemma wildcard_event_is_delivered_twice_witness :
  match run accepts [CallOn "*" first_fn; CallOnce "*" second_fn]
          (new_KalzeChannel accepts "room" sample_options) with
  | Some w =>
      registry_inv w
      ∧ invoked (trace (emit "*" (DJson (JNum 7)) w))
        = [(1%nat, DJson (JNum 7)); (2%nat, DJson (JNum 7));
           (1%nat, DEnvelope "*" (DJson (JNum 7)))]
  | None => False
  end.
Proof.
  destruct (run accepts [CallOn "*" first_fn; CallOnce "*" second_fn]
              (new_KalzeChannel accepts "room" sample_options))
    as [w |] eqn:Hrun; [| vm_compute in Hrun; discriminate Hrun].
  assert (registry_inv w) as Hinv.
  { apply (reachable_registry_inv accepts). by eexists _, _, _. }
  split; [exact Hinv |].
  rewrite (wildcard_event_is_delivered_twice (DJson (JNum 7)) w Hinv).
  vm_compute in Hrun. injection Hrun as <-. vm_compute. reflexivity.
Defined.

(** X16: [disconnect] is idempotent, and what it cancelled stays cancelled:
    a second call changes nothing at all, the channel is torn down, no event
    was emitted, and the timers the fields named cannot fire any more. *)
Theorem disconnect_is_idempotent w :
  disconnect (disconnect w) = disconnect w
  ∧ torn_down (disconnect w)
  ∧ emitted (trace (disconnect w)) = emitted (trace w)
  ∧ (∀ rejects h, reconnectTimeout (this w) = Some h →
       step rejects (TimeoutFires h) (disconnect w) = None)
  ∧ (∀ rejects h, heartbeatInterval (this w) = Some h →
       step rejects (IntervalFires h) (disconnect w) = None).
Proof.
  destruct (disconnect_teardown w)
    as (_ & _ & _ & _ & _ & _ & Hemitted & _ & Htimer & Hbeat & _).
  split_and!.
  - pose proof (torn_down_disconnect w) as (Hstate & Hws & Hid & Ht & Hb & Hl).
    destruct (disconnect w) as [[n o s i st k t hb] l hp cl e tr].
    cbn in Hstate, Hws, Hid, Ht, Hb, Hl. by subst.
  - apply torn_down_disconnect.
  - exact Hemitted.
  - intros rejects h Hh. cbn [step]. by rewrite (Htimer h Hh).
  - intros rejects h Hh. cbn [step]. by rewrite (Hbeat h Hh).
Qed.





(** * When the host refuses the socket *)

Lemma stalled_same w w' :
  this w' = this w → host w' = host w → stalled w → stalled w'.
Proof. unfold stalled. by intros -> ->. Qed.

Lemma disconnect_sockets_nil w :
  sockets (host w) = [] → sockets (host (disconnect w)) = [].
Proof.
  destruct w as [[n o s i st k t hb] l hp cl [socks touts ivals hs] tr].
  cbn. intros ->.
  unfold disconnect, stopHeartbeat, clearTimeout, clearInterval, ws_close.
  destruct t as [t |], hb as [hb |], s as [s |]; cbn; by rewrite ?lookup_nil.
Qed.

Section Stalled.

Variable rejects : string → bool.

Lemma stalled_step a w w' :
  stalled w → step rejects a w = Some w' →
  stalled w'
  ∧ emitted (trace w') = emitted (trace w)
  ∧ opened (trace w') = opened (trace w)
  ∧ armed (trace w') = armed (trace w).
Proof.
  intros (Hsocks & Hstate & Htimers) Hstep.
  assert (∀ s, socket_state s w = None) as Hnone.
  { intros s. unfold socket_state. by rewrite Hsocks, lookup_nil. }
  destruct a; cbn [step] in Hstep; rewrite ?Hnone in Hstep; try done.
  - destruct (timeouts (host w) !! h) as [delay |] eqn:Hh; [| done].
    destruct Htimers as [Hempty | (Hconnecting & h0 & delay0 & Hfield & Hone)];
      [by rewrite Hempty, lookup_empty in Hh |].
    rewrite Hone in Hh. apply lookup_singleton_Some in Hh as [<- <-].
    unfold connect in Hstep.
    rewrite bool_decide_eq_true_2 in Hstep by (by left). simplify_eq.
    split; [| done]. unfold stalled. cbn [host this upd_host timeouts sockets].
    split_and!; [done | by left | left]. rewrite Hone. apply delete_singleton_eq.
  - destruct (intervals (host w) !! h); simplify_eq.
    destruct (heartbeat_cases w) as [-> | [s ->]]; [done |].
    split_and!; [done | | |]; frame; by rewrite app_nil_r.
  - simplify_eq. rewrite on_trace. split; [| done].
    eapply stalled_same; [apply on_this | apply on_host | done].
  - simplify_eq. rewrite once_trace. split; [| done].
    eapply stalled_same; [apply once_this | apply once_host | done].
  - simplify_eq. rewrite off_trace. split; [| done].
    eapply stalled_same; [apply off_this | apply off_host | done].
  - simplify_eq. destruct (trigger_quiet payload w) as (Ho & Ha & He).
    split_and!; [| done | done | done].
    eapply stalled_same; [apply trigger_this | apply trigger_host | done].
  - simplify_eq.
    destruct (disconnect_flight w) as (_ & Htimeouts & Hopened & Harmed).
    destruct (disconnect_teardown w) as (_ & _ & _ & _ & Hdisc & _ & Hemitted & _).
    split_and!; [| done | done | done].
    split_and!; [by apply disconnect_sockets_nil | by right | left].
    rewrite Htimeouts.
    destruct Htimers as [Hempty | (_ & h0 & delay0 & Hfield & Hone)].
    + rewrite Hempty. destruct (reconnectTimeout (this w)); [apply delete_empty | done].
    + rewrite Hfield, Hone. apply delete_singleton_eq.
Qed.

Lemma stalled_run actions w w' :
  stalled w → run rejects actions w = Some w' →
  stalled w'
  ∧ emitted (trace w') = emitted (trace w)
  ∧ opened (trace w') = opened (trace w)
  ∧ armed (trace w') = armed (trace w).
Proof.
  revert w. induction actions as [| a rest IH]; intros w Hw Hrun; cbn [run] in Hrun.
  - by simplify_eq.
  - destruct (step rejects a w) as [w1 |] eqn:Hstep; [| done].
    destruct (stalled_step a w w1 Hw Hstep) as (Hw1 & He & Ho & Ha).
    destruct (IH w1 Hw1 Hrun) as (? & -> & -> & ->). done.
Qed.

Lemma open_transport_throws w :
  rejects (address_of (this w)) = true →
  reconnectAttempts (this w) = 0%nat →
  sockets (host w) = [] → timeouts (host w) = ∅ →
  let w' := open_transport rejects w in
  stalled w'
  ∧ state (this w') = connecting
  ∧ opened (trace w') = opened (trace w)
  ∧ (length (armed (trace w')) ≤ S (length (armed (trace w))))%nat
  ∧ ∃ tail,
      emitted (trace w')
      = emitted (trace w)
          ++ [("state:change", DState connecting);
              ("error", DError None "Failed to connect")] ++ tail
      ∧ ∀ e, e ∈ tail → e.1 = "reconnecting" ∨ e.1 = "reconnect:failed".
Proof.
  intros Hrejects Hzero Hsocks Htimers. cbn zeta.
  unfold open_transport, new_WebSocket. rewrite Hzero.
  rewrite decide_False by lia. rewrite (emit_this "state:change").
  change (address_of (this (upd_this (set_state connecting) w)))
    with (address_of (this w)).
  rewrite Hrejects. lazy iota.
  set (w1 := emit "error" _ _).
  assert (this w1 = set_state connecting (this w)) as Hthis by (subst w1; by frame).
  assert (host w1 = host w) as Hhost by (subst w1; by frame).
  assert (emitted (trace w1)
          = emitted (trace w)
              ++ [("state:change", DState connecting);
                  ("error", DError None "Failed to connect")]) as Hemitted.
  { subst w1. frame. by rewrite <- app_assoc. }
  assert (opened (trace w1) = opened (trace w)) as Hopened by (subst w1; by frame).
  assert (armed (trace w1) = armed (trace w)) as Harmed by (subst w1; by frame).
  clearbody w1.
  destruct (autoReconnect (options (this w1))) eqn:Hauto.
  - destruct (decide (maxReconnectAttempts (options (this w1))
                        ≤ Z.of_nat (reconnectAttempts (this w1)))) as [Hmax | Hless].
    + rewrite scheduleReconnect_exhausted by done. unfold stalled. frame.
      rewrite Hthis, Hhost, Hsocks, Htimers, Hemitted, Hopened, Harmed.
      cbn [state set_state].
      split; [split; [done | split; by left] |].
      split_and!; [done | done | lia |].
      eexists. rewrite <- app_assoc. split; [done |].
      intros e ->%list_elem_of_singleton. by right.
    + destruct (scheduleReconnect_arms w1)
        as (Hthis' & Hhost' & Hemitted' & Harmed' & Hopened' & _); [done | lia |].
      unfold stalled. rewrite Hthis', Hhost', Hemitted', Hopened', Harmed'.
      rewrite Hthis, Hhost, Hsocks, Htimers, Hemitted, Hopened, Harmed.
      cbn [state set_state set_reconnectTimeout set_reconnectAttempts
           reconnectTimeout sockets timeouts].
      split; [split; [done | split; [by left | right]] |].
      * split; [done |]. eexists _, _. split; [done |]. apply insert_empty.
      * split_and!; [done | done | rewrite length_app; cbn; lia |].
        eexists. rewrite <- app_assoc. split; [done |].
        intros e ->%list_elem_of_singleton. by left.
  - rewrite scheduleReconnect_disabled by done. unfold stalled.
    rewrite Hthis, Hhost, Hsocks, Htimers, Hemitted, Hopened, Harmed.
    cbn [state set_state].
    split; [split; [done | split; by left] |].
    split_and!; [done | done | lia |].
    exists []. split; [done |]. by intros e ?%elem_of_nil.
Qed.

(** X19: when the host's [WebSocket] constructor throws in the
    constructor's [connect], the channel reports [state:change] (connecting)
    and the error "Failed to connect", schedules at most one retry, and is
    stuck from then on: the state is still [connecting] when the retry timer
    fires, so that [connect] returns at its guard; whatever happens
    afterwards no socket is ever opened, no further timer is armed and no
    further event is emitted, and the state is [connecting] until
    [disconnect] makes it [disconnected]. *)
Theorem failed_construction_stalls channelName o actions w :
  isValidPublicKey (opt_key o) = true →
  rejects (address_of (this (fresh channelName o))) = true →
  run rejects actions (new_KalzeChannel rejects channelName o) = Some w →
  let w0 := new_KalzeChannel rejects channelName o in
  state (this w0) = connecting
  ∧ (∃ tail,
       emitted (trace w0)
       = [("state:change", DState connecting);
          ("error", DError None "Failed to connect")] ++ tail
       ∧ ∀ e, e ∈ tail → e.1 = "reconnecting" ∨ e.1 = "reconnect:failed")
  ∧ (length (armed (trace w0)) ≤ 1)%nat
  ∧ opened (trace w) = []
  ∧ armed (trace w) = armed (trace w0)
  ∧ emitted (trace w) = emitted (trace w0)
  ∧ (state (this w) = connecting ∨ state (this w) = disconnected)
  ∧ (∀ h w', step rejects (TimeoutFires h) w = Some w' →
       this w' = this w ∧ trace w' = trace w).
Proof.
  intros Hkey Hrejects Hrun. cbn zeta.
  assert (new_KalzeChannel rejects channelName o
          = open_transport rejects (fresh channelName o)) as Hnew.
  { unfold new_KalzeChannel, connect.
    rewrite bool_decide_eq_false_2 by (cbn; intros [|]; done).
    change (key (options (this (fresh channelName o)))) with (opt_key o).
    by rewrite Hkey. }
  destruct (open_transport_throws (fresh channelName o) Hrejects eq_refl eq_refl eq_refl)
    as (Hstalled & Hstate & Hopened & Harmed & tail & Hemitted & Htail).
  rewrite <- Hnew in Hstalled, Hstate, Hopened, Harmed, Hemitted.
  destruct (stalled_run actions _ w Hstalled Hrun) as (Hw & He & Ho & Ha).
  split_and!; [done | by exists tail | | by rewrite Ho, Hopened | done | done | |].
  - exact Harmed.
  - by destruct Hw as (_ & ? & _).
  - intros h w' Hstep. cbn [step] in Hstep.
    destruct (timeouts (host w) !! h) as [delay |] eqn:Hh; [| done].
    destruct Hw as (_ & _ & [Hempty | (Hconnecting & _)]);
      [by rewrite Hempty, lookup_empty in Hh |].
    unfold connect in Hstep.
    rewrite bool_decide_eq_true_2 in Hstep by (by left). by simplify_eq.
Qed.

End Stalled.

(** Witness of X19: a host that refuses every address; the retry timer
    fires, the application calls [trigger]. *)
Lemma failed_construction_stalls_witness :
  match run refuses [TimeoutFires 1; CallTrigger (JNum 7)]
          (new_KalzeChannel refuses "room" sample_options) with
  | Some w =>
      state (this w) = connecting
      ∧ opened (trace w) = []
      ∧ emitted (trace w)
        = emitted (trace (new_KalzeChannel refuses "room" sample_options))
  | None => False
  end.
Proof.
  destruct (run refuses [TimeoutFires 1; CallTrigger (JNum 7)]
              (new_KalzeChannel refuses "room" sample_options))
    as [w |] eqn:Hrun; [| vm_compute in Hrun; discriminate Hrun].
  assert (isValidPublicKey (opt_key sample_options) = true) as Hkey
    by (vm_compute; reflexivity).
  destruct (failed_construction_stalls refuses "room" sample_options _ w
              Hkey eq_refl Hrun)
    as (_ & _ & _ & Hopened & _ & Hemitted & _ & _).
  split_and!; [| exact Hopened | exact Hemitted].
  vm_compute in Hrun. injection Hrun as <-. reflexivity.
Defined.

(** * Witnesses for the listeners *)

(** Witness of X10: registering a listener again, and a new one, on the
    channel with three listeners of ["foo"]. *)
Lemma on_registers_once_witness :
  match run accepts listening (new_KalzeChannel accepts "room" sample_options) with
  | Some w =>
      registry_inv w
      ∧ members "foo" (on "foo" (Plain first_fn) w).2 = members "foo" w
      ∧ members "foo" (on "foo" (Plain wild_fn) w).2
        = members "foo" w ++ [Plain wild_fn]
  | None => False
  end.
Proof.
  destruct (run accepts listening (new_KalzeChannel accepts "room" sample_options))
    as [w |] eqn:Hrun; [| vm_compute in Hrun; discriminate Hrun].
  assert (registry_inv w) as Hinv.
  { apply (reachable_registry_inv accepts). by eexists _, _, _. }
  destruct (on_registers_once "foo" (Plain first_fn) w Hinv) as (Hfirst & _).
  destruct (on_registers_once "foo" (Plain wild_fn) w Hinv) as (Hwild & _).
  split_and!; [exact Hinv | |].
  - rewrite Hfirst. vm_compute in Hrun. injection Hrun as <-. vm_compute. reflexivity.
  - rewrite Hwild. vm_compute in Hrun. injection Hrun as <-. vm_compute. reflexivity.
Defined.

(** Witness of X11: a dispatch of ["foo"] on the channel with three
    listeners of ["foo"], the second one registered with [once]. *)
Lemma once_listener_is_removed_witness :
  match run accepts listening (new_KalzeChannel accepts "room" sample_options) with
  | Some w =>
      registry_inv w
      ∧ members "foo" (emit "foo" (DJson (JNum 7)) w)
        = [Plain first_fn; Plain third_fn]
  | None => False
  end.
Proof.
  destruct (run accepts listening (new_KalzeChannel accepts "room" sample_options))
    as [w |] eqn:Hrun; [| vm_compute in Hrun; discriminate Hrun].
  assert (registry_inv w) as Hinv.
  { apply (reachable_registry_inv accepts). by eexists _, _, _. }
  destruct (once_listener_is_removed "foo" (DJson (JNum 7)) w Hinv) as (Hown & _);
    [discriminate |].
  split; [exact Hinv |].
  rewrite Hown. vm_compute in Hrun. injection Hrun as <-. vm_compute. reflexivity.
Defined.

(** X21: what [once] registers is a wrapper closure of its own, not the
    callback: [off(event, callback)] with the callback given to [once] does
    not cancel the registration (the wrapper stays, and the callback will
    still be called once), while the closure [once] returned does.  The
    wrapper is a new closure: no listener of the event is that closure
    already. *)
Theorem once_registers_a_wrapper ev f w :
  registry_inv w →
  OnceWrapper (closures w) ev f ∉ members ev w →
  let wrapper := OnceWrapper (closures w) ev f in
  members ev (once ev f w).2 = members ev w ++ [wrapper]
  ∧ members ev (off ev (Some (Plain f)) (once ev f w).2)
    = filter (λ x, x ≠ Plain f) (members ev w) ++ [wrapper]
  ∧ members ev (call_unsubscribe (once ev f w).1 (once ev f w).2) = members ev w
  ∧ (∀ other, other ≠ ev → members other (once ev f w).2 = members other w).
Proof.
  intros Hinv Hfresh. cbn zeta. unfold once.
  assert (registry_inv (upd_closures S w)) as Hinv' by done.
  pose proof Hinv' as [_ Halloc].
  change (members ev w) with (members ev (upd_closures S w)) in *.
  pose proof (on_members ev (OnceWrapper (closures w) ev f) _ Halloc) as Hon.
  rewrite decide_False in Hon by done.
  split_and!.
  - exact Hon.
  - rewrite off_members, Hon, filter_app.
    by rewrite (filter_cons_True (λ x, x ≠ Plain f)) by done.
  - unfold call_unsubscribe. cbn [fst unsub_event unsub_callback on].
    rewrite off_members, Hon, filter_app.
    rewrite (filter_all (λ x, x ≠ OnceWrapper (closures w) ev f)
               (members ev (upd_closures S w))) by (intros x Hx ->; done).
    rewrite filter_cons_False by (intros H; by apply H). by rewrite app_nil_r.
  - intros other Hne.
    by rewrite (on_members_other ev other _ (upd_closures S w)) by done.
Qed.

(** Witness of X21: [once("foo", f)] on a new channel, then [off("foo", f)]. *)
Lemma once_registers_a_wrapper_witness :
  let w := fresh "room" sample_options in
  members "foo" (off "foo" (Some (Plain first_fn)) (once "foo" first_fn w).2)
  = [OnceWrapper 0 "foo" first_fn].
Proof.
  cbn zeta.
  assert (registry_inv (fresh "room" sample_options)) as Hinv.
  { split; [split |]; by intros ? ?. }
  destruct (once_registers_a_wrapper "foo" first_fn (fresh "room" sample_options) Hinv)
    as (_ & Hoff & _); [by intros ?%elem_of_nil |].
  exact Hoff.
Defined.

(** * Witnesses for the key check and the terminal codes *)

(** Witness of X14: a channel built with the key ["bad-key"]; the
    application calls [trigger] and [disconnect]. *)
Lemma malformed_key_never_connects_witness :
  match run accepts [CallTrigger (JNum 7); CallDisconnect]
          (new_KalzeChannel accepts "room" bad_key_options) with
  | Some w => state (this w) = disconnected ∧ opened (trace w) = []
  | None => False
  end.
Proof.
  destruct (run accepts [CallTrigger (JNum 7); CallDisconnect]
              (new_KalzeChannel accepts "room" bad_key_options))
    as [w |] eqn:Hrun; [| vm_compute in Hrun; discriminate Hrun].
  assert (isValidPublicKey (opt_key bad_key_options) = false) as Hkey
    by (vm_compute; reflexivity).
  destruct (malformed_key_never_connects accepts "room" bad_key_options _ w Hkey Hrun)
    as (_ & Hstate & _ & Hopened).
  by split.
Defined.

(** Witness of X15: the server closes the socket of a new channel with the
    code 4403. *)
Lemma handleClose_terminal_witness :
  4403 ∈ terminal_codes
  ∧ armed (trace (handleClose 4403 "" (new_KalzeChannel accepts "room" sample_options)))
    = armed (trace (new_KalzeChannel accepts "room" sample_options)).
Proof.
  assert (4403 ∈ terminal_codes) as Hcode by (by apply no_reconnect_terminal).
  split; [exact Hcode |].
  destruct (handleClose_terminal (new_KalzeChannel accepts "room" sample_options)
              4403 "" Hcode) as (_ & _ & _ & Harmed & _).
  exact Harmed.
Defined.
